(** * download_resources.py: a shallow embedding and its verified properties

    The script scrapes Google Sites pages for Drive file ids, Docs ids and
    Drive folder URLs, then downloads every resource through an HTTP
    session.  This development embeds the helpers ([slugify],
    [get_confirm_token], [infer_extension], [extract_filename]), the two
    download routines and the two loops of [main] and proves the properties
    the specification states about them.

    Conventions of the embedding.
    - A Python [str] is a Rocq [string].  Every pattern of the script only
      names ASCII characters, so the functions act the same on the UTF-8
      bytes of a text as on its code points.
    - The browser, the HTTP server and the iteration order of a Python
      [set] are outside the script; they are parameters of the model.
    - Code that can raise lives in a state-and-exception monad over a
      [World] that records the filesystem and the history of navigations
      and requests. *)

From Stdlib Require Import Ascii String ZArith Lia.
From stdpp Require Import base option list gmap sets strings.

Local Open Scope Z_scope.
Local Open Scope nat_scope.

(** ** Characters and elementary string operations *)

Module Text.

Definition dquote : ascii := "034"%char.
Definition slash : ascii := "/"%char.
Definition underscore : ascii := "_"%char.

Definition in_range (lo hi : nat) (c : ascii) : bool :=
  let n := nat_of_ascii c in Nat.leb lo n && Nat.leb n hi.

(** The class [[A-Za-z0-9]]. *)
Definition is_alnum (c : ascii) : bool :=
  in_range 65 90 c || in_range 97 122 c || in_range 48 57 c.

(** The class [[A-Za-z0-9_-]]. *)
Definition is_idchar (c : ascii) : bool :=
  is_alnum c || Ascii.eqb c underscore || Ascii.eqb c "-"%char.

Definition is_empty (s : string) : bool :=
  match s with EmptyString => true | String _ _ => false end.

Fixpoint forallb_str (p : ascii → bool) (s : string) : bool :=
  match s with
  | EmptyString => true
  | String c s' => p c && forallb_str p s'
  end.

(** [strip_prefix p s] is [Some r] exactly when [s = p ++ r]. *)
Fixpoint strip_prefix (p s : string) : option string :=
  match p with
  | EmptyString => Some s
  | String a p' =>
      match s with
      | EmptyString => None
      | String b s' => if Ascii.eqb a b then strip_prefix p' s' else None
      end
  end.

(** [str.startswith]. *)
Definition startswith (s p : string) : bool :=
  match strip_prefix p s with Some _ => true | None => false end.

(** The operator [p in s] on strings. *)
Fixpoint contains (p s : string) : bool :=
  startswith s p ||
  match s with
  | EmptyString => false
  | String _ s' => contains p s'
  end.

(** Longest prefix made of characters of a class, and what follows it. *)
Fixpoint span (p : ascii → bool) (s : string) : string * string :=
  match s with
  | EmptyString => (EmptyString, EmptyString)
  | String c s' =>
      if p c then let '(a, b) := span p s' in (String c a, b)
      else (EmptyString, s)
  end.

Fixpoint lstrip (c : ascii) (s : string) : string :=
  match s with
  | EmptyString => EmptyString
  | String a s' => if Ascii.eqb a c then lstrip c s' else s
  end.

Fixpoint rstrip (c : ascii) (s : string) : string :=
  match s with
  | EmptyString => EmptyString
  | String a s' =>
      let r := rstrip c s' in
      if Ascii.eqb a c && is_empty r then EmptyString else String a r
  end.

Fixpoint last_char (s : string) : option ascii :=
  match s with
  | EmptyString => None
  | String a EmptyString => Some a
  | String _ s' => last_char s'
  end.

(** [s.strip(c)] for a one-character argument. *)
Definition strip (c : ascii) (s : string) : string := rstrip c (lstrip c s).

End Text.

(** ** Regular expressions of the script

    Each pattern of the script is embedded as the scanner that Python's
    backtracking engine runs for it. *)

Module Re.
Import Text.

(** [re.sub(r'[^A-Za-z0-9]+', '_', s)].  The scan goes left to right; at the
    first character outside the class a match starts and greedily takes the
    whole run, for which one underscore is emitted.  [in_run] tells that the
    current character continues a run whose underscore is already out. *)
Fixpoint sub_nonalnum_go (in_run : bool) (s : string) : string :=
  match s with
  | EmptyString => EmptyString
  | String c s' =>
      if is_alnum c then String c (sub_nonalnum_go false s')
      else if in_run then sub_nonalnum_go true s'
      else String underscore (sub_nonalnum_go true s')
  end.

Definition sub_nonalnum (s : string) : string := sub_nonalnum_go false s.

(** One attempt of the pattern [<lit>([A-Za-z0-9_-]+)] at the start of [s]:
    the literal, then the longest run of identifier characters, which must
    not be empty.  Nothing follows the group in the pattern, so the engine
    never gives back a character of the run. *)
Definition match_id_at (lit s : string) : option string :=
  match strip_prefix lit s with
  | Some rest =>
      let id := fst (span is_idchar rest) in
      if is_empty id then None else Some id
  | None => None
  end.

(** [re.findall] for such a pattern: the leftmost match is taken, the scan
    resumes right after it, and a position where the attempt fails is
    skipped.  [skip] counts the characters of the last match that are still
    to be stepped over. *)
Fixpoint findall_go (lit : string) (skip : nat) (s : string) : list string :=
  match s with
  | EmptyString => []
  | String _ s' =>
      match skip with
      | S k => findall_go lit k s'
      | O =>
          match match_id_at lit s with
          | Some id =>
              id :: findall_go lit (String.length lit + String.length id - 1) s'
          | None => findall_go lit 0 s'
          end
      end
  end.

(** With one group [findall] returns the group. *)
Definition findall_id (lit s : string) : list string := findall_go lit 0 s.

(** Without a group [findall] returns the whole match. *)
Definition findall_whole (lit s : string) : list string :=
  (λ id, lit +:+ id) <$> findall_go lit 0 s.

(** Continuations for the optional pieces of the file-name pattern.  [opt]
    is the greedy [x?]: the piece is taken when it is there, and given up
    again when the rest of the pattern fails after it. *)
Definition lit_then (lit : string) (k : string → option string)
    (s : string) : option string :=
  match strip_prefix lit s with Some r => k r | None => None end.

Definition opt_then (lit : string) (k : string → option string)
    (s : string) : option string :=
  match strip_prefix lit s with
  | Some r => match k r with Some g => Some g | None => k s end
  | None => k s
  end.

Definition not_quote_semi (c : ascii) : bool :=
  negb (Ascii.eqb c dquote) && negb (Ascii.eqb c ";"%char).

(** The group of the pattern, one or more characters other than the double
    quote and the semicolon, followed by the closing optional quote.  That
    last piece matches at every position, so the longest run is kept. *)
Definition group_name (s : string) : option string :=
  let g := fst (span not_quote_semi s) in
  if is_empty g then None else Some g.

(** The pattern of [extract_filename] tried at the start of [s]. *)
Definition match_filename_at : string → option string :=
  lit_then "filename"
    (opt_then "*"
      (lit_then "="
        (opt_then "UTF-8''"
          (opt_then (String dquote EmptyString) group_name)))).

(** [re.search]: the first position where the pattern matches. *)
Fixpoint search_filename (s : string) : option string :=
  match match_filename_at s with
  | Some g => Some g
  | None =>
      match s with
      | EmptyString => None
      | String _ s' => search_filename s'
      end
  end.

End Re.

(** ** Helpers of the script *)

Section Slugify.
(** [urlparse(url).path]: the URL parser belongs to the Python library.  It
    is taken where it returns; the [ValueError] it raises on a malformed
    URL is outside the model. *)
Variable urlparse_path : string → string.

Definition slugify (url : string) : string :=
  let p := Text.strip Text.slash (urlparse_path url) in
  let r := Re.sub_nonalnum p in
  if Text.is_empty r then "root" else r.
End Slugify.

(** ** HTTP messages *)

Record Request := mkRequest {
  req_url : string;
  req_params : list (string * string)
}.

(** A response as the script reads it: the status, the headers (a
    case-insensitive dictionary, keyed here by the lower-case name), the
    cookies in the order [cookies.items()] yields them, and the body. *)
Record Response := mkResponse {
  status_code : Z;
  headers : gmap string string;
  cookies : list (string * string);
  content : string
}.

Definition lower_char (c : ascii) : ascii :=
  if Text.in_range 65 90 c then ascii_of_nat (nat_of_ascii c + 32) else c.

Fixpoint lower (s : string) : string :=
  match s with
  | EmptyString => EmptyString
  | String c s' => String (lower_char c) (lower s')
  end.

(** [resp.headers.get(name, dflt)]. *)
Definition headers_get (r : Response) (name dflt : string) : string :=
  default dflt (headers r !! lower name).

Fixpoint first_warning (cs : list (string * string)) : option string :=
  match cs with
  | [] => None
  | (k, v) :: cs' =>
      if Text.startswith k "download_warning" then Some v else first_warning cs'
  end.

Definition get_confirm_token (resp : Response) : option string :=
  first_warning (cookies resp).

(** Truth value of [token] in [if token:]: [None] and the empty string are
    false. *)
Definition truthy (token : option string) : bool :=
  match token with
  | Some v => negb (Text.is_empty v)
  | None => false
  end.

Definition infer_extension (content_type : string) : string :=
  if Text.startswith content_type "application/pdf" then ".pdf"
  else if Text.contains "wordprocessingml.document" content_type
          || Text.contains "msword" content_type then ".docx"
  else if Text.contains "presentationml.presentation" content_type then ".pptx"
  else if Text.contains "spreadsheet" content_type then ".xlsx"
  else EmptyString.

Definition extract_filename (resp : Response) (fallback_base : string) : string :=
  let cd := headers_get resp "Content-Disposition" EmptyString in
  match Re.search_filename cd with
  | Some name => name
  | None =>
      let ext := infer_extension (headers_get resp "Content-Type" EmptyString) in
      fallback_base +:+ ext
  end.

(** [r.iter_content(size)]: the body cut into pieces of [size] bytes, the
    last one possibly shorter.  [room] is what the piece being filled can
    still take. *)
Definition push_head (c : ascii) (room : N) (rest : list string) : list string :=
  if N.eqb room 0 then String c EmptyString :: rest
  else match rest with
       | [] => [String c EmptyString]
       | h :: t => String c h :: t
       end.

Fixpoint chunks (size room : N) (s : string) : list string :=
  match s with
  | EmptyString => []
  | String c s' =>
      let r := if N.eqb room 0 then N.pred size else N.pred room in
      push_head c r (chunks size r s')
  end.

Definition iter_content (r : Response) (size : N) : list string :=
  chunks size 0 (content r).

(** ** The filesystem

    A path is the string the script hands to the operating system; an entry
    is a directory or a regular file with its bytes.  Paths are compared as
    strings, the way they are produced by [os.path.join] from an absolute,
    normalised base directory.  This is the filesystem for paths in normal
    form: a path with a component [.] or [..], with a doubled slash or
    through a symbolic link names an entry that the model does not find
    under that string. *)

Inductive node :=
  | Dir
  | File (data : string).

Inductive os_error :=
  | EEXIST      (* a regular file is where a directory is wanted *)
  | ENOENT      (* the parent directory is missing *)
  | EISDIR      (* a directory is where a file is to be opened *)
  | ENOTDIR.    (* a regular file is on the way to a directory *)

Inductive exn :=
  | RequestException                 (* [session.get] could not complete *)
  | HTTPError (status : Z)           (* [raise_for_status] *)
  | OSError (e : os_error) (path : string)
  | WebDriverException.              (* the browser failed *)

(** [posixpath.join] of two components. *)
Fixpoint ends_with_slash (s : string) : bool :=
  match s with
  | EmptyString => false
  | String c EmptyString => Ascii.eqb c Text.slash
  | String _ s' => ends_with_slash s'
  end.

Definition path_join (a b : string) : string :=
  if Text.startswith b "/" then b
  else if Text.is_empty a || ends_with_slash a then a +:+ b
  else a +:+ "/" +:+ b.

(** [posixpath.dirname]: everything up to the last slash, without the
    slashes that end it unless it is made of slashes only. *)
Fixpoint upto_last_slash (s : string) : string :=
  match s with
  | EmptyString => EmptyString
  | String c s' =>
      if Text.contains "/" s' then String c (upto_last_slash s')
      else if Ascii.eqb c Text.slash then "/" else EmptyString
  end.

Definition dirname (p : string) : string :=
  let head := upto_last_slash p in
  if Text.forallb_str (Ascii.eqb Text.slash) head then head
  else Text.rstrip Text.slash head.

(** The directories [os.makedirs(p)] goes through, outermost first: every
    prefix of [p] that ends a component, and [p] itself. *)
Fixpoint ancestors_go (pre : string) (ok : bool) (s : string) : list string :=
  match s with
  | EmptyString => if ok then [pre] else []
  | String c s' =>
      (if Ascii.eqb c Text.slash && ok then [pre] else [])
      ++ ancestors_go (pre +:+ String c EmptyString)
           (negb (Ascii.eqb c Text.slash)) s'
  end.

Definition ancestors (p : string) : list string :=
  ancestors_go EmptyString false p.

(** One directory of the chain: kept when it is there, made when nothing is
    there, an error when a regular file is in the way.  [os.makedirs] steps
    over what exists: a regular file at the last place is reported there,
    [mkdir] failing with [FileExistsError]; a regular file at an earlier
    place is reported at the place after it, [next], where [mkdir] fails
    with [NotADirectoryError]. *)
Definition mkdir_exist_ok (fs : gmap string node) (q : string)
    (next : option string) : exn + gmap string node :=
  match fs !! q with
  | Some (File _) =>
      inl (match next with
           | Some q' => OSError ENOTDIR q'
           | None => OSError EEXIST q
           end)
  | Some Dir => inr fs
  | None => inr (<[q := Dir]> fs)
  end.

(** The directories made before an error stay. *)
Fixpoint mkdir_chain (fs : gmap string node) (qs : list string)
    : option exn * gmap string node :=
  match qs with
  | [] => (None, fs)
  | q :: qs' =>
      match mkdir_exist_ok fs q (head qs') with
      | inl e => (Some e, fs)
      | inr fs' => mkdir_chain fs' qs'
      end
  end.

(** [os.makedirs(p, exist_ok=True)]. *)
Definition fs_makedirs (fs : gmap string node) (p : string)
    : option exn * gmap string node :=
  if Text.is_empty p then (Some (OSError ENOENT p), fs)
  else mkdir_chain fs (ancestors p).

(** The directory a new file goes into is there: the working directory for
    a bare name, the root, or a directory of the tree. *)
Definition parent_ok (fs : gmap string node) (p : string) : bool :=
  let d := dirname p in
  Text.forallb_str (Ascii.eqb Text.slash) d
  || match fs !! d with Some Dir => true | _ => false end.

(** [open(p, 'wb')]: the file is created or emptied. *)
Definition fs_open_wb (fs : gmap string node) (p : string)
    : exn + gmap string node :=
  match fs !! p with
  | Some Dir => inl (OSError EISDIR p)
  | _ =>
      if parent_ok fs p then inr (<[p := File EmptyString]> fs)
      else inl (OSError ENOENT p)
  end.

(** [f.write(chunk)] on the file opened at [p]. *)
Definition fs_write (fs : gmap string node) (p chunk : string)
    : gmap string node :=
  match fs !! p with
  | Some (File d) => <[p := File (d +:+ chunk)]> fs
  | _ => fs
  end.

(** ** The world and the monad of the script *)

(** Invocations of the two download routines, as a ghost record. *)
Inductive call :=
  | CallDrive (fid outdir : string)
  | CallDoc (did outdir fmt : string).

(** The lines the script prints. *)
Inductive msg :=
  | Processing (url outdir : string)
  | CrawlingFolder (fldr : string)
  | Downloading (url : string)
  | SavedDrive (filename : string)
  | SavedDoc (filename : string)
  | FailedDrive (fid : string) (e : exn)
  | FailedDoc (did fmt : string) (e : exn)
  | AllDone (base_dir : string).

Record World := mkWorld {
  fs : gmap string node;       (* the filesystem *)
  nav : list string;           (* pages the browser was sent to, oldest first *)
  reqs : list Request;         (* requests of the HTTP session, oldest first *)
  calls : list call;           (* download routines entered, oldest first *)
  out : list msg               (* lines printed, oldest first *)
}.

Definition M (A : Type) : Type := World → (exn + A) * World.

Definition ret {A} (a : A) : M A := λ w, (inr a, w).

Definition bind {A B} (m : M A) (k : A → M B) : M B :=
  λ w, match m w with
       | (inl e, w') => (inl e, w')
       | (inr a, w') => k a w'
       end.

Definition raise {A} (e : exn) : M A := λ w, (inl e, w).

(** [try: m except Exception as e: h e]. *)
Definition try_except {A} (m : M A) (h : exn → M A) : M A :=
  λ w, match m w with
       | (inl e, w') => h e w'
       | (inr a, w') => (inr a, w')
       end.

Global Instance M_ret : MRet M := @ret.
Global Instance M_bind : MBind M := λ A B k m, bind m k.

(** [for x in l: body x]. *)
Fixpoint for_each {A} (l : list A) (body : A → M unit) : M unit :=
  match l with
  | [] => ret tt
  | x :: l' => body x;; for_each l' body
  end.

(** A loop that updates local variables [acc]. *)
Fixpoint for_fold {A S} (l : list A) (acc : S) (body : S → A → M S) : M S :=
  match l with
  | [] => ret acc
  | x :: l' => acc' ← body acc x; for_fold l' acc' body
  end.

Definition print (m : msg) : M unit :=
  λ w, (inr tt, mkWorld (fs w) (nav w) (reqs w) (calls w) (out w ++ [m])).

Definition enter (c : call) : M unit :=
  λ w, (inr tt, mkWorld (fs w) (nav w) (reqs w) (calls w ++ [c]) (out w)).

Definition with_fs (w : World) (fs' : gmap string node) : World :=
  mkWorld fs' (nav w) (reqs w) (calls w) (out w).

Definition makedirs (p : string) : M unit :=
  λ w, match fs_makedirs (fs w) p with
       | (Some e, fs') => (inl e, with_fs w fs')
       | (None, fs') => (inr tt, with_fs w fs')
       end.

Definition open_wb (p : string) : M unit :=
  λ w, match fs_open_wb (fs w) p with
       | inl e => (inl e, w)
       | inr fs' => (inr tt, with_fs w fs')
       end.

Definition write (p chunk : string) : M unit :=
  λ w, (inr tt, with_fs w (fs_write (fs w) p chunk)).

(** [r.raise_for_status()]: the statuses 400 to 599 are errors. *)
Definition is_http_error (r : Response) : bool :=
  ((400 <=? status_code r) && (status_code r <? 600))%Z.

Definition raise_for_status (r : Response) : M unit :=
  if is_http_error r then raise (HTTPError (status_code r)) else ret tt.

(** [with open(path, 'wb') as f: for chunk in r.iter_content(32768):
    f.write(chunk)]. *)
Definition save_stream (path : string) (r : Response) : M unit :=
  open_wb path;;
  for_each (iter_content r 32768) (λ chunk, write path chunk).

(** Insertion into a Python [dict]: a key that is there keeps its place and
    takes the new value, a new key goes last. *)
Fixpoint dict_set {V} (k : string) (v : V) (d : list (string * V))
    : list (string * V) :=
  match d with
  | [] => [(k, v)]
  | (k', v') :: d' =>
      if decide (k = k') then (k, v) :: d' else (k', v') :: dict_set k v d'
  end.

Fixpoint dict_get {V} (k : string) (d : list (string * V)) : option V :=
  match d with
  | [] => None
  | (k', v') :: d' => if decide (k = k') then Some v' else dict_get k d'
  end.

(** ** The download routines and [main] *)

Section Script.
(** What the server answers to a request, given the requests the session
    made before it. *)
Variable server : list Request → Request → exn + Response.
(** What the browser shows after a history of navigations that ends with
    the page asked for, or the failure of that navigation. *)
Variable browser : list string → exn + string.
(** The order in which [for x in s] goes through a set. *)
Variable order : gset string → list string.
(** [urlparse(url).path]. *)
Variable urlparse_path : string → string.
(** The absolute path of the [resources] directory next to the script. *)
Variable base_dir : string.

(** [session.get(url, params=params, stream=True)]. *)
Definition session_get (url : string) (params : list (string * string))
    : M Response :=
  λ w,
    let q := mkRequest url params in
    let w' := mkWorld (fs w) (nav w) (reqs w ++ [q]) (calls w) (out w) in
    match server (reqs w) q with
    | inl e => (inl e, w')
    | inr r => (inr r, w')
    end.

(** [driver.get(url)]. *)
Definition driver_get (url : string) : M unit :=
  λ w,
    let w' := mkWorld (fs w) (nav w ++ [url]) (reqs w) (calls w) (out w) in
    match browser (nav w ++ [url]) with
    | inl e => (inl e, w')
    | inr _ => (inr tt, w')
    end.

(** [driver.page_source]. *)
Definition page_source : M string :=
  λ w,
    match browser (nav w) with
    | inl e => (inl e, w)
    | inr src => (inr src, w)
    end.

Definition download_drive_file (fid outdir : string) : M unit :=
  enter (CallDrive fid outdir);;
  let base := "https://drive.google.com/uc?export=download" in
  let params := [("id", fid)] in
  r ← session_get base params;
  let token := get_confirm_token r in
  r ← (if truthy token
       then session_get base [("id", fid); ("confirm", default EmptyString token)]
       else mret r);
  raise_for_status r;;
  let filename := extract_filename r fid in
  let path := path_join outdir filename in
  makedirs outdir;;
  save_stream path r;;
  print (SavedDrive filename).

Definition download_doc_export (did outdir fmt : string) : M unit :=
  enter (CallDoc did outdir fmt);;
  let url := "https://docs.google.com/document/d/" +:+ did +:+ "/export" in
  let params := [("format", fmt)] in
  r ← session_get url params;
  let token := get_confirm_token r in
  r ← (if truthy token
       then session_get url (params ++ [("confirm", default EmptyString token)])
       else mret r);
  raise_for_status r;;
  let ext := if decide (fmt = "pdf") then ".pdf" else ".docx" in
  let filename := did +:+ "_export" +:+ ext in
  let path := path_join outdir filename in
  makedirs outdir;;
  save_stream path r;;
  print (SavedDoc filename).

Definition file_ids (src : string) : gset string :=
  list_to_set (Re.findall_id "/file/d/" src)
  ∪ list_to_set (Re.findall_id "open?id=" src).

Definition doc_ids (src : string) : gset string :=
  list_to_set (Re.findall_id "/document/d/" src).

Definition folder_urls (src : string) : gset string :=
  list_to_set (Re.findall_whole "https://drive.google.com/drive/folders/" src).

(** The body of the loop over [args.urls], up to the value stored in
    [id_map]. *)
Definition crawl_url (url : string) : M (string * gset string * gset string) :=
  let slug := slugify urlparse_path url in
  let outdir := path_join base_dir slug in
  print (Processing url outdir);;
  driver_get url;;
  src ← page_source;
  let files := file_ids src in
  let docs := doc_ids src in
  let folders := folder_urls src in
  '(files, docs) ← for_fold (order folders) (files, docs)
    (λ '(files, docs) fldr,
       print (CrawlingFolder fldr);;
       driver_get fldr;;
       sub ← page_source;
       mret (files ∪ file_ids sub, docs ∪ doc_ids sub));
  mret (outdir, files, docs).

Definition crawl_phase (urls : list string)
    : M (list (string * (string * gset string * gset string))) :=
  for_fold urls []
    (λ id_map url, entry ← crawl_url url; mret (dict_set url entry id_map)).

(** The downloads of one entry of [id_map]. *)
Definition download_entry
    (item : string * (string * gset string * gset string)) : M unit :=
  let '(url, (outdir, files, docs)) := item in
  print (Downloading url);;
  for_each (order files) (λ fid,
    try_except (download_drive_file fid outdir)
               (λ e, print (FailedDrive fid e)));;
  for_each (order docs) (λ did,
    for_each ["pdf"; "docx"] (λ fmt,
      try_except (download_doc_export did outdir fmt)
                 (λ e, print (FailedDoc did fmt e)))).

Definition download_phase
    (id_map : list (string * (string * gset string * gset string))) : M unit :=
  for_each id_map download_entry.

(** [main], from the creation of the base directory on.  Starting the
    browser, the prompt and the copy of the cookies into the session do
    not touch the world recorded here.  The runs of the model are those in
    which these steps, the scrolling script and the closing of the browser
    go through, and in which the command line holds URLs that [urlparse]
    accepts; [argparse] refuses an empty command line before any of this. *)
Definition main (urls : list string) : M unit :=
  makedirs base_dir;;
  driver_get "https://accounts.google.com/signin";;
  id_map ← crawl_phase urls;
  download_phase id_map;;
  print (AllDone base_dir).
End Script.

(** ** Reference readings of the specification *)

Definition non_alnum (c : ascii) : bool := negb (Text.is_alnum c).

Definition word_char (c : ascii) : bool :=
  Text.is_alnum c || Ascii.eqb c Text.underscore.

(** [s] is empty or starts with a character of the class. *)
Definition starts_in (p : ascii → bool) (s : string) : bool :=
  match s with
  | EmptyString => true
  | String c _ => p c
  end.

(** [collapse s t]: [t] is [s] with each maximal run of characters outside
    [[A-Za-z0-9]] replaced by exactly one underscore. *)
Inductive collapse : string → string → Prop :=
  | collapse_end : collapse EmptyString EmptyString
  | collapse_keep c s t :
      Text.is_alnum c = true →
      collapse s t →
      collapse (String c s) (String c t)
  | collapse_run r s t :
      r ≠ EmptyString →
      Text.forallb_str non_alnum r = true →
      starts_in Text.is_alnum s = true →
      collapse s t →
      collapse (r +:+ s) (String Text.underscore t).

(** [occurs_id lit markup id]: the text [lit] followed by the identifier
    [id] is a substring of [markup], where [id] is one or more characters of
    [[A-Za-z0-9_-]] and is not continued by another such character. *)
Definition occurs_id (lit markup id : string) : Prop :=
  ∃ pre post,
    markup = pre +:+ lit +:+ id +:+ post
    ∧ id ≠ EmptyString
    ∧ Text.forallb_str Text.is_idchar id = true
    ∧ starts_in (λ c, negb (Text.is_idchar c)) post = true.


(** No attempt of the file-name pattern succeeds at a position inside
    [pre]; [rest] is what follows [pre]. *)
Definition first_match_at (pre rest : string) : Prop :=
  ∀ a b, pre = a +:+ b → b ≠ EmptyString →
         Re.match_filename_at (b +:+ rest) = None.

(** A file-name token: one or more characters other than the double quote
    and the semicolon, followed by one of the two or by nothing. *)
Definition name_token (tok post : string) : Prop :=
  tok ≠ EmptyString
  ∧ Text.forallb_str Re.not_quote_semi tok = true
  ∧ starts_in (λ c, negb (Re.not_quote_semi c)) post = true.

Definition quote : string := String Text.dquote EmptyString.

(** ** The two stages of a download

    Both routines first talk to the server and then write to the disk.  The
    stages are named here, next to what each of them amounts to on the
    history of requests and on the filesystem. *)

Section Stages.
Variable server : list Request → Request → exn + Response.

(** The request, the confirmation when a token came back, and the check of
    the status. *)
Definition fetch (url : string) (params : list (string * string)) : M Response :=
  r ← session_get server url params;
  let token := get_confirm_token r in
  r ← (if truthy token
       then session_get server url
              (params ++ [("confirm", default EmptyString token)])
       else mret r);
  raise_for_status r;;
  mret r.

(** The directory, then the file. *)
Definition store (outdir filename : string) (r : Response) : M unit :=
  makedirs outdir;;
  save_stream (path_join outdir filename) r.

(** The requests [fetch] issues after the history [h], and the answer to
    the last of them. *)
Definition exchange (h : list Request) (url : string)
    (params : list (string * string)) : list Request * (exn + Response) :=
  let q1 := mkRequest url params in
  match server h q1 with
  | inl e => ([q1], inl e)
  | inr r1 =>
      if truthy (get_confirm_token r1)
      then
        let q2 := mkRequest url
                    (params ++ [("confirm", default EmptyString (get_confirm_token r1))]) in
        ([q1; q2], server (h ++ [q1]) q2)
      else ([q1], inr r1)
  end.

Definition checked (x : exn + Response) : exn + Response :=
  match x with
  | inl e => inl e
  | inr r => if is_http_error r then inl (HTTPError (status_code r)) else inr r
  end.
End Stages.

(** What [store] does to the filesystem. *)
Definition fs_store (fs : gmap string node) (outdir path body : string)
    : option exn * gmap string node :=
  match fs_makedirs fs outdir with
  | (Some e, fs') => (Some e, fs')
  | (None, fs') =>
      match fs_open_wb fs' path with
      | inl e => (Some e, fs')
      | inr _ => (None, <[path := File body]> fs')
      end
  end.

Definition log_reqs (w : World) (qs : list Request) : World :=
  mkWorld (fs w) (nav w) (reqs w ++ qs) (calls w) (out w).

Definition log_call (w : World) (c : call) : World :=
  mkWorld (fs w) (nav w) (reqs w) (calls w ++ [c]) (out w).

Definition log_out (w : World) (ms : list msg) : World :=
  mkWorld (fs w) (nav w) (reqs w) (calls w) (out w ++ ms).

Definition outcome (oe : option exn) : exn + unit :=
  match oe with Some e => inl e | None => inr tt end.

(** The two endpoints and the name of an export, as the routines build
    them. *)
Definition drive_url : string := "https://drive.google.com/uc?export=download".

Definition doc_url (did : string) : string :=
  "https://docs.google.com/document/d/" +:+ did +:+ "/export".

Definition doc_name (did fmt : string) : string :=
  did +:+ "_export" +:+ (if decide (fmt = "pdf") then ".pdf" else ".docx").

(** ** Sample servers and worlds, used to run the model *)

Definition world0 : World := mkWorld {[ "/res" := Dir ]} [] [] [] [].

(** Every request is answered 404. *)
Definition srv_404 : list Request → Request → exn + Response :=
  λ _ _, inr (mkResponse 404 ∅ [] "Not Found").

(** The same server with the headers of every response replaced. *)
Definition reheader (g : Response → gmap string string)
    (server : list Request → Request → exn + Response)
    : list Request → Request → exn + Response :=
  λ h q,
    match server h q with
    | inl e => inl e
    | inr r => inr (mkResponse (status_code r) (g r) (cookies r) (content r))
    end.

(** Every request is answered 200 with the same PDF body. *)
Definition srv_pdf : list Request → Request → exn + Response :=
  λ _ _, inr (mkResponse 200 {[ "content-type" := "application/pdf" ]} [] "%PDF-1").

(** The interstitial: a request without [confirm] gets the warning cookie,
    a request with it gets the file. *)
Definition srv_confirm : list Request → Request → exn + Response :=
  λ _ q,
    match dict_get "confirm" (req_params q) with
    | Some _ =>
        inr (mkResponse 200 {[ "content-type" := "application/pdf" ]} [] "BIG")
    | None =>
        inr (mkResponse 200 ∅
               [("NID", "511"); ("download_warning_13058876669334088843", "t0k3n")]
               "<html>")
    end.

(** A warning cookie whose value is empty. *)
Definition srv_empty_token : list Request → Request → exn + Response :=
  λ _ q,
    match dict_get "confirm" (req_params q) with
    | Some _ =>
        inr (mkResponse 200 {[ "content-type" := "application/pdf" ]} [] "BIG")
    | None =>
        inr (mkResponse 200 ∅ [("download_warning_1", EmptyString)] "<html>")
    end.

(** What the two routines share: the call recorded, the endpoint, the
    parameters of the first request, the name given to the file and the
    line printed. *)
Definition routine_shape (m : M unit)
    (server : list Request → Request → exn + Response)
    (c : call) (url : string) (params : list (string * string))
    (outdir : string) (name : Response → string) (saved : string → msg) : Prop :=
  ∀ w,
    m w
    = let ex := exchange server (reqs w) url params in
      let w1 := log_reqs (log_call w c) ex.1 in
      match checked ex.2 with
      | inl e => (inl e, w1)
      | inr r =>
          let '(oe, fs') :=
            fs_store (fs w) outdir (path_join outdir (name r)) (content r) in
          match oe with
          | Some e => (inl e, with_fs w1 fs')
          | None => (inr tt, log_out (with_fs w1 fs') [saved (name r)])
          end
      end.

(** ** The download phase, as a list of attempts *)

(** The invocations the loop body of [main] makes for one entry of
    [id_map], in order. *)
Definition entry_calls (order : gset string → list string)
    (item : string * (string * gset string * gset string)) : list call :=
  let '(url, (outdir, files, docs)) := item in
  ((λ fid, CallDrive fid outdir) <$> order files)
  ++ (order docs ≫= λ did, [CallDoc did outdir "pdf"; CallDoc did outdir "docx"]).

(** [m] always returns normally, enters the routines [cs] and prints [n]
    lines. *)
Definition steps (m : M unit) (cs : list call) (n : nat) : Prop :=
  ∀ w, ∃ w', m w = (inr tt, w')
             ∧ calls w' = calls w ++ cs
             ∧ length (out w') = length (out w) + n.

(** The routine behind an invocation, and the line that reports that it
    raised. *)
Definition attempt (server : list Request → Request → exn + Response)
    (c : call) : M unit :=
  match c with
  | CallDrive fid outdir => download_drive_file server fid outdir
  | CallDoc did outdir fmt => download_doc_export server did outdir fmt
  end.

Definition failed_line (c : call) (e : exn) : msg :=
  match c with
  | CallDrive fid _ => FailedDrive fid e
  | CallDoc did _ fmt => FailedDoc did fmt e
  end.

(** The world after [try: attempt c; except Exception as e: print(...)]:
    the one the routine leaves, with the line of the failure when it
    raised. *)
Definition guarded (server : list Request → Request → exn + Response)
    (c : call) (w : World) : World :=
  match attempt server c w with
  | (inl e, w1) => log_out w1 [failed_line c e]
  | (inr _, w1) => w1
  end.

(** The guarded attempts [cs] one after the other, and the download phase
    as the heading of each entry followed by its attempts. *)
Definition run_attempts (server : list Request → Request → exn + Response)
    (cs : list call) (w : World) : World :=
  foldl (λ w c, guarded server c w) w cs.

Definition run_entries (server : list Request → Request → exn + Response)
    (order : gset string → list string)
    (id_map : list (string * (string * gset string * gset string)))
    (w : World) : World :=
  foldl (λ w item,
           run_attempts server (entry_calls order item)
             (log_out w [Downloading item.1])) w id_map.

(** The URLs whose downloads the lines announce. *)
Definition downloading_urls (ms : list msg) : list string :=
  omap (λ m, match m with Downloading url => Some url | _ => None end) ms.

(** [main] up to the end of the crawl. *)
Definition crawl_stage (browser : list string → exn + string)
    (order : gset string → list string) (urlparse_path : string → string)
    (base_dir : string) (urls : list string)
    : M (list (string * (string * gset string * gset string))) :=
  makedirs base_dir;;
  driver_get browser "https://accounts.google.com/signin";;
  crawl_phase browser order urlparse_path base_dir urls.

(** The file [F2] is missing, everything else is a PDF. *)
Definition srv_one_404 : list Request → Request → exn + Response :=
  λ _ q,
    if decide (dict_get "id" (req_params q) = Some "F2")
    then inr (mkResponse 404 ∅ [] "Not Found")
    else inr (mkResponse 200 {[ "content-type" := "application/pdf" ]} [] "%PDF-1").

Definition id_map0 : list (string * (string * gset string * gset string)) :=
  [("https://sites.google.com/view/a", ("/res/view_a", {["F1"; "F2"]}, {["D1"]}))].

(** ** The crawl *)

(** What the browser shows for each folder in turn, after the history
    [h]. *)
Fixpoint folder_sources (browser : list string → exn + string)
    (h : list string) (folders : list string) : list (exn + string) :=
  match folders with
  | [] => []
  | f :: folders' =>
      browser (h ++ [f]) :: folder_sources browser (h ++ [f]) folders'
  end.

(** [crawl_blocks h urls bs]: from the history of navigations [h], the
    crawl of [urls] makes one block of navigations per URL of the list, in
    order, and gets one result per URL.  The block of a URL is the URL
    followed by the folders of its page, each once, in the order in which
    the set of folders is gone through; nothing else is visited.  The result
    is the output directory of the URL with the ids of the page shown then
    and of the folder pages shown then. *)
Fixpoint crawl_blocks (browser : list string → exn + string)
    (order : gset string → list string) (urlparse_path : string → string)
    (base_dir : string) (h : list string) (urls : list string)
    (bs : list (list string * (string * gset string * gset string))) : Prop :=
  match urls, bs with
  | [], [] => True
  | url :: urls', (v, entry) :: bs' =>
      (∃ src subs,
         browser (h ++ [url]) = inr src
         ∧ folder_sources browser (h ++ [url]) (order (folder_urls src))
           = inr <$> subs
         ∧ v = url :: order (folder_urls src)
         ∧ entry = (path_join base_dir (slugify urlparse_path url),
                    file_ids src ∪ ⋃ (file_ids <$> subs),
                    doc_ids src ∪ ⋃ (doc_ids <$> subs)))
      ∧ crawl_blocks browser order urlparse_path base_dir (h ++ v) urls' bs'
  | _, _ => False
  end.

(** A site page with one file, one document and two folder links, one of
    them twice; the first folder holds a file and a link to a folder of its
    own. *)
Definition page_a : string :=
  "<a href=https://drive.google.com/file/d/F1/view>"
  +:+ "<a href=https://docs.google.com/document/d/D1/edit>"
  +:+ "<a href=https://drive.google.com/drive/folders/FA>"
  +:+ "<a href=https://drive.google.com/drive/folders/FA>".

Definition page_fa : string :=
  "<a href=https://drive.google.com/file/d/F2/view>"
  +:+ "<a href=https://drive.google.com/drive/folders/DEEP>".

Definition browser0 : list string → exn + string :=
  λ h,
    match last h with
    | Some url =>
        if decide (url = "https://sites.google.com/view/a") then inr page_a
        else if decide (url = "https://drive.google.com/drive/folders/FA")
        then inr page_fa
        else if decide (url = "https://drive.google.com/drive/folders/DEEP")
        then inr "<a href=https://drive.google.com/file/d/F3/view>"
        else inr EmptyString
    | None => inr EmptyString
    end.


(** A toy [urlparse(url).path]: what follows the host of an https URL. *)
Fixpoint from_slash (s : string) : string :=
  match s with
  | EmptyString => EmptyString
  | String c s' => if Ascii.eqb c Text.slash then s else from_slash s'
  end.

Definition path_of (url : string) : string :=
  match Text.strip_prefix "https://" url with
  | Some r => from_slash r
  | None => url
  end.

(** ** Running the downloads twice *)

(** A line that reports a failure of the operating system. *)
Definition is_os_failure (m : msg) : bool :=
  match m with
  | FailedDrive _ (OSError _ _) | FailedDoc _ _ (OSError _ _) => true
  | _ => false
  end.

(** A write to be replayed: the output directory, the path and the body; or
    nothing, for an attempt that ends before the disk is touched. *)
Definition write_plan : Type := option (string * string * string).

(** The endpoint, the parameters, the output directory and the file name of
    an invocation. *)
Definition call_request (c : call)
    : string * list (string * string) * string * (Response → string) :=
  match c with
  | CallDrive fid outdir =>
      (drive_url, [("id", fid)], outdir, λ r, extract_filename r fid)
  | CallDoc did outdir fmt =>
      (doc_url did, [("format", fmt)], outdir, λ _, doc_name did fmt)
  end.

(** What an invocation is going to write, for a server whose answers do not
    depend on the history. *)
Definition call_plan (server : list Request → Request → exn + Response)
    (c : call) : write_plan :=
  let '(url, params, outdir, name) := call_request c in
  match checked (exchange server [] url params).2 with
  | inl _ => None
  | inr r => Some (outdir, path_join outdir (name r), content r)
  end.

(** The filesystem after the writes, whether they succeed or not. *)
Fixpoint run_plans (ps : list write_plan) (fs : gmap string node)
    : gmap string node :=
  match ps with
  | [] => fs
  | None :: ps' => run_plans ps' fs
  | Some (outdir, path, body) :: ps' =>
      run_plans ps' (fs_store fs outdir path body).2
  end.

(** The filesystem after the writes when all of them succeed. *)
Fixpoint replay (ps : list write_plan) (fs : gmap string node)
    : option (gmap string node) :=
  match ps with
  | [] => Some fs
  | None :: ps' => replay ps' fs
  | Some (outdir, path, body) :: ps' =>
      match fs_store fs outdir path body with
      | (None, fs') => replay ps' fs'
      | (Some _, _) => None
      end
  end.

Definition plan_paths (ps : list write_plan) : list string :=
  omap (λ p : write_plan, (λ x, x.1.2) <$> p) ps.

(** [t] and [s] hold the same entries, except that the regular files at the
    paths [P] may differ in their bytes. *)
Definition agree_except (P : list string) (t s : gmap string node) : Prop :=
  ∀ k, t !! k = s !! k
       ∨ (k ∈ P ∧ ∃ c c', t !! k = Some (File c) ∧ s !! k = Some (File c')).

(** A server whose answers only depend on the request. *)
Definition stateless (server : list Request → Request → exn + Response) : Prop :=
  ∀ h h' q, server h q = server h' q.

(** A browser that shows for a URL the same page whatever it was sent to
    before. *)
Definition same_pages (browser : list string → exn + string) : Prop :=
  ∀ h h' url, browser (h ++ [url]) = browser (h' ++ [url]).

(** Two worlds in which the browser is on the same page. *)
Definition alike (browser : list string → exn + string) (w w' : World) : Prop :=
  browser (nav w) = browser (nav w').

(** [m] gives the same result, and leaves the browser on the same page, in
    two worlds that are alike; and in any two worlds. *)
Definition respects {A} (browser : list string → exn + string) (m : M A) : Prop :=
  ∀ w w', alike browser w w' →
          (m w).1 = (m w').1 ∧ alike browser (m w).2 (m w').2.

Definition uniform {A} (browser : list string → exn + string) (m : M A) : Prop :=
  ∀ w w', (m w).1 = (m w').1 ∧ alike browser (m w).2 (m w').2.

(** [m] always returns normally; it leaves the filesystem that the writes
    of the invocations [cs] give, and unless one of the lines it prints
    reports a failure of the operating system all these writes succeed. *)
Definition acts (server : list Request → Request → exn + Response)
    (m : M unit) (cs : list call) : Prop :=
  ∀ w, ∃ w' msgs,
    m w = (inr tt, w')
    ∧ out w' = out w ++ msgs
    ∧ fs w' = run_plans (call_plan server <$> cs) (fs w)
    ∧ (Forall (λ m, is_os_failure m = false) msgs →
       replay (call_plan server <$> cs) (fs w) = Some (fs w')).

(** Two files that the server names alike. *)
Definition srv_same_name : list Request → Request → exn + Response :=
  λ _ q,
    inr (mkResponse 200
           {[ "content-disposition" :=
                "attachment; filename=" +:+ quote +:+ "same.pdf" +:+ quote ]}
           []
           (default "?" (dict_get "id" (req_params q)))).

Definition id_map_two : list (string * (string * gset string * gset string)) :=
  [("https://sites.google.com/view/a", ("/res/a", {["F1"; "F2"]}, ∅))].

(** A file that the server names with a path into another output
    directory. *)
Definition srv_path_name : list Request → Request → exn + Response :=
  λ _ q,
    if decide (dict_get "id" (req_params q) = Some "F1")
    then inr (mkResponse 200
                {[ "content-disposition" :=
                     "attachment; filename=" +:+ quote +:+ "/res/b/x" +:+ quote ]}
                [] "ONE")
    else inr (mkResponse 200 {[ "content-type" := "application/pdf" ]} [] "TWO").

Definition id_map_ab : list (string * (string * gset string * gset string)) :=
  [("https://sites.google.com/view/a", ("/res/a", {["F1"]}, ∅));
   ("https://sites.google.com/view/b", ("/res/b", {["F2"]}, ∅))].

(** The interstitial, then an error for the confirmed request. *)
Definition srv_confirm_404 : list Request → Request → exn + Response :=
  λ _ q,
    match dict_get "confirm" (req_params q) with
    | Some _ => inr (mkResponse 404 ∅ [] "Not Found")
    | None =>
        inr (mkResponse 200 ∅ [("download_warning_1", "t0k3n")] "<html>")
    end.

(** ** Further notions, for the properties beyond the specification *)

(** [m] leaves the part [f] of the world as it finds it, whether it returns
    or raises. *)
Definition keeps {A B} (f : World → B) (m : M A) : Prop :=
  ∀ w, f (m w).2 = f w.

(** The distinct elements of a list, each at the place of its first
    occurrence. *)
Definition first_occurrences (l : list string) : list string :=
  reverse (remove_dups (reverse l)).

(** A cookie as [driver.get_cookies()] reports it; the fields the script
    does not read are summed up in [cookie_domain]. *)
Record cookie := mkCookie {
  cookie_name : string;
  cookie_value : string;
  cookie_domain : string
}.

(** [{c['name']: c['value'] for c in driver.get_cookies()}]. *)
Definition cookie_dict (cs : list cookie) : list (string * string) :=
  foldl (λ d c, dict_set (cookie_name c) (cookie_value c) d) [] cs.

(** [for k,v in cookies.items(): sess.cookies.set(k, v)], on the empty jar
    of a new session; the jar is read as the mapping from names to values. *)
Definition session_cookies (d : list (string * string)) : list (string * string) :=
  foldl (λ jar kv, dict_set kv.1 kv.2 jar) [] d.

Definition session_bridge (cs : list cookie) : list (string * string) :=
  session_cookies (cookie_dict cs).

(** The value of the last cookie of the list that has the name. *)
Fixpoint last_value (n : string) (cs : list cookie) : option string :=
  match cs with
  | [] => None
  | c :: cs' =>
      match last_value n cs' with
      | Some v => Some v
      | None => if decide (cookie_name c = n) then Some (cookie_value c) else None
      end
  end.

(** Every file is served under the absolute name [/res/x]. *)
Definition srv_abs_name : list Request → Request → exn + Response :=
  λ _ _,
    inr (mkResponse 200
           {[ "content-disposition" :=
                "attachment; filename=" +:+ quote +:+ "/res/x" +:+ quote ]}
           [] "ONE").

(** Every request is answered with the warning cookie, confirmed or not. *)
Definition srv_always_warning : list Request → Request → exn + Response :=
  λ _ _, inr (mkResponse 200 ∅ [("download_warning_1", "t0k3n")] "<html>").



(** A browser that cannot load the folder [FA]. *)
Definition browser_folder_down : list string → exn + string :=
  λ h,
    match last h with
    | Some url =>
        if decide (url = "https://drive.google.com/drive/folders/FA")
        then inl WebDriverException
        else browser0 h
    | None => inr EmptyString
    end.

(** A name that is one component of a path: not empty, without a slash,
    and neither [.] nor [..]. *)
Definition plain_name (n : string) : bool :=
  negb (Text.is_empty n) && negb (Text.contains "/" n)
  && negb (String.eqb n ".") && negb (String.eqb n "..").

(** The components of a path, split at the slashes. *)
Fixpoint components (p : string) : list string :=
  match p with
  | EmptyString => [EmptyString]
  | String c p' =>
      if Ascii.eqb c Text.slash then EmptyString :: components p'
      else match components p' with
           | x :: xs => String c x :: xs
           | [] => [String c EmptyString]
           end
  end.

(** An absolute path in normal form: a slash before each component, and
    every component a plain name.  Two such paths name the same entry of a
    filesystem without symbolic links only when they are the same string,
    which is how the model looks entries up. *)
Definition canonical (p : string) : bool :=
  match components p with
  | EmptyString :: c :: cs => forallb plain_name (c :: cs)
  | _ => false
  end.

(** * Properties *)

(** ** Strings *)

Section StringFacts.
Import Text.

Lemma app_nil_l (s : string) : EmptyString +:+ s = s.
Proof. done. Qed.

Lemma app_cons (c : ascii) (s t : string) :
  String c s +:+ t = String c (s +:+ t).
Proof. done. Qed.

Lemma app_empty_r (s : string) : s +:+ EmptyString = s.
Proof. induction s as [|c s IH]; [done|]. by rewrite app_cons, IH. Qed.

Lemma app_assoc_str (s t u : string) : (s +:+ t) +:+ u = s +:+ t +:+ u.
Proof. induction s as [|c s IH]; [done|]. by rewrite !app_cons, IH. Qed.

Lemma length_app_str (s t : string) :
  String.length (s +:+ t) = String.length s + String.length t.
Proof. induction s as [|c s IH]; [done|]. rewrite app_cons. cbn. by rewrite IH. Qed.

Lemma is_empty_true (s : string) : is_empty s = true ↔ s = EmptyString.
Proof. by destruct s. Qed.

Lemma is_empty_false (s : string) : is_empty s = false ↔ s ≠ EmptyString.
Proof. by destruct s. Qed.

Lemma strip_prefix_Some (p s r : string) :
  strip_prefix p s = Some r ↔ s = p +:+ r.
Proof.
  revert s. induction p as [|a p IH]; intros s; cbn.
  - rewrite app_nil_l. split; congruence.
  - rewrite app_cons. destruct s as [|b s]; [split; discriminate|].
    destruct (Ascii.eqb_spec a b) as [->|Hne].
    + rewrite IH. split; congruence.
    + split; [discriminate|]. intros [=]. congruence.
Qed.

Lemma strip_prefix_app (p r : string) : strip_prefix p (p +:+ r) = Some r.
Proof. by apply strip_prefix_Some. Qed.



Lemma span_app (p : ascii → bool) (s : string) :
  s = (span p s).1 +:+ (span p s).2.
Proof.
  induction s as [|c s IH]; [done|]. cbn.
  destruct (p c); [|done]. destruct (span p s) as [a b]. cbn in *.
  by rewrite app_cons, <- IH.
Qed.

Lemma span_forallb (p : ascii → bool) (s : string) :
  forallb_str p (span p s).1 = true.
Proof.
  induction s as [|c s IH]; [done|]. cbn.
  destruct (p c) eqn:E; [|done]. destruct (span p s) as [a b]. cbn in *.
  by rewrite E.
Qed.

Lemma span_rest (p : ascii → bool) (s : string) :
  starts_in (λ c, negb (p c)) (span p s).2 = true.
Proof.
  induction s as [|c s IH]; [done|]. cbn.
  destruct (p c) eqn:E; [|by cbn; rewrite E].
  by destruct (span p s) as [a b].
Qed.

Lemma span_length (p : ascii → bool) (s : string) :
  String.length (span p s).2 ≤ String.length s.
Proof.
  induction s as [|c s IH]; [done|]. cbn.
  destruct (p c); [|done]. destruct (span p s) as [a b]. cbn in *. lia.
Qed.

(** A run followed by a character outside the class, or by nothing, is
    what [span] takes. *)
Lemma span_run (p : ascii → bool) (r s : string) :
  forallb_str p r = true →
  starts_in (λ c, negb (p c)) s = true →
  span p (r +:+ s) = (r, s).
Proof.
  intros Hr Hs. induction r as [|c r IH]; cbn in *.
  - rewrite app_nil_l. destruct s as [|c s]; [done|]. cbn in *.
    by destruct (p c).
  - rewrite app_cons. cbn. apply andb_true_iff in Hr as [-> Hr]. by rewrite IH.
Qed.

Lemma forallb_str_app (p : ascii → bool) (s t : string) :
  forallb_str p (s +:+ t) = forallb_str p s && forallb_str p t.
Proof.
  induction s as [|c s IH]; [done|]. rewrite app_cons. cbn.
  by rewrite IH, andb_assoc.
Qed.

Lemma forallb_str_impl (p q : ascii → bool) (s : string) :
  (∀ c, p c = true → q c = true) →
  forallb_str p s = true → forallb_str q s = true.
Proof.
  intros Hpq. induction s as [|c s IH]; [done|]. cbn.
  rewrite !andb_true_iff. intros [Hc Hs]. split; auto.
Qed.
End StringFacts.

(** ** [slugify] *)

Section SlugifyFacts.
Import Text Re.

Lemma lstrip_split (c : ascii) (s : string) :
  ∃ l, s = l +:+ lstrip c s
       ∧ forallb_str (Ascii.eqb c) l = true
       ∧ starts_in (λ a, negb (Ascii.eqb c a)) (lstrip c s) = true.
Proof.
  induction s as [|a s (l & Hs & Hl & Hn)].
  - by exists EmptyString.
  - cbn. destruct (Ascii.eqb_spec a c) as [->|Hne].
    + exists (String c l). rewrite app_cons, <- Hs. cbn.
      by rewrite Ascii.eqb_refl.
    + exists EmptyString. split_and!; [done..|]. cbn.
      apply negb_true_iff. apply Ascii.eqb_neq. congruence.
Qed.

Lemma rstrip_split (c : ascii) (s : string) :
  ∃ r, s = rstrip c s +:+ r
       ∧ forallb_str (Ascii.eqb c) r = true
       ∧ last_char (rstrip c s) ≠ Some c.
Proof.
  induction s as [|a s (r & Hs & Hr & Hn)].
  - by exists EmptyString.
  - cbn [rstrip]. destruct (Ascii.eqb_spec a c) as [->|Hne]; cbn [andb].
    + destruct (rstrip c s) as [|b t] eqn:E; cbn [is_empty].
      * exists (String c r). rewrite app_nil_l in *. subst s.
        split_and!; [done| |done]. cbn. by rewrite Ascii.eqb_refl.
      * exists r. rewrite app_cons, <- Hs. split_and!; [done..|].
        cbn [last_char]. done.
    + exists r. rewrite app_cons, <- Hs. split_and!; [done..|].
      destruct (rstrip c s) as [|b t] eqn:E; [|done].
      cbn. congruence.
Qed.

Lemma rstrip_starts (c : ascii) (p : ascii → bool) (s : string) :
  p c = false → starts_in p s = true → starts_in p (rstrip c s) = true.
Proof.
  intros Hc. destruct s as [|a s]; [done|]. cbn.
  destruct (Ascii.eqb_spec a c) as [->|Hne]; [congruence|done].
Qed.

(** After a run has begun, the scan continues as a fresh scan of what
    follows the run. *)
Lemma sub_nonalnum_go_run (s : string) :
  sub_nonalnum_go true s = sub_nonalnum_go false (span non_alnum s).2.
Proof.
  induction s as [|c s IH]; [done|]. cbn. unfold non_alnum at 1.
  destruct (is_alnum c) eqn:E; cbn; [by rewrite E|].
  rewrite IH. by destruct (span non_alnum s).
Qed.

Lemma sub_nonalnum_collapse_aux (n : nat) (s : string) :
  String.length s ≤ n → collapse s (sub_nonalnum_go false s).
Proof.
  revert s. induction n as [|n IH]; intros [|c s] Hn; cbn in Hn;
    try lia; try constructor.
  cbn [sub_nonalnum_go]. destruct (is_alnum c) eqn:E.
  - constructor; [done|]. apply IH. lia.
  - rewrite sub_nonalnum_go_run.
    pose proof (span_app non_alnum s) as Hs.
    pose proof (span_forallb non_alnum s) as Hr.
    pose proof (span_rest non_alnum s) as Hrest.
    pose proof (span_length non_alnum s) as Hlen.
    destruct (span non_alnum s) as [r rest]. cbn [fst snd] in *.
    rewrite Hs at 1. rewrite <- app_cons.
    constructor.
    + done.
    + cbn. unfold non_alnum at 1. by rewrite E.
    + destruct rest as [|a rest]; [done|]. cbn in *.
      unfold non_alnum in Hrest. by rewrite negb_involutive in Hrest.
    + apply IH. lia.
Qed.

Lemma sub_nonalnum_collapse (s : string) : collapse s (sub_nonalnum s).
Proof. by apply (sub_nonalnum_collapse_aux (String.length s)). Qed.

Lemma sub_nonalnum_go_word (b : bool) (s : string) :
  forallb_str word_char (sub_nonalnum_go b s) = true.
Proof.
  revert b. induction s as [|c s IH]; intros b; [done|]. cbn.
  destruct (is_alnum c) eqn:E.
  - cbn. unfold word_char at 1. by rewrite E, IH.
  - destruct b; [done|]. cbn. by rewrite IH.
Qed.

Lemma sub_nonalnum_nonempty (s : string) :
  s ≠ EmptyString → sub_nonalnum s ≠ EmptyString.
Proof.
  destruct s as [|c s]; [done|]. intros _. unfold sub_nonalnum. cbn.
  by destruct (is_alnum c).
Qed.
End SlugifyFacts.

(** C5, as amended.  [slugify] first removes the slashes at both ends of
    the path; in what is left, each maximal run of characters outside
    [[A-Za-z0-9]] becomes exactly one underscore.  The name only holds
    letters, digits and underscores, and it is [root] when nothing is left,
    in particular for the empty path. *)
Theorem slugify_strip_then_collapse (urlparse_path : string → string) (url : string) :
  ∃ l p r,
    urlparse_path url = l +:+ p +:+ r
    ∧ Text.forallb_str (Ascii.eqb Text.slash) l = true
    ∧ Text.forallb_str (Ascii.eqb Text.slash) r = true
    ∧ starts_in (λ a, negb (Ascii.eqb Text.slash a)) p = true
    ∧ Text.last_char p ≠ Some Text.slash
    ∧ Text.forallb_str word_char (slugify urlparse_path url) = true
    ∧ (p = EmptyString → slugify urlparse_path url = "root")
    ∧ (p ≠ EmptyString → collapse p (slugify urlparse_path url))
    ∧ (urlparse_path url = EmptyString → slugify urlparse_path url = "root").
Proof.
  unfold slugify, Text.strip. set (path := urlparse_path url).
  destruct (lstrip_split Text.slash path) as (l & Hl & Hls & Hstart).
  destruct (rstrip_split Text.slash (Text.lstrip Text.slash path))
    as (r & Hr & Hrs & Hlast).
  set (p := Text.rstrip Text.slash (Text.lstrip Text.slash path)) in *.
  exists l, p, r. split_and!.
  - by rewrite <- Hr.
  - done.
  - done.
  - apply rstrip_starts; [|done]. cbn. done.
  - done.
  - destruct (Text.is_empty (Re.sub_nonalnum p)); [done|].
    apply sub_nonalnum_go_word.
  - intros ->. done.
  - intros Hp. pose proof (sub_nonalnum_nonempty p Hp) as Hne.
    apply is_empty_false in Hne. rewrite Hne. apply sub_nonalnum_collapse.
  - intros Hpath. subst p. by rewrite Hpath.
Qed.

(** The theorem at the path [/a/b c!/d], whose slug is [a_b_c_d]. *)
Lemma slugify_strip_then_collapse_witness :
  ∃ l p r,
    path_of "https://sites.google.com/a/b c!/d" = l +:+ p +:+ r
    ∧ Text.forallb_str (Ascii.eqb Text.slash) l = true
    ∧ Text.forallb_str (Ascii.eqb Text.slash) r = true
    ∧ starts_in (λ a, negb (Ascii.eqb Text.slash a)) p = true
    ∧ Text.last_char p ≠ Some Text.slash
    ∧ Text.forallb_str word_char "a_b_c_d" = true
    ∧ (p = EmptyString → "a_b_c_d" = "root")
    ∧ (p ≠ EmptyString → collapse p "a_b_c_d")
    ∧ (path_of "https://sites.google.com/a/b c!/d" = EmptyString →
       "a_b_c_d" = "root").
Proof.
  exact (slugify_strip_then_collapse path_of "https://sites.google.com/a/b c!/d").
Defined.

(** C5, as stated, fails on the path [/a]: the run made of the leading
    slash is dropped, not replaced by an underscore. *)
Lemma slugify_leading_slash_dropped :
  slugify (λ _, "/a") "https://sites.google.com/a" = "a"
  ∧ ¬ collapse "/a" (slugify (λ _, "/a") "https://sites.google.com/a").
Proof.
  split; [reflexivity|]. change (slugify _ _) with "a".
  intros H. inversion H; discriminate.
Qed.

(** ** The identifier extractor *)

Section FindallFacts.
Import Text Re.

Lemma match_id_at_Some (lit s id : string) :
  match_id_at lit s = Some id →
  ∃ post, s = lit +:+ id +:+ post
          ∧ id ≠ EmptyString
          ∧ forallb_str is_idchar id = true
          ∧ starts_in (λ c, negb (is_idchar c)) post = true.
Proof.
  unfold match_id_at. destruct (strip_prefix lit s) as [rest|] eqn:E; [|done].
  apply strip_prefix_Some in E as ->.
  pose proof (span_app is_idchar rest) as Hs.
  pose proof (span_forallb is_idchar rest) as Hr.
  pose proof (span_rest is_idchar rest) as Hrest.
  destruct (span is_idchar rest) as [r post]. cbn [fst snd] in *.
  destruct (is_empty r) eqn:Hemp; [done|]. intros [= <-].
  exists post. split_and!; [by rewrite <- Hs| by apply is_empty_false |done..].
Qed.


Lemma findall_go_sound (lit : string) (s : string) (skip : nat) (id : string) :
  id ∈ findall_go lit skip s → occurs_id lit s id.
Proof.
  revert skip. induction s as [|c s IH]; intros skip; cbn [findall_go].
  - by intros ?%elem_of_nil.
  - assert (∀ k, id ∈ findall_go lit k s → occurs_id lit (String c s) id)
      as Hrec.
    { intros k (pre & post & -> & ?)%IH. by exists (String c pre), post. }
    destruct skip as [|k]; [|by apply Hrec].
    destruct (match_id_at lit (String c s)) as [id0|] eqn:E; [|by apply Hrec].
    intros [->|Hin]%elem_of_cons; [|by eapply Hrec].
    apply match_id_at_Some in E as (post & -> & ?).
    by exists EmptyString, post.
Qed.



Lemma findall_go_fail (lit : string) (c : ascii) (s : string) :
  match_id_at lit (String c s) = None →
  findall_go lit 0 (String c s) = findall_go lit 0 s.
Proof. intros H. cbn. by rewrite H. Qed.



End FindallFacts.






(** ** File names *)

Section FilenameFacts.
Import Text Re.

Lemma group_name_token (tok post : string) :
  name_token tok post → group_name (tok +:+ post) = Some tok.
Proof.
  intros (Hne & Htok & Hpost). unfold group_name.
  rewrite span_run by done. cbn. by apply is_empty_false in Hne as ->.
Qed.

Lemma token_not_quoted (tok post : string) :
  name_token tok post → strip_prefix quote (tok +:+ post) = None.
Proof.
  intros (Hne & Htok & _). destruct tok as [|c tok]; [done|].
  rewrite app_cons. cbn [forallb_str] in Htok.
  apply andb_true_iff in Htok as [Hc _].
  unfold not_quote_semi in Hc. apply andb_true_iff in Hc as [Hc _].
  apply negb_true_iff in Hc. rewrite Ascii.eqb_sym in Hc.
  unfold quote. cbn [strip_prefix]. by rewrite Hc.
Qed.

Lemma lit_then_app (lit : string) (k : string → option string) (r : string) :
  lit_then lit k (lit +:+ r) = k r.
Proof. unfold lit_then. by rewrite strip_prefix_app. Qed.

Lemma opt_then_taken (lit : string) (k : string → option string)
    (r g : string) :
  k r = Some g → opt_then lit k (lit +:+ r) = Some g.
Proof. intros H. unfold opt_then. by rewrite strip_prefix_app, H. Qed.

Lemma opt_then_absent (lit : string) (k : string → option string) (s : string) :
  strip_prefix lit s = None → opt_then lit k s = k s.
Proof. intros H. unfold opt_then. by rewrite H. Qed.

Lemma strip_prefix_app_inv (p s t r : string) :
  strip_prefix p (s +:+ t) = Some r →
  (∃ r', strip_prefix p s = Some r')
  ∨ (∃ p2, p = s +:+ p2 ∧ strip_prefix p2 t = Some r).
Proof.
  revert s. induction p as [|a p IH]; intros s H.
  - left. by exists s.
  - destruct s as [|b s].
    + right. by exists (String a p).
    + rewrite app_cons in H. cbn in *.
      destruct (Ascii.eqb_spec a b) as [->|]; [|done].
      destruct (IH s H) as [?|(p2 & -> & ?)]; [by left|right].
      by exists p2.
Qed.

Lemma token_not_utf8 (tok post : string) :
  name_token tok post →
  startswith tok "UTF-8''" = false →
  strip_prefix "UTF-8''" (tok +:+ post) = None.
Proof.
  intros (Hne & Htok & Hpost) Hutf.
  destruct (strip_prefix "UTF-8''" (tok +:+ post)) as [r|] eqn:E; [|done].
  exfalso. apply strip_prefix_app_inv in E as [[r' E]|(p2 & Hp & E)].
  - unfold startswith in Hutf. by rewrite E in Hutf.
  - assert (forallb_str not_quote_semi (tok +:+ p2) = true) as Hall
      by (by rewrite <- Hp).
    rewrite forallb_str_app in Hall. apply andb_true_iff in Hall as [_ Hp2].
    destruct p2 as [|c p2].
    { rewrite app_empty_r in Hp. subst tok. done. }
    destruct post as [|d post]; [done|]. cbn in E, Hp2, Hpost.
    destruct (Ascii.eqb_spec c d) as [->|]; [|done].
    apply andb_true_iff in Hp2 as [Hd _]. by rewrite Hd in Hpost.
Qed.

Lemma match_filename_quoted (tok post : string) :
  name_token tok post →
  match_filename_at ("filename=" +:+ quote +:+ tok +:+ post) = Some tok.
Proof.
  intros Htok. unfold match_filename_at.
  change ("filename=" +:+ quote +:+ tok +:+ post)
    with ("filename" +:+ "=" +:+ quote +:+ tok +:+ post).
  rewrite lit_then_app, (opt_then_absent "*") by reflexivity.
  rewrite lit_then_app, (opt_then_absent "UTF-8''") by reflexivity.
  apply (opt_then_taken quote). by apply group_name_token.
Qed.

Lemma match_filename_plain (tok post : string) :
  name_token tok post →
  startswith tok "UTF-8''" = false →
  match_filename_at ("filename=" +:+ tok +:+ post) = Some tok.
Proof.
  intros Htok Hutf. unfold match_filename_at.
  change ("filename=" +:+ tok +:+ post)
    with ("filename" +:+ "=" +:+ tok +:+ post).
  rewrite lit_then_app, (opt_then_absent "*") by reflexivity.
  rewrite lit_then_app, (opt_then_absent "UTF-8''") by by apply token_not_utf8.
  rewrite (opt_then_absent quote) by by apply token_not_quoted.
  by apply group_name_token.
Qed.

Lemma match_filename_extended (tok post : string) :
  name_token tok post →
  match_filename_at ("filename*=UTF-8''" +:+ tok +:+ post) = Some tok.
Proof.
  intros Htok. unfold match_filename_at.
  change ("filename*=UTF-8''" +:+ tok +:+ post)
    with ("filename" +:+ "*" +:+ "=" +:+ "UTF-8''" +:+ tok +:+ post).
  rewrite lit_then_app. apply opt_then_taken.
  rewrite lit_then_app. apply opt_then_taken.
  rewrite (opt_then_absent quote) by by apply token_not_quoted.
  by apply group_name_token.
Qed.

Lemma search_filename_first (pre rest g : string) :
  first_match_at pre rest →
  match_filename_at rest = Some g →
  search_filename (pre +:+ rest) = Some g.
Proof.
  intros Hfirst Hm. induction pre as [|c pre IH].
  - rewrite app_nil_l. destruct rest; cbn [search_filename]; by rewrite Hm.
  - rewrite app_cons. cbn [search_filename]. rewrite <- app_cons.
    rewrite (Hfirst EmptyString (String c pre)) by done.
    apply IH. intros a b -> Hb. apply (Hfirst (String c a) b); [|done].
    by rewrite app_cons.
Qed.

Lemma search_filename_absent (s : string) :
  contains "filename" s = false → search_filename s = None.
Proof.
  induction s as [|c s IH]; cbn [contains search_filename].
  - intros _. reflexivity.
  - intros [H1 H2]%orb_false_iff.
    assert (match_filename_at (String c s) = None) as ->.
    { unfold match_filename_at, lit_then. unfold startswith in H1.
      by destruct (strip_prefix "filename" (String c s)). }
    by apply IH.
Qed.

Lemma lit_then_Some (lit : string) (k : string → option string) (s g : string) :
  lit_then lit k s = Some g → ∃ r, s = lit +:+ r ∧ k r = Some g.
Proof.
  unfold lit_then. destruct (strip_prefix lit s) as [r|] eqn:E; [|done].
  apply strip_prefix_Some in E. eauto.
Qed.

Lemma opt_then_Some (lit : string) (k : string → option string) (s g : string) :
  opt_then lit k s = Some g →
  (∃ r, s = lit +:+ r ∧ k r = Some g) ∨ k s = Some g.
Proof.
  unfold opt_then. destruct (strip_prefix lit s) as [r|] eqn:E; [|by right].
  apply strip_prefix_Some in E. destruct (k r) as [g'|] eqn:Ek.
  - intros [= ->]. left. eauto.
  - by right.
Qed.

Lemma group_name_Some (s g : string) :
  group_name s = Some g → ∃ post, s = g +:+ post ∧ name_token g post.
Proof.
  unfold group_name, name_token.
  pose proof (span_app not_quote_semi s) as Hs.
  pose proof (span_forallb not_quote_semi s) as Hr.
  pose proof (span_rest not_quote_semi s) as Hrest.
  destruct (span not_quote_semi s) as [r post]. cbn [fst snd] in *.
  destruct (is_empty r) eqn:Hemp; [done|]. intros [= <-].
  exists post. split_and!; [done|by apply is_empty_false|done..].
Qed.

(** Whatever the pattern captures is a token that follows [filename], an
    optional star, the equals sign, an optional [UTF-8''] and an optional
    quote. *)
Lemma match_filename_at_Some (rest tok : string) :
  match_filename_at rest = Some tok →
  ∃ star utf q post,
    rest = "filename" +:+ star +:+ "=" +:+ utf +:+ q +:+ tok +:+ post
    ∧ (star = EmptyString ∨ star = "*")
    ∧ (utf = EmptyString ∨ utf = "UTF-8''")
    ∧ (q = EmptyString ∨ q = quote)
    ∧ name_token tok post.
Proof.
  unfold match_filename_at. intros (r0 & -> & H)%lit_then_Some.
  assert (∀ s, opt_then "UTF-8''" (opt_then quote group_name) s = Some tok →
               ∃ utf q post, s = utf +:+ q +:+ tok +:+ post
                 ∧ (utf = EmptyString ∨ utf = "UTF-8''")
                 ∧ (q = EmptyString ∨ q = quote)
                 ∧ name_token tok post) as Htail.
  { assert (∀ s, opt_then quote group_name s = Some tok →
                 ∃ q post, s = q +:+ tok +:+ post
                   ∧ (q = EmptyString ∨ q = quote) ∧ name_token tok post)
      as Hq.
    { intros s [(r & -> & Hg)|Hg]%opt_then_Some;
        apply group_name_Some in Hg as (post & -> & Htok).
      - exists quote, post. eauto.
      - exists EmptyString, post. eauto. }
    intros s [(r & -> & Hk)|Hk]%opt_then_Some;
      apply Hq in Hk as (q & post & -> & Hqq & Htok).
    - exists "UTF-8''", q, post. eauto.
    - exists EmptyString, q, post. eauto. }
  apply opt_then_Some in H as [(r1 & -> & H)|H];
    apply lit_then_Some in H as (r2 & -> & H);
    apply Htail in H as (utf & q & post & -> & Hu & Hq & Htok).
  - exists "*", utf, q, post. eauto 10.
  - exists EmptyString, utf, q, post. eauto 10.
Qed.

Lemma search_filename_Some (s tok : string) :
  search_filename s = Some tok →
  ∃ pre rest, s = pre +:+ rest ∧ first_match_at pre rest
              ∧ match_filename_at rest = Some tok.
Proof.
  induction s as [|c s IH]; cbn [search_filename].
  - destruct (match_filename_at EmptyString) eqn:E; [|done].
    intros [= ->]. exists EmptyString, EmptyString. split_and!; [done| |done].
    intros a b Hab Hb. by destruct a, b.
  - destruct (match_filename_at (String c s)) as [g|] eqn:E.
    + intros [= ->]. exists EmptyString, (String c s). split_and!; [done| |done].
      intros a b Hab Hb. by destruct a, b.
    + intros (pre & rest & -> & Hfirst & Hm)%IH.
      exists (String c pre), rest. split_and!; [done| |done].
      intros a b Hab Hb. destruct a as [|a0 a].
      * rewrite app_nil_l in Hab. subst b. by rewrite app_cons.
      * rewrite app_cons in Hab. injection Hab as _ Hab. by eapply Hfirst.
Qed.

(** A parameter is the first one when no [f] comes before it. *)
Lemma first_match_no_f (pre rest : string) :
  forallb_str (λ c, negb (Ascii.eqb c "f"%char)) pre = true →
  first_match_at pre rest.
Proof.
  intros Hpre a b -> Hb. rewrite forallb_str_app in Hpre.
  apply andb_true_iff in Hpre as [_ Hb'].
  destruct b as [|c b]; [done|]. rewrite app_cons. cbn in Hb'.
  apply andb_true_iff in Hb' as [Hc _]. apply negb_true_iff in Hc.
  unfold match_filename_at, lit_then. cbn [strip_prefix].
  rewrite Ascii.eqb_sym in Hc. by rewrite Hc.
Qed.
End FilenameFacts.

Lemma headers_get_only (r : Response) (name key value dflt : string) :
  headers r = {[ key := value ]} →
  headers_get r name dflt = if decide (key = lower name) then value else dflt.
Proof.
  intros H. unfold headers_get. rewrite H, lookup_singleton.
  by case_decide.
Qed.

(** C3, as amended.  The name is the token of the first [filename=] or
    [filename*=UTF-8''] parameter of Content-Disposition, quoted or not, and
    whatever name is taken from that header is such a token; when the
    pattern finds nothing, as when the header lacks the word [filename], the
    name is the file id followed by an extension read from Content-Type:
    [.pdf] when the type starts with [application/pdf], otherwise [.docx],
    [.pptx] or [.xlsx] when the type contains the marker of the Word,
    PowerPoint or Excel family, and no extension in every other case. *)
Theorem filename_resolution (resp : Response) (fid : string) :
  let cd := headers_get resp "Content-Disposition" EmptyString in
  let ct := headers_get resp "Content-Type" EmptyString in
  (∀ pre form tok post,
     cd = pre +:+ form +:+ tok +:+ post →
     first_match_at pre (form +:+ tok +:+ post) →
     name_token tok post →
     form = "filename=" +:+ quote
     ∨ form = "filename*=UTF-8''"
     ∨ (form = "filename=" ∧ Text.startswith tok "UTF-8''" = false) →
     extract_filename resp fid = tok)
  ∧ (∀ tok,
       Re.search_filename cd = Some tok →
       extract_filename resp fid = tok
       ∧ ∃ pre star utf q post,
           cd = pre +:+ "filename" +:+ star +:+ "=" +:+ utf +:+ q +:+ tok +:+ post
           ∧ (star = EmptyString ∨ star = "*")
           ∧ (utf = EmptyString ∨ utf = "UTF-8''")
           ∧ (q = EmptyString ∨ q = quote)
           ∧ name_token tok post)
  ∧ (Re.search_filename cd = None →
     extract_filename resp fid = fid +:+ infer_extension ct)
  ∧ (Text.contains "filename" cd = false → Re.search_filename cd = None)
  ∧ (Text.startswith ct "application/pdf" = true → infer_extension ct = ".pdf")
  ∧ (Text.startswith ct "application/pdf" = false →
     Text.contains "wordprocessingml.document" ct || Text.contains "msword" ct
       = true →
     infer_extension ct = ".docx")
  ∧ (Text.startswith ct "application/pdf" = false →
     Text.contains "wordprocessingml.document" ct || Text.contains "msword" ct
       = false →
     Text.contains "presentationml.presentation" ct = true →
     infer_extension ct = ".pptx")
  ∧ (Text.startswith ct "application/pdf" = false →
     Text.contains "wordprocessingml.document" ct || Text.contains "msword" ct
       = false →
     Text.contains "presentationml.presentation" ct = false →
     Text.contains "spreadsheet" ct = true →
     infer_extension ct = ".xlsx")
  ∧ (Text.startswith ct "application/pdf" = false →
     Text.contains "wordprocessingml.document" ct || Text.contains "msword" ct
       = false →
     Text.contains "presentationml.presentation" ct = false →
     Text.contains "spreadsheet" ct = false →
     infer_extension ct = EmptyString)
  ∧ (headers resp
       = {[ "content-disposition" :=
              "attachment; filename=" +:+ quote +:+ "report.pdf" +:+ quote ]} →
     extract_filename resp fid = "report.pdf")
  ∧ (headers resp = {[ "content-type" := "application/pdf" ]} →
     extract_filename resp fid = fid +:+ ".pdf").
Proof.
  intros cd ct. split_and!.
  - intros pre form tok post Hcd Hfirst Htok Hform.
    unfold extract_filename. fold cd. rewrite Hcd.
    erewrite search_filename_first; [done|done|].
    destruct Hform as [->|[->|[-> Hutf]]].
    + rewrite app_assoc_str. by apply match_filename_quoted.
    + by apply match_filename_extended.
    + by apply match_filename_plain.
  - intros tok Hs. unfold extract_filename. fold cd. rewrite Hs.
    split; [done|].
    apply search_filename_Some in Hs as (pre & rest & Hcd & _ & Hm).
    apply match_filename_at_Some in Hm
      as (star & utf & q & post & -> & Hstar & Hutf & Hq & Htok).
    exists pre, star, utf, q, post. done.
  - intros Hno. unfold extract_filename. fold cd ct. by rewrite Hno.
  - apply search_filename_absent.
  - unfold infer_extension. by intros ->.
  - unfold infer_extension. by intros -> ->.
  - unfold infer_extension. by intros -> -> ->.
  - unfold infer_extension. by intros -> -> -> ->.
  - unfold infer_extension. by intros -> -> -> ->.
  - intros H. unfold extract_filename.
    rewrite (headers_get_only _ _ _ _ _ H). reflexivity.
  - intros H. unfold extract_filename.
    rewrite !(headers_get_only _ _ _ _ _ H). reflexivity.
Qed.

(** The theorem on a quoted file name, and on a response without the two
    headers. *)
Lemma filename_resolution_witness :
  let cd := "attachment; filename=" +:+ quote +:+ "report.pdf" +:+ quote in
  let resp := mkResponse 200 {[ "content-disposition" := cd ]} [] "%PDF-1" in
  extract_filename resp "F1" = "report.pdf"
  ∧ extract_filename (mkResponse 200 ∅ [] "<html>") "F1" = "F1".
Proof.
  intros cd resp. split.
  - destruct (filename_resolution resp "F1") as (Hparam & _).
    apply (Hparam "attachment; " ("filename=" +:+ quote) "report.pdf" quote).
    + reflexivity.
    + by apply first_match_no_f.
    + by split_and!.
    + by left.
  - destruct (filename_resolution (mkResponse 200 ∅ [] "<html>") "F1")
      as (_ & _ & Hfallback & Habsent & _ & _ & _ & _ & Hnone & _).
    rewrite Hfallback by (apply Habsent; reflexivity).
    rewrite Hnone by reflexivity. reflexivity.
Defined.

(** C3, as stated, fails on a Content-Type that has [application/pdf]
    inside but not at its start: the PDF family is matched by prefix, so
    the file gets no extension. *)
Lemma pdf_is_matched_by_prefix :
  let ct := "text/plain; name=application/pdf" in
  let resp := mkResponse 200 {[ "content-type" := ct ]} [] "%PDF" in
  Text.contains "application/pdf" ct = true
  ∧ infer_extension ct = EmptyString
  ∧ extract_filename resp "F1" = "F1".
Proof.
  intros ct resp. split_and!; [reflexivity..|].
  assert (headers resp = {[ "content-type" := ct ]}) as H by reflexivity.
  unfold extract_filename. rewrite !(headers_get_only _ _ _ _ _ H).
  reflexivity.
Qed.

(** ** Running the download routines *)

Lemma concat_chunks (size room : N) (s : string) :
  fold_right String.append EmptyString (chunks size room s) = s.
Proof.
  revert room. induction s as [|c s IH]; intros room; [done|].
  cbn [chunks]. set (r := if N.eqb room 0 then _ else _).
  specialize (IH r). unfold push_head.
  destruct (N.eqb r 0).
  - cbn. by rewrite app_cons, app_nil_l, IH.
  - destruct (chunks size r s) as [|h t]; cbn in *.
    + by rewrite <- IH.
    + by rewrite app_cons, IH.
Qed.

Lemma write_chunks_run (p : string) (cs : list string) (w : World) (d : string) :
  fs w !! p = Some (File d) →
  for_each cs (λ chunk, write p chunk) w
  = (inr tt,
     with_fs w (<[p := File (d +:+ fold_right String.append EmptyString cs)]> (fs w))).
Proof.
  revert w d. induction cs as [|c cs IH]; intros w d Hp.
  - cbn. rewrite app_empty_r, insert_id by done. by destruct w.
  - cbn [for_each]. unfold mbind, M_bind, bind. unfold write at 1.
    unfold fs_write. rewrite Hp.
    erewrite IH; [|cbn; apply lookup_insert_eq].
    cbn. rewrite insert_insert_eq, app_assoc_str. done.
Qed.

Lemma store_run (outdir filename : string) (r : Response) (w : World) :
  store outdir filename r w
  = let '(oe, fs') := fs_store (fs w) outdir (path_join outdir filename) (content r) in
    (outcome oe, with_fs w fs').
Proof.
  unfold store, fs_store, save_stream.
  unfold mbind, M_bind, bind, makedirs, open_wb.
  destruct (fs_makedirs (fs w) outdir) as [[e|] fs1]; [done|].
  cbn [fs with_fs].
  destruct (fs_open_wb fs1 (path_join outdir filename)) as [e|fs2] eqn:Ho; [done|].
  assert (fs2 = <[path_join outdir filename := File EmptyString]> fs1) as ->.
  { unfold fs_open_wb in Ho. repeat case_match; congruence. }
  erewrite write_chunks_run; [|cbn; apply lookup_insert_eq].
  unfold iter_content. rewrite concat_chunks, app_nil_l. cbn.
  by rewrite insert_insert_eq.
Qed.

Section StageFacts.
Variable server : list Request → Request → exn + Response.

Lemma fetch_run (url : string) (params : list (string * string)) (w : World) :
  fetch server url params w
  = (checked (exchange server (reqs w) url params).2,
     log_reqs w (exchange server (reqs w) url params).1).
Proof.
  unfold fetch, exchange, mbind, M_bind, bind, session_get, log_reqs.
  cbn [reqs].
  destruct (server (reqs w) (mkRequest url params)) as [e|r1]; [done|].
  destruct (truthy (get_confirm_token r1)); cbn.
  - rewrite <- app_assoc. cbn.
    destruct (server _ _) as [e|r2]; [done|]. cbn.
    unfold raise_for_status. by destruct (is_http_error r2).
  - unfold mret, M_ret, ret, raise_for_status. by destruct (is_http_error r1).
Qed.

Lemma download_drive_file_run (fid outdir : string) (w : World) :
  download_drive_file server fid outdir w
  = (enter (CallDrive fid outdir);;
     r ← fetch server "https://drive.google.com/uc?export=download" [("id", fid)];
     store outdir (extract_filename r fid) r;;
     print (SavedDrive (extract_filename r fid))) w.
Proof.
  unfold download_drive_file, fetch, store, mbind, M_bind, bind, enter.
  destruct (session_get _ _ _ _) as [[e|r1] w1]; [done|].
  destruct (truthy _).
  - destruct (session_get _ _ _ _) as [[e|r2] w2]; [done|].
    destruct (raise_for_status r2 w2) as [[e|[]] w3]; [done|]. cbn.
    destruct (makedirs outdir w3) as [[e|[]] w4]; [done|].
    by destruct (save_stream _ _ _) as [[e|[]] w5].
  - cbn. destruct (raise_for_status r1 w1) as [[e|[]] w3]; [done|]. cbn.
    destruct (makedirs outdir w3) as [[e|[]] w4]; [done|].
    by destruct (save_stream _ _ _) as [[e|[]] w5].
Qed.

Lemma download_doc_export_run (did outdir fmt : string) (w : World) :
  download_doc_export server did outdir fmt w
  = (enter (CallDoc did outdir fmt);;
     r ← fetch server
           ("https://docs.google.com/document/d/" +:+ did +:+ "/export")
           [("format", fmt)];
     let filename :=
       did +:+ "_export" +:+ (if decide (fmt = "pdf") then ".pdf" else ".docx") in
     store outdir filename r;;
     print (SavedDoc filename)) w.
Proof.
  unfold download_doc_export, fetch, store, mbind, M_bind, bind, enter.
  destruct (session_get _ _ _ _) as [[e|r1] w1]; [done|].
  destruct (truthy _).
  - destruct (session_get _ _ _ _) as [[e|r2] w2]; [done|].
    destruct (raise_for_status r2 w2) as [[e|[]] w3]; [done|]. cbn.
    destruct (makedirs outdir w3) as [[e|[]] w4]; [done|].
    by destruct (save_stream _ _ _) as [[e|[]] w5].
  - cbn. destruct (raise_for_status r1 w1) as [[e|[]] w3]; [done|]. cbn.
    destruct (makedirs outdir w3) as [[e|[]] w4]; [done|].
    by destruct (save_stream _ _ _) as [[e|[]] w5].
Qed.
End StageFacts.

Section RoutineFacts.
Variable server : list Request → Request → exn + Response.

(** The whole of a download in terms of its two stages. *)
Lemma routine_run (c : call) (url : string) (params : list (string * string))
    (outdir : string) (name : Response → string) (saved : string → msg)
    (w : World) :
  (enter c;;
   r ← fetch server url params;
   store outdir (name r) r;;
   print (saved (name r))) w
  = let ex := exchange server (reqs w) url params in
    let w1 := log_reqs (log_call w c) ex.1 in
    match checked ex.2 with
    | inl e => (inl e, w1)
    | inr r =>
        let '(oe, fs') :=
          fs_store (fs w) outdir (path_join outdir (name r)) (content r) in
        match oe with
        | Some e => (inl e, with_fs w1 fs')
        | None => (inr tt, log_out (with_fs w1 fs') [saved (name r)])
        end
    end.
Proof.
  unfold mbind, M_bind, bind, enter. rewrite fetch_run. cbn [reqs].
  fold (log_call w c).
  destruct (checked _) as [e|r]; [done|].
  rewrite store_run. cbn [fs log_reqs log_call].
  by destruct (fs_store _ _ _ _) as [[e|] fs'].
Qed.

Lemma drive_run (fid outdir : string) (w : World) :
  download_drive_file server fid outdir w
  = let ex := exchange server (reqs w) drive_url [("id", fid)] in
    let w1 := log_reqs (log_call w (CallDrive fid outdir)) ex.1 in
    match checked ex.2 with
    | inl e => (inl e, w1)
    | inr r =>
        let '(oe, fs') :=
          fs_store (fs w) outdir (path_join outdir (extract_filename r fid))
            (content r) in
        match oe with
        | Some e => (inl e, with_fs w1 fs')
        | None =>
            (inr tt, log_out (with_fs w1 fs') [SavedDrive (extract_filename r fid)])
        end
    end.
Proof.
  rewrite download_drive_file_run.
  apply (routine_run _ _ _ _ (λ r, extract_filename r fid) SavedDrive).
Qed.

Lemma doc_run (did outdir fmt : string) (w : World) :
  download_doc_export server did outdir fmt w
  = let ex := exchange server (reqs w) (doc_url did) [("format", fmt)] in
    let w1 := log_reqs (log_call w (CallDoc did outdir fmt)) ex.1 in
    match checked ex.2 with
    | inl e => (inl e, w1)
    | inr r =>
        let '(oe, fs') :=
          fs_store (fs w) outdir (path_join outdir (doc_name did fmt)) (content r) in
        match oe with
        | Some e => (inl e, with_fs w1 fs')
        | None => (inr tt, log_out (with_fs w1 fs') [SavedDoc (doc_name did fmt)])
        end
    end.
Proof.
  rewrite download_doc_export_run.
  apply (routine_run _ _ _ _ (λ _, doc_name did fmt) SavedDoc).
Qed.
End RoutineFacts.

Section ExchangeFacts.
Variable server : list Request → Request → exn + Response.

(** The answer of an exchange is the server's answer to the last request
    of the history it leaves. *)
Lemma exchange_last (h0 : list Request) (url : string)
    (params : list (string * string)) :
  ∃ h q, h0 ++ (exchange server h0 url params).1 = h ++ [q]
         ∧ server h q = (exchange server h0 url params).2.
Proof.
  unfold exchange. destruct (server h0 (mkRequest url params)) as [e|r1] eqn:E.
  - by exists h0, (mkRequest url params).
  - destruct (truthy (get_confirm_token r1)).
    + eexists (h0 ++ [_]), _. split; [|done]. by rewrite <- app_assoc.
    + by exists h0, (mkRequest url params).
Qed.

Lemma exchange_final (h0 h : list Request) (q : Request) (url : string)
    (params : list (string * string)) :
  h0 ++ (exchange server h0 url params).1 = h ++ [q] →
  (exchange server h0 url params).2 = server h q.
Proof.
  intros H. destruct (exchange_last h0 url params) as (h' & q' & H1 & H2).
  rewrite H in H1. apply app_inj_tail in H1 as [-> ->]. done.
Qed.

Lemma drive_reqs (fid outdir : string) (w : World) :
  reqs (download_drive_file server fid outdir w).2
  = reqs w ++ (exchange server (reqs w) drive_url [("id", fid)]).1.
Proof.
  rewrite drive_run. cbn zeta. destruct (checked _) as [e|r]; [done|].
  by destruct (fs_store _ _ _ _) as [[e|] fs'].
Qed.

Lemma doc_reqs (did outdir fmt : string) (w : World) :
  reqs (download_doc_export server did outdir fmt w).2
  = reqs w ++ (exchange server (reqs w) (doc_url did) [("format", fmt)]).1.
Proof.
  rewrite doc_run. cbn zeta. destruct (checked _) as [e|r]; [done|].
  by destruct (fs_store _ _ _ _) as [[e|] fs'].
Qed.
End ExchangeFacts.

(** C9.  When the answer to the last request of a download carries an
    error status, the routine raises [HTTPError] and leaves the filesystem as
    it was: no directory is made and no file is opened.  Nothing is printed
    by the routine either. *)
Theorem http_error_leaves_disk
    (server : list Request → Request → exn + Response)
    (fid did outdir fmt : string) (m : M unit)
    (w w' : World) (res : exn + unit)
    (h : list Request) (q : Request) (r : Response) :
  m = download_drive_file server fid outdir
  ∨ m = download_doc_export server did outdir fmt →
  m w = (res, w') →
  reqs w' = h ++ [q] →
  server h q = inr r →
  is_http_error r = true →
  res = inl (HTTPError (status_code r)) ∧ fs w' = fs w ∧ out w' = out w.
Proof.
  intros [-> | ->] Hrun Hreqs Hsrv Herr.
  - pose proof (drive_reqs server fid outdir w) as Hq.
    rewrite Hrun in Hq. cbn [snd] in Hq. rewrite Hreqs in Hq.
    symmetry in Hq. apply exchange_final in Hq. rewrite Hsrv in Hq.
    rewrite drive_run in Hrun. cbn zeta in Hrun. rewrite Hq in Hrun.
    cbn [checked] in Hrun. rewrite Herr in Hrun. by injection Hrun as <- <-.
  - pose proof (doc_reqs server did outdir fmt w) as Hq.
    rewrite Hrun in Hq. cbn [snd] in Hq. rewrite Hreqs in Hq.
    symmetry in Hq. apply exchange_final in Hq. rewrite Hsrv in Hq.
    rewrite doc_run in Hrun. cbn zeta in Hrun. rewrite Hq in Hrun.
    cbn [checked] in Hrun. rewrite Herr in Hrun. by injection Hrun as <- <-.
Qed.

(** The theorem on a server that answers 404. *)
Lemma http_error_leaves_disk_witness :
  let m := download_drive_file srv_404 "F1" "/res/a" in
  (m world0).1 = inl (HTTPError 404)
  ∧ fs (m world0).2 = fs world0
  ∧ out (m world0).2 = out world0.
Proof.
  intros m.
  apply (http_error_leaves_disk srv_404 "F1" "D1" "/res/a" "pdf" m
           world0 (m world0).2 (m world0).1 []
           (mkRequest drive_url [("id", "F1")])
           (mkResponse 404 ∅ [] "Not Found")).
  - by left.
  - by destruct (m world0).
  - reflexivity.
  - reflexivity.
  - reflexivity.
Defined.

(** ** The filesystem operations *)

Lemma mkdir_chain_other (fs : gmap string node) (qs : list string) (p : string) :
  p ∉ qs → (mkdir_chain fs qs).2 !! p = fs !! p.
Proof.
  revert fs. induction qs as [|q qs IH]; intros fs Hp; [done|].
  apply not_elem_of_cons in Hp as [Hne Hp]. cbn. unfold mkdir_exist_ok.
  destruct (fs !! q) as [[|d]|] eqn:E; cbn; [by apply IH|done|].
  rewrite IH by done. by rewrite lookup_insert_ne.
Qed.

Lemma mkdir_chain_mono (fs : gmap string node) (qs : list string)
    (p : string) (n : node) :
  fs !! p = Some n → (mkdir_chain fs qs).2 !! p = Some n.
Proof.
  revert fs. induction qs as [|q qs IH]; intros fs Hp; [done|].
  cbn. unfold mkdir_exist_ok.
  destruct (fs !! q) as [[|d]|] eqn:E; cbn; [by apply IH|done|].
  apply IH. rewrite lookup_insert_ne; [done|]. congruence.
Qed.

Lemma mkdir_chain_ok (fs fs' : gmap string node) (qs : list string) (q : string) :
  mkdir_chain fs qs = (None, fs') → q ∈ qs → fs' !! q = Some Dir.
Proof.
  revert fs. induction qs as [|q0 qs IH]; intros fs Hrun Hq.
  - by apply elem_of_nil in Hq.
  - cbn in Hrun. unfold mkdir_exist_ok in Hrun.
    apply elem_of_cons in Hq as [->|Hq].
    + destruct (fs !! q0) as [[|d]|] eqn:E; [| done |].
      * replace fs' with (mkdir_chain fs qs).2 by by rewrite Hrun.
        by apply mkdir_chain_mono.
      * replace fs' with (mkdir_chain (<[q0:=Dir]> fs) qs).2 by by rewrite Hrun.
        apply mkdir_chain_mono, lookup_insert_eq.
    + destruct (fs !! q0) as [[|d]|] eqn:E; [by eapply IH|done|by eapply IH].
Qed.

Lemma mkdir_chain_fixed (fs : gmap string node) (qs : list string) :
  (∀ q, q ∈ qs → fs !! q = Some Dir) → mkdir_chain fs qs = (None, fs).
Proof.
  induction qs as [|q qs IH]; intros H; [done|]. cbn. unfold mkdir_exist_ok.
  rewrite (H q) by (apply elem_of_cons; by left).
  apply IH. intros q' Hq'. apply H, elem_of_cons. by right.
Qed.

Lemma fs_makedirs_other (fs : gmap string node) (p k : string) :
  k ∉ ancestors p → (fs_makedirs fs p).2 !! k = fs !! k.
Proof.
  intros Hk. unfold fs_makedirs. destruct (Text.is_empty p); [done|].
  by apply mkdir_chain_other.
Qed.

Lemma fs_makedirs_mono (fs : gmap string node) (p k : string) (n : node) :
  fs !! k = Some n → (fs_makedirs fs p).2 !! k = Some n.
Proof.
  intros Hk. unfold fs_makedirs. destruct (Text.is_empty p); [done|].
  by apply mkdir_chain_mono.
Qed.

(** What a successful [store] leaves. *)
Lemma fs_store_ok (fs fs' : gmap string node) (outdir path body : string) :
  fs_store fs outdir path body = (None, fs') →
  ∃ fs1, fs_makedirs fs outdir = (None, fs1)
         ∧ fs1 !! path ≠ Some Dir
         ∧ parent_ok fs1 path = true
         ∧ fs' = <[path := File body]> fs1.
Proof.
  unfold fs_store. destruct (fs_makedirs fs outdir) as [[e|] fs1]; [done|].
  unfold fs_open_wb. intros H. exists fs1.
  destruct (fs1 !! path) as [[|d]|] eqn:E; [done| |];
    destruct (parent_ok fs1 path); naive_solver.
Qed.

Section HeaderFacts.
Variable server : list Request → Request → exn + Response.
Variable g : Response → gmap string string.

Lemma exchange_reheader (h : list Request) (url : string)
    (params : list (string * string)) :
  exchange (reheader g server) h url params
  = ((exchange server h url params).1,
     match (exchange server h url params).2 with
     | inl e => inl e
     | inr r => inr (mkResponse (status_code r) (g r) (cookies r) (content r))
     end).
Proof.
  unfold exchange, reheader.
  destruct (server h (mkRequest url params)) as [e|r1]; [done|].
  unfold get_confirm_token. cbn [cookies].
  by destruct (truthy (first_warning (cookies r1))).
Qed.
End HeaderFacts.

(** C7.  A successful export is written under
    [<doc_id>_export.pdf] when the format is [pdf] and under
    [<doc_id>_export.docx] otherwise; the body is the one of the last
    response; besides the directories made for the output directory nothing
    else changes; and the routine does the same whatever headers the
    responses carry. *)
Theorem doc_export_name
    (server : list Request → Request → exn + Response)
    (did outdir fmt : string) (w : World) :
  let ext := if decide (fmt = "pdf") then ".pdf" else ".docx" in
  let filename := did +:+ "_export" +:+ ext in
  let path := path_join outdir filename in
  (∀ w', download_doc_export server did outdir fmt w = (inr tt, w') →
     (∃ h q r, reqs w' = h ++ [q] ∧ server h q = inr r
               ∧ fs w' !! path = Some (File (content r)))
     ∧ out w' = out w ++ [SavedDoc filename]
     ∧ (∀ p, p ≠ path → p ∉ ancestors outdir → fs w' !! p = fs w !! p))
  ∧ (∀ g, download_doc_export (reheader g server) did outdir fmt w
          = download_doc_export server did outdir fmt w).
Proof.
  intros ext filename path. split.
  - intros w' Hrun.
    pose proof (doc_reqs server did outdir fmt w) as Hq.
    rewrite Hrun in Hq. cbn [snd] in Hq.
    destruct (exchange_last server (reqs w) (doc_url did) [("format", fmt)])
      as (h & q & Hlast & Hsrv).
    rewrite doc_run in Hrun. cbn zeta in Hrun.
    destruct (exchange server (reqs w) (doc_url did) [("format", fmt)])
      as [qs [e|r]]; cbn [fst snd checked] in *; [done|].
    destruct (is_http_error r); [done|].
    fold filename path in Hrun. change (doc_name did fmt) with filename in Hrun.
    fold path in Hrun.
    destruct (fs_store (fs w) outdir path (content r)) as [[e|] fs'] eqn:Hst;
      [done|].
    injection Hrun as <-. cbn [fs out log_out with_fs].
    apply fs_store_ok in Hst as (fs1 & Hmk & _ & _ & ->).
    split_and!.
    + exists h, q, r. split_and!; [congruence|done|apply lookup_insert_eq].
    + done.
    + intros p Hp Hanc. rewrite lookup_insert_ne by done.
      replace fs1 with (fs_makedirs (fs w) outdir).2 by by rewrite Hmk.
      by apply fs_makedirs_other.
  - intros g. rewrite !doc_run. cbn zeta. rewrite exchange_reheader.
    cbn [fst snd].
    destruct (exchange server (reqs w) (doc_url did) [("format", fmt)])
      as [qs [e|r]]; cbn; [done|].
    unfold is_http_error. cbn [status_code]. by destruct (_ && _).
Qed.

(** The theorem on an export as [docx]. *)
Lemma doc_export_name_witness :
  let run := download_doc_export srv_pdf "D1" "/res/a" "docx" world0 in
  run.1 = inr tt
  ∧ out run.2 = [SavedDoc "D1_export.docx"]
  ∧ (∃ h q r, reqs run.2 = h ++ [q] ∧ srv_pdf h q = inr r
              ∧ fs run.2 !! "/res/a/D1_export.docx" = Some (File (content r)))
  ∧ fs run.2 !! "/res/a/D1_export.pdf" = None.
Proof.
  intros run.
  destruct (doc_export_name srv_pdf "D1" "/res/a" "docx" world0) as [Hok _].
  destruct (Hok run.2) as (Hfile & Hout & Hrest).
  - vm_compute. reflexivity.
  - split_and!; [reflexivity|exact Hout|exact Hfile|].
    rewrite Hrest; [reflexivity|done|].
    vm_compute. intros H. repeat (apply elem_of_cons in H as [H|H]; [done|]).
    by apply elem_of_nil in H.
Defined.

(** ** The confirmation protocol *)

Lemma first_warning_None (cs : list (string * string)) :
  first_warning cs = None ↔
  ∀ k v, (k, v) ∈ cs → Text.startswith k "download_warning" = false.
Proof.
  induction cs as [|[k0 v0] cs IH]; cbn [first_warning].
  - split; [|done]. by intros _ k v ?%elem_of_nil.
  - destruct (Text.startswith k0 "download_warning") eqn:E.
    + split; [done|]. intros H. rewrite (H k0 v0) in E; [done|].
      apply elem_of_cons. by left.
    + rewrite IH. split.
      * intros H k v [[= -> ->]|Hin]%elem_of_cons; [done|]. by eapply H.
      * intros H k v Hin. eapply H, elem_of_cons. by right.
Qed.

(** The token is the value of the first cookie with the prefix. *)
Lemma first_warning_Some (cs : list (string * string)) (tok : string) :
  first_warning cs = Some tok ↔
  ∃ l k r, cs = l ++ (k, tok) :: r
           ∧ Text.startswith k "download_warning" = true
           ∧ first_warning l = None.
Proof.
  induction cs as [|[k0 v0] cs IH]; cbn [first_warning].
  - split; [done|]. intros (l & k & r & H & _). by destruct l.
  - destruct (Text.startswith k0 "download_warning") eqn:E.
    + split.
      * intros [= ->]. by exists [], k0, cs.
      * intros (l & k & r & H & Hk & Hl). destruct l as [|[k1 v1] l].
        { by injection H as _ ->. }
        injection H as -> -> _. cbn in Hl. by rewrite E in Hl.
    + rewrite IH. split.
      * intros (l & k & r & -> & Hk & Hl). exists ((k0, v0) :: l), k, r.
        split_and!; [done..|]. cbn. by rewrite E.
      * intros (l & k & r & H & Hk & Hl). destruct l as [|[k1 v1] l].
        { injection H as -> _ _. congruence. }
        injection H as -> -> ->. cbn in Hl. rewrite E in Hl.
        by exists l, k, r.
Qed.

Lemma drive_shape (server : list Request → Request → exn + Response)
    (fid outdir : string) :
  routine_shape (download_drive_file server fid outdir) server
    (CallDrive fid outdir) drive_url [("id", fid)] outdir
    (λ r, extract_filename r fid) SavedDrive.
Proof. intros w. apply drive_run. Qed.

Lemma doc_shape (server : list Request → Request → exn + Response)
    (did outdir fmt : string) :
  routine_shape (download_doc_export server did outdir fmt) server
    (CallDoc did outdir fmt) (doc_url did) [("format", fmt)] outdir
    (λ _, doc_name did fmt) SavedDoc.
Proof. intros w. apply doc_run. Qed.

Lemma shape_saved (m : M unit)
    (server : list Request → Request → exn + Response)
    (c : call) (url : string) (params : list (string * string))
    (outdir : string) (name : Response → string) (saved : string → msg)
    (w : World) (r : Response) :
  routine_shape m server c url params outdir name saved →
  (exchange server (reqs w) url params).2 = inr r →
  (m w).1 = inr tt →
  fs (m w).2 !! path_join outdir (name r) = Some (File (content r)).
Proof.
  intros Hm Hex. rewrite Hm. cbn zeta. rewrite Hex. cbn [checked].
  destruct (is_http_error r); [done|].
  destruct (fs_store _ _ _ _) as [[e|] fs'] eqn:Hst; [done|]. intros _.
  apply fs_store_ok in Hst as (fs1 & _ & _ & _ & ->). cbn.
  apply lookup_insert_eq.
Qed.

Lemma shape_reqs (m : M unit)
    (server : list Request → Request → exn + Response)
    (c : call) (url : string) (params : list (string * string))
    (outdir : string) (name : Response → string) (saved : string → msg)
    (w : World) :
  routine_shape m server c url params outdir name saved →
  reqs (m w).2 = reqs w ++ (exchange server (reqs w) url params).1.
Proof.
  intros Hm. rewrite Hm. cbn zeta. destruct (checked _) as [e|r]; [done|].
  by destruct (fs_store _ _ _ _) as [[e|] fs'].
Qed.

(** C2, as amended.  After a first response that carries a
    [download_warning] cookie whose value is not empty, the value of the
    first such cookie is sent back in exactly one further request, as the
    [confirm] parameter, and a download that completes has stored the body
    of that second response.  When no cookie has the prefix, or when the
    first one that has it carries the empty value, the first request is the
    only one and its body is what a completed download has stored. *)
Theorem confirm_protocol
    (server : list Request → Request → exn + Response)
    (fid did outdir fmt : string) (m : M unit)
    (url : string) (params : list (string * string))
    (name : Response → string) (w : World) (r1 : Response) :
  (m = download_drive_file server fid outdir
   ∧ url = drive_url ∧ params = [("id", fid)]
   ∧ name = λ r, extract_filename r fid)
  ∨ (m = download_doc_export server did outdir fmt
     ∧ url = doc_url did ∧ params = [("format", fmt)]
     ∧ name = λ _, doc_name did fmt) →
  server (reqs w) (mkRequest url params) = inr r1 →
  (∀ tok,
     get_confirm_token r1 = Some tok → tok ≠ EmptyString →
     let q2 := mkRequest url (params ++ [("confirm", tok)]) in
     reqs (m w).2 = reqs w ++ [mkRequest url params; q2]
     ∧ ∀ r2,
         server (reqs w ++ [mkRequest url params]) q2 = inr r2 →
         (m w).1 = inr tt →
         fs (m w).2 !! path_join outdir (name r2) = Some (File (content r2)))
  ∧ (get_confirm_token r1 = None ∨ get_confirm_token r1 = Some EmptyString →
     reqs (m w).2 = reqs w ++ [mkRequest url params]
     ∧ ((m w).1 = inr tt →
        fs (m w).2 !! path_join outdir (name r1) = Some (File (content r1))))
  ∧ ((∀ k v, (k, v) ∈ cookies r1 →
             Text.startswith k "download_warning" = false) →
     get_confirm_token r1 = None)
  ∧ (∀ tok,
       get_confirm_token r1 = Some tok →
       ∃ l k r,
         cookies r1 = l ++ (k, tok) :: r
         ∧ Text.startswith k "download_warning" = true
         ∧ ∀ k' v', (k', v') ∈ l →
                    Text.startswith k' "download_warning" = false).
Proof.
  intros Hm Hsrv.
  assert (∃ c saved, routine_shape m server c url params outdir name saved)
    as (c & saved & Hshape).
  { destruct Hm as [(-> & -> & -> & ->)|(-> & -> & -> & ->)].
    - eexists _, _. apply drive_shape.
    - eexists _, _. apply doc_shape. }
  clear Hm. split_and!.
  - intros tok Htok Hne q2.
    assert (exchange server (reqs w) url params
            = ([mkRequest url params; q2],
               server (reqs w ++ [mkRequest url params]) q2)) as Hex.
    { unfold exchange. rewrite Hsrv, Htok. cbn.
      by apply is_empty_false in Hne as ->. }
    split.
    + by rewrite (shape_reqs _ _ _ _ _ _ _ _ _ Hshape), Hex.
    + intros r2 Hr2. eapply shape_saved; [done|]. by rewrite Hex.
  - intros Htok.
    assert (exchange server (reqs w) url params
            = ([mkRequest url params], inr r1)) as Hex.
    { unfold exchange. rewrite Hsrv. by destruct Htok as [-> | ->]. }
    split.
    + by rewrite (shape_reqs _ _ _ _ _ _ _ _ _ Hshape), Hex.
    + eapply shape_saved; [done|]. by rewrite Hex.
  - intros H. by apply first_warning_None.
  - intros tok (l & k & r & Hc & Hk & Hl)%first_warning_Some.
    exists l, k, r. split_and!; [done..|]. by apply first_warning_None.
Qed.

(** The theorem on the interstitial followed by the file. *)
Lemma confirm_protocol_witness :
  let m := download_drive_file srv_confirm "F1" "/res/a" in
  reqs (m world0).2
  = [mkRequest drive_url [("id", "F1")];
     mkRequest drive_url [("id", "F1"); ("confirm", "t0k3n")]]
  ∧ fs (m world0).2 !! "/res/a/F1.pdf" = Some (File "BIG").
Proof.
  intros m.
  destruct (confirm_protocol srv_confirm "F1" "D1" "/res/a" "pdf" m
              drive_url [("id", "F1")] (λ r, extract_filename r "F1") world0
              (mkResponse 200 ∅
                 [("NID", "511"); ("download_warning_13058876669334088843", "t0k3n")]
                 "<html>"))
    as (Hconfirm & _).
  - left. split_and!; reflexivity.
  - reflexivity.
  - destruct (Hconfirm "t0k3n") as [Hreqs Hbody]; [reflexivity|done|].
    split; [exact Hreqs|].
    exact (Hbody (mkResponse 200 {[ "content-type" := "application/pdf" ]} [] "BIG")
             eq_refl eq_refl).
Defined.

(** C2, as stated, fails when the warning cookie carries the empty value:
    the token is false in [if token:], so the first request is the only one
    and the body of the first response is what gets stored.  It also fails
    when the confirmed request is answered with an error status: the second
    request is made, but nothing is stored. *)
Lemma empty_token_is_not_confirmed :
  (let m := download_drive_file srv_empty_token "F1" "/res/a" in
   let r1 := mkResponse 200 ∅ [("download_warning_1", EmptyString)] "<html>" in
   srv_empty_token [] (mkRequest drive_url [("id", "F1")]) = inr r1
   ∧ Text.startswith "download_warning_1" "download_warning" = true
   ∧ reqs (m world0).2 = [mkRequest drive_url [("id", "F1")]]
   ∧ (m world0).1 = inr tt
   ∧ fs (m world0).2 !! "/res/a/F1" = Some (File "<html>"))
  ∧ (let m := download_drive_file srv_confirm_404 "F1" "/res/a" in
     reqs (m world0).2
     = [mkRequest drive_url [("id", "F1")];
        mkRequest drive_url [("id", "F1"); ("confirm", "t0k3n")]]
     ∧ (m world0).1 = inl (HTTPError 404)
     ∧ fs (m world0).2 = fs world0).
Proof. cbn zeta. split_and!; reflexivity. Qed.

(** ** The download loop *)

Lemma steps_print (m : msg) : steps (print m) [] 1.
Proof.
  intros w. eexists. split; [reflexivity|]. cbn.
  by rewrite app_nil_r, length_app.
Qed.

Lemma steps_bind (m1 m2 : M unit) (c1 c2 : list call) (n1 n2 : nat) :
  steps m1 c1 n1 → steps m2 c2 n2 → steps (m1;; m2) (c1 ++ c2) (n1 + n2).
Proof.
  intros H1 H2 w. destruct (H1 w) as (w1 & E1 & Hc1 & Ho1).
  destruct (H2 w1) as (w2 & E2 & Hc2 & Ho2).
  exists w2. unfold mbind, M_bind, bind. rewrite E1, E2.
  split_and!; [done| |lia]. by rewrite Hc2, Hc1, app_assoc.
Qed.

Lemma steps_for_each {A} (l : list A) (body : A → M unit)
    (f : A → list call) (k : nat) :
  (∀ x, steps (body x) (f x) (k + length (f x))) →
  steps (for_each l body) (l ≫= f) (k * length l + length (l ≫= f)).
Proof.
  intros Hbody. induction l as [|x l IH].
  - intros w. exists w. cbn. rewrite app_nil_r. split_and!; [done..|lia].
  - cbn [for_each]. rewrite bind_cons.
    replace (k * length (x :: l) + length (f x ++ l ≫= f))
      with ((k + length (f x)) + (k * length l + length (l ≫= f)))
      by (rewrite length_app; cbn; lia).
    by apply steps_bind.
Qed.

Section LoopFacts.
Variable server : list Request → Request → exn + Response.
Variable order : gset string → list string.

Lemma steps_try_drive (fid outdir : string) :
  steps (try_except (download_drive_file server fid outdir)
                    (λ e, print (FailedDrive fid e)))
        [CallDrive fid outdir] 1.
Proof.
  intros w. unfold try_except. rewrite drive_run. cbn zeta.
  destruct (checked _) as [e|r].
  - eexists. split; [reflexivity|]. cbn. by rewrite length_app.
  - destruct (fs_store _ _ _ _) as [[e|] fs'];
      (eexists; split; [reflexivity|]; cbn; by rewrite length_app).
Qed.

Lemma steps_try_doc (did outdir fmt : string) :
  steps (try_except (download_doc_export server did outdir fmt)
                    (λ e, print (FailedDoc did fmt e)))
        [CallDoc did outdir fmt] 1.
Proof.
  intros w. unfold try_except. rewrite doc_run. cbn zeta.
  destruct (checked _) as [e|r].
  - eexists. split; [reflexivity|]. cbn. by rewrite length_app.
  - destruct (fs_store _ _ _ _) as [[e|] fs'];
      (eexists; split; [reflexivity|]; cbn; by rewrite length_app).
Qed.

Lemma steps_download_entry
    (item : string * (string * gset string * gset string)) :
  steps (download_entry server order item) (entry_calls order item)
        (1 + length (entry_calls order item)).
Proof.
  destruct item as [url [[outdir files] docs]].
  unfold download_entry, entry_calls.
  apply (steps_bind _ _ [] _ 1); [apply steps_print|].
  rewrite length_app. apply steps_bind.
  - pose proof (steps_for_each (order files)
      (λ fid, try_except (download_drive_file server fid outdir)
                         (λ e, print (FailedDrive fid e)))
      (λ fid, [CallDrive fid outdir]) 0) as H.
    cbn in H. replace ((λ fid, CallDrive fid outdir) <$> order files)
      with (order files ≫= λ fid, [CallDrive fid outdir]).
    + apply H. intros fid. apply steps_try_drive.
    + clear H. induction (order files) as [|x l IH]; [done|].
      by rewrite bind_cons, fmap_cons, IH.
  - pose proof (steps_for_each (order docs)
      (λ did, for_each ["pdf"; "docx"] (λ fmt,
         try_except (download_doc_export server did outdir fmt)
                    (λ e, print (FailedDoc did fmt e))))
      (λ did, [CallDoc did outdir "pdf"; CallDoc did outdir "docx"]) 0) as H.
    cbn in H. apply H. intros did. cbn [for_each].
    apply (steps_bind _ _ [_] [_] 1 1); [apply steps_try_doc|].
    intros w. destruct (steps_try_doc did outdir "docx" w) as (w' & E & ? & ?).
    exists w'. unfold mbind, M_bind, bind. rewrite E. done.
Qed.

Lemma steps_download_phase
    (id_map : list (string * (string * gset string * gset string))) :
  steps (download_phase server order id_map) (id_map ≫= entry_calls order)
        (length id_map + length (id_map ≫= entry_calls order)).
Proof.
  pose proof (steps_for_each id_map (download_entry server order)
                (entry_calls order) 1) as H.
  rewrite Nat.mul_1_l in H. apply H. apply steps_download_entry.
Qed.
End LoopFacts.

Lemma main_split (server : list Request → Request → exn + Response)
    (browser : list string → exn + string) (order : gset string → list string)
    (urlparse_path : string → string) (base_dir : string)
    (urls : list string) (w : World) :
  main server browser order urlparse_path base_dir urls w
  = match crawl_stage browser order urlparse_path base_dir urls w with
    | (inl e, w1) => (inl e, w1)
    | (inr id_map, w1) =>
        (download_phase server order id_map;; print (AllDone base_dir)) w1
    end.
Proof.
  unfold main, crawl_stage, mbind, M_bind, bind.
  destruct (makedirs base_dir w) as [[e|[]] w1]; [done|].
  destruct (driver_get browser _ w1) as [[e|[]] w2]; [done|].
  by destruct (crawl_phase _ _ _ _ _ w2) as [[e|id_map] w3].
Qed.

Lemma entry_calls_exact (order : gset string → list string)
    (url outdir : string) (files docs : gset string) :
  (∀ X, order X ≡ₚ elements X) →
  let cs := entry_calls order (url, (outdir, files, docs)) in
  NoDup cs
  ∧ (∀ fid, CallDrive fid outdir ∈ cs ↔ fid ∈ files)
  ∧ (∀ did fmt, CallDoc did outdir fmt ∈ cs
                ↔ did ∈ docs ∧ (fmt = "pdf" ∨ fmt = "docx"))
  ∧ (∀ c, c ∈ cs → (∃ fid, c = CallDrive fid outdir)
                   ∨ (∃ did fmt, c = CallDoc did outdir fmt)).
Proof.
  intros Hord cs. subst cs. unfold entry_calls.
  assert (∀ X x, x ∈ order X ↔ x ∈ X) as Hin.
  { intros X x. by rewrite (Hord X), elem_of_elements. }
  assert (∀ X, NoDup (order X)) as Hnd.
  { intros X. rewrite (Hord X). apply NoDup_elements. }
  split_and!.
  - apply NoDup_app. split_and!.
    + apply NoDup_fmap_2; [|done]. by intros x y [= ->].
    + intros c (fid & -> & _)%list_elem_of_fmap (did & Hc & _)%list_elem_of_bind.
      set_solver.
    + apply NoDup_bind; [| |done].
      * intros d1 d2 c _ _ H1 H2. set_solver.
      * intros d _. apply NoDup_cons. split; [|apply NoDup_singleton].
        set_solver.
  - intros fid. rewrite elem_of_app, list_elem_of_fmap, list_elem_of_bind.
    split.
    + intros [(x & [= ->] & Hx)|(d & Hc & _)]; [by apply Hin|set_solver].
    + intros H. left. exists fid. split; [done|]. by apply Hin.
  - intros did fmt. rewrite elem_of_app, list_elem_of_fmap, list_elem_of_bind.
    split.
    + intros [(x & [=] & _)|(d & Hc & Hd)]. apply Hin in Hd. set_solver.
    + intros [Hd Hf]. right. exists did. split; [|by apply Hin]. set_solver.
  - intros c. rewrite elem_of_app, list_elem_of_fmap, list_elem_of_bind.
    intros [(x & -> & _)|(d & Hc & _)]; [eauto|]. right. set_solver.
Qed.

(** ** The download phase, attempt by attempt *)

Section AttemptFacts.
Variable server : list Request → Request → exn + Response.
Variable order : gset string → list string.

Lemma for_each_cons {A} (x : A) (l : list A) (body : A → M unit) :
  for_each (x :: l) body = (body x;; for_each l body).
Proof. done. Qed.

Lemma run_attempts_app (cs1 cs2 : list call) (w : World) :
  run_attempts server (cs1 ++ cs2) w
  = run_attempts server cs2 (run_attempts server cs1 w).
Proof. apply foldl_app. Qed.

Lemma try_except_guarded (c : call) (w : World) :
  try_except (attempt server c) (λ e, print (failed_line c e)) w
  = (inr tt, guarded server c w).
Proof.
  unfold try_except, guarded.
  by destruct (attempt server c w) as [[e|[]] w1].
Qed.

Lemma for_each_guarded {A} (f : A → call) (l : list A) (w : World) :
  for_each l (λ x, try_except (attempt server (f x))
                              (λ e, print (failed_line (f x) e))) w
  = (inr tt, run_attempts server (f <$> l) w).
Proof.
  revert w. induction l as [|x l IH]; intros w; [done|].
  cbn [for_each]. unfold mbind, M_bind, bind.
  rewrite try_except_guarded. apply IH.
Qed.

Lemma download_entry_run
    (item : string * (string * gset string * gset string)) (w : World) :
  download_entry server order item w
  = (inr tt, run_attempts server (entry_calls order item)
               (log_out w [Downloading item.1])).
Proof.
  destruct item as [url [[outdir files] docs]].
  unfold download_entry, entry_calls. cbn [fst].
  unfold mbind at 1, M_bind at 1, bind at 1.
  change (print (Downloading url) w)
    with (inr (B := unit) (A := exn) tt, log_out w [Downloading url]).
  cbn iota. rewrite run_attempts_app.
  unfold mbind at 1, M_bind at 1, bind at 1.
  rewrite (for_each_guarded (λ fid, CallDrive fid outdir) (order files)).
  generalize (run_attempts server ((λ fid, CallDrive fid outdir) <$> order files)
                (log_out w [Downloading url])).
  induction (order docs) as [|did l IH]; intros w1; [done|].
  rewrite (for_each_cons did l), bind_cons, run_attempts_app.
  unfold mbind at 1, M_bind at 1, bind at 1.
  rewrite (for_each_guarded (λ fmt, CallDoc did outdir fmt) ["pdf"; "docx"]).
  apply IH.
Qed.

Lemma download_phase_run
    (id_map : list (string * (string * gset string * gset string)))
    (w : World) :
  download_phase server order id_map w
  = (inr tt, run_entries server order id_map w).
Proof.
  unfold download_phase, run_entries. revert w.
  induction id_map as [|item id_map IH]; intros w; [done|].
  cbn [for_each foldl]. unfold mbind, M_bind, bind.
  rewrite download_entry_run. apply IH.
Qed.


(** Whatever comes of an attempt, the guard records the one call and
    prints one line, which is not the heading of an entry. *)
Lemma guarded_step (c : call) (w : World) :
  calls (guarded server c w) = calls w ++ [c]
  ∧ nav (guarded server c w) = nav w
  ∧ ∃ m, out (guarded server c w) = out w ++ [m]
         ∧ downloading_urls [m] = [].
Proof.
  assert (∃ url params outdir name saved,
            routine_shape (attempt server c) server c url params outdir name
              saved ∧ ∀ s, downloading_urls [saved s] = [])
    as (url & params & outdir & name & saved & Hshape & Hsaved).
  { destruct c as [fid outdir|did outdir fmt]; cbn [attempt].
    - eexists _, _, _, _, _. split; [apply drive_shape|done].
    - eexists _, _, _, _, _. split; [apply doc_shape|done]. }
  unfold guarded. destruct (attempt server c w) as [res w1] eqn:Hrun.
  rewrite Hshape in Hrun. cbn zeta in Hrun.
  destruct (checked _) as [e|r].
  { injection Hrun as <- <-. cbn. split_and!; [done..|].
    eexists. split; [reflexivity|]. by destruct c. }
  destruct (fs_store _ _ _ _) as [[e|] fs']; injection Hrun as <- <-; cbn.
  - split_and!; [done..|]. eexists. split; [reflexivity|]. by destruct c.
  - split_and!; [done..|]. eexists. split; [reflexivity|]. apply Hsaved.
Qed.

Lemma downloading_urls_app (ms1 ms2 : list msg) :
  downloading_urls (ms1 ++ ms2) = downloading_urls ms1 ++ downloading_urls ms2.
Proof. apply omap_app. Qed.

Lemma run_attempts_step (cs : list call) (w : World) :
  calls (run_attempts server cs w) = calls w ++ cs
  ∧ nav (run_attempts server cs w) = nav w
  ∧ length (out (run_attempts server cs w)) = length (out w) + length cs
  ∧ downloading_urls (out (run_attempts server cs w)) = downloading_urls (out w).
Proof.
  revert w. induction cs as [|c cs IH]; intros w.
  - cbn. by rewrite app_nil_r, Nat.add_0_r.
  - cbn [run_attempts foldl]. fold (run_attempts server cs (guarded server c w)).
    destruct (IH (guarded server c w)) as (Hc & Hn & Hl & Hd).
    destruct (guarded_step c w) as (Hc1 & Hn1 & m & Ho1 & Hm).
    rewrite Hc, Hn, Hl, Hd, Hc1, Hn1, Ho1, downloading_urls_app, Hm.
    rewrite length_app, app_nil_r, <- app_assoc. cbn. split_and!; [done..|lia|done].
Qed.

Lemma run_entries_step
    (id_map : list (string * (string * gset string * gset string)))
    (w : World) :
  calls (run_entries server order id_map w)
    = calls w ++ (id_map ≫= entry_calls order)
  ∧ nav (run_entries server order id_map w) = nav w
  ∧ length (out (run_entries server order id_map w))
    = length (out w) + (length id_map + length (id_map ≫= entry_calls order))
  ∧ downloading_urls (out (run_entries server order id_map w))
    = downloading_urls (out w) ++ id_map.*1.
Proof.
  revert w. induction id_map as [|item id_map IH]; intros w.
  - cbn. by rewrite !app_nil_r, Nat.add_0_r.
  - cbn [run_entries foldl].
    fold (run_entries server order id_map
            (run_attempts server (entry_calls order item)
               (log_out w [Downloading item.1]))).
    destruct (IH (run_attempts server (entry_calls order item)
                    (log_out w [Downloading item.1]))) as (Hc & Hn & Hl & Hd).
    destruct (run_attempts_step (entry_calls order item)
                (log_out w [Downloading item.1])) as (Hc1 & Hn1 & Hl1 & Hd1).
    rewrite Hc, Hn, Hl, Hd, Hc1, Hn1, Hl1, Hd1. cbn [calls nav out log_out].
    rewrite downloading_urls_app, bind_cons, fmap_cons, !length_app.
    cbn. rewrite <- !app_assoc. split_and!; [done..|lia|done].
Qed.
End AttemptFacts.




(** ** The crawl of one page *)

Section CrawlFacts.
Variable browser : list string → exn + string.
Variable order : gset string → list string.
Variable urlparse_path : string → string.
Variable base_dir : string.

(** The loop over the folders of a page. *)
Lemma folder_loop_run (folders : list string) (acc : gset string * gset string)
    (w w' : World) (res : gset string * gset string) :
  for_fold folders acc
    (λ '(files, docs) fldr,
       print (CrawlingFolder fldr);;
       driver_get browser fldr;;
       sub ← page_source browser;
       mret (files ∪ file_ids sub, docs ∪ doc_ids sub)) w
  = (inr res, w') →
  ∃ subs,
    folder_sources browser (nav w) folders = inr <$> subs
    ∧ nav w' = nav w ++ folders
    ∧ res = (acc.1 ∪ ⋃ (file_ids <$> subs), acc.2 ∪ ⋃ (doc_ids <$> subs))
    ∧ fs w' = fs w ∧ reqs w' = reqs w ∧ calls w' = calls w.
Proof.
  set (body := λ '(files, docs) fldr, _).
  revert acc w. induction folders as [|f folders IH]; intros [files docs] w.
  - cbn. intros H. cbv [ret] in H. injection H as <- <-.
    exists []. cbn. rewrite app_nil_r, !(right_id_L ∅ (∪)). done.
  - cbn [for_fold]. unfold mbind at 1, M_bind at 1, bind at 1.
    destruct (body (files, docs) f w) as [[e|acc'] w1] eqn:Hb; [done|].
    assert (∃ s0, browser (nav w ++ [f]) = inr s0
                  ∧ acc' = (files ∪ file_ids s0, docs ∪ doc_ids s0)
                  ∧ nav w1 = nav w ++ [f]
                  ∧ fs w1 = fs w ∧ reqs w1 = reqs w ∧ calls w1 = calls w)
      as (s0 & Eb & -> & Hn1 & Hf1 & Hr1 & Hc1).
    { subst body. cbn beta iota in Hb.
      unfold mbind, M_bind, bind, print, driver_get, page_source in Hb.
      simpl in Hb.
      destruct (browser (nav w ++ [f])) as [e|s0] eqn:Eb; simpl in Hb; [done|].
      rewrite Eb in Hb. unfold mret, M_ret, ret in Hb. injection Hb as <- <-.
      by exists s0. }
    intros Hrest.
    apply IH in Hrest as (subs & Hsrc & Hnav & -> & Hfs & Hrq & Hc).
    cbn [fst snd] in *. exists (s0 :: subs). cbn [folder_sources].
    rewrite Eb, fmap_cons, <- Hn1, Hsrc.
    split_and!; [done| |f_equal|congruence..].
    + by rewrite Hnav, Hn1, <- app_assoc.
    + rewrite fmap_cons. cbn. by rewrite (assoc_L (∪)).
    + rewrite fmap_cons. cbn. by rewrite (assoc_L (∪)).
Qed.
End CrawlFacts.

Lemma crawl_url_run (browser : list string → exn + string)
    (order : gset string → list string) (urlparse_path : string → string)
    (base_dir url : string) (w w' : World)
    (outdir : string) (files docs : gset string) :
  crawl_url browser order urlparse_path base_dir url w
    = (inr (outdir, files, docs), w') →
  ∃ src subs,
    browser (nav w ++ [url]) = inr src
    ∧ folder_sources browser (nav w ++ [url]) (order (folder_urls src))
      = inr <$> subs
    ∧ nav w' = nav w ++ url :: order (folder_urls src)
    ∧ files = file_ids src ∪ ⋃ (file_ids <$> subs)
    ∧ docs = doc_ids src ∪ ⋃ (doc_ids <$> subs)
    ∧ outdir = path_join base_dir (slugify urlparse_path url)
    ∧ fs w' = fs w ∧ reqs w' = reqs w ∧ calls w' = calls w.
Proof.
  unfold crawl_url. unfold mbind at 1 2 3, M_bind at 1 2 3, bind at 1 2 3.
  unfold print at 1, driver_get at 1, page_source at 1. simpl.
  destruct (browser (nav w ++ [url])) as [e|src] eqn:Eb; simpl; [done|].
  rewrite Eb. unfold mbind at 1, M_bind at 1, bind at 1.
  match goal with
  | |- context [for_fold ?l ?acc ?body ?w0] =>
      destruct (for_fold l acc body w0) as [[e|[fl dc]] w1] eqn:Hloop; [done|]
  end.
  apply folder_loop_run in Hloop
    as (subs & Hsrc & Hnav & [= -> ->] & Hfs & Hrq & Hc).
  simpl in *. unfold mret, M_ret, ret. intros [= <- <- <- <-].
  exists src, subs. split_and!; try done.
  by rewrite Hnav, <- app_assoc.
Qed.

(** C6.  A crawl that completes has navigated to the page and then once to
    each folder URL found in the markup of the page, and to nothing else:
    the folder URLs in the markup of a folder are not followed.  The file
    and doc ids returned are the union of those of the page and of those of
    each folder. *)
Theorem folder_crawl_one_level
    (browser : list string → exn + string)
    (order : gset string → list string) (urlparse_path : string → string)
    (base_dir url : string) (w w' : World)
    (outdir : string) (files docs : gset string) :
  (∀ X, order X ≡ₚ elements X) →
  crawl_url browser order urlparse_path base_dir url w
    = (inr (outdir, files, docs), w') →
  ∃ src subs,
    browser (nav w ++ [url]) = inr src
    ∧ nav w' = nav w ++ url :: order (folder_urls src)
    ∧ NoDup (order (folder_urls src))
    ∧ (∀ f, f ∈ order (folder_urls src) ↔ f ∈ folder_urls src)
    ∧ folder_sources browser (nav w ++ [url]) (order (folder_urls src))
      = inr <$> subs
    ∧ files = file_ids src ∪ ⋃ (file_ids <$> subs)
    ∧ docs = doc_ids src ∪ ⋃ (doc_ids <$> subs).
Proof.
  intros Hord Hrun.
  apply crawl_url_run in Hrun
    as (src & subs & Hb & Hsrc & Hnav & Hf & Hd & _).
  exists src, subs. split_and!; try done.
  - rewrite (Hord _). apply NoDup_elements.
  - intros f. by rewrite (Hord _), elem_of_elements.
Qed.

(** The theorem on a page with one folder, linked twice, that links to a
    folder of its own. *)
Lemma folder_crawl_one_level_witness :
  let w := mkWorld ∅ [] [] [] [] in
  let r := crawl_url browser0 elements path_of "/res"
             "https://sites.google.com/view/a" w in
  ∃ src subs,
    browser0 (nav w ++ ["https://sites.google.com/view/a"]) = inr src
    ∧ nav r.2 = nav w ++ "https://sites.google.com/view/a"
                         :: elements (folder_urls src)
    ∧ NoDup (elements (folder_urls src))
    ∧ (∀ f, f ∈ elements (folder_urls src) ↔ f ∈ folder_urls src)
    ∧ folder_sources browser0 (nav w ++ ["https://sites.google.com/view/a"])
        (elements (folder_urls src)) = inr <$> subs
    ∧ {["F1"; "F2"]} = file_ids src ∪ ⋃ (file_ids <$> subs)
    ∧ {["D1"]} = doc_ids src ∪ ⋃ (doc_ids <$> subs).
Proof.
  intros w r.
  apply (folder_crawl_one_level browser0 elements path_of "/res"
           "https://sites.google.com/view/a" w r.2 "/res/view_a"
           {["F1"; "F2"]} {["D1"]}).
  - intros X. reflexivity.
  - vm_compute. reflexivity.
Defined.

Example folder_crawl_navigations :
  nav (crawl_url browser0 elements path_of "/res"
         "https://sites.google.com/view/a" (mkWorld ∅ [] [] [] [])).2
  = ["https://sites.google.com/view/a";
     "https://drive.google.com/drive/folders/FA"].
Proof. reflexivity. Qed.

(** ** The dictionary [id_map] *)

Lemma dict_set_keys {V} (k : string) (v : V) (d : list (string * V)) :
  (dict_set k v d).*1 = if decide (k ∈ d.*1) then d.*1 else d.*1 ++ [k].
Proof.
  induction d as [|[k' v'] d IH]; cbn [dict_set].
  - rewrite decide_False; [done|]. by intros ?%elem_of_nil.
  - destruct (decide (k = k')) as [->|Hne]; cbn [fmap list_fmap fst].
    + rewrite decide_True; [done|]. apply elem_of_cons. by left.
    + fold (fmap (M := list) (@fst string V)). rewrite IH.
      destruct (decide (k ∈ d.*1)) as [Hin|Hnin].
      * rewrite decide_True; [done|]. apply elem_of_cons. by right.
      * rewrite decide_False; [done|]. by intros [?|?]%elem_of_cons.
Qed.

Lemma dict_set_NoDup {V} (k : string) (v : V) (d : list (string * V)) :
  NoDup d.*1 → NoDup (dict_set k v d).*1.
Proof.
  intros Hnd. rewrite dict_set_keys. case_decide; [done|].
  apply NoDup_app. split_and!; [done| |apply NoDup_singleton].
  intros x Hx ->%list_elem_of_singleton. done.
Qed.

Lemma dict_set_elem {V} (k k' : string) (v : V) (d : list (string * V)) :
  k' ∈ (dict_set k v d).*1 ↔ k' = k ∨ k' ∈ d.*1.
Proof.
  rewrite dict_set_keys. case_decide.
  - split; [by right|]. by intros [->|].
  - rewrite elem_of_app, list_elem_of_singleton. tauto.
Qed.

Lemma dict_get_set {V} (k : string) (v : V) (d : list (string * V)) :
  dict_get k (dict_set k v d) = Some v.
Proof.
  induction d as [|[k' v'] d IH]; cbn.
  - by rewrite decide_True.
  - destruct (decide (k = k')) as [->|Hne]; cbn.
    + by rewrite decide_True.
    + by rewrite decide_False.
Qed.

Lemma dict_get_set_ne {V} (k k' : string) (v : V) (d : list (string * V)) :
  k' ≠ k → dict_get k' (dict_set k v d) = dict_get k' d.
Proof.
  intros Hne. induction d as [|[k0 v0] d IH]; cbn.
  - by rewrite decide_False.
  - destruct (decide (k = k0)) as [->|Hne0]; cbn.
    + by rewrite !decide_False.
    + destruct (decide (k' = k0)); [done|]. apply IH.
Qed.

(** A key of a dictionary has one entry, the one [dict_get] returns. *)
Lemma dict_get_split {V} (k : string) (v : V) (d : list (string * V)) :
  NoDup d.*1 →
  dict_get k d = Some v →
  ∃ l1 l2, d = l1 ++ (k, v) :: l2 ∧ k ∉ l1.*1 ∧ k ∉ l2.*1.
Proof.
  induction d as [|[k0 v0] d IH]; cbn; [done|].
  intros [Hk0 Hnd]%NoDup_cons. destruct (decide (k = k0)) as [->|Hne].
  - intros [= ->]. exists [], d. split_and!; [done| |done].
    cbn. by intros ?%elem_of_nil.
  - intros Hget. destruct (IH Hnd Hget) as (l1 & l2 & -> & H1 & H2).
    exists ((k0, v0) :: l1), l2. split_and!; [done| |done].
    cbn. by intros [?|?]%elem_of_cons.
Qed.

Lemma for_fold_app {A S} (l1 l2 : list A) (acc : S) (body : S → A → M S)
    (w : World) :
  for_fold (l1 ++ l2) acc body w
  = match for_fold l1 acc body w with
    | (inl e, w1) => (inl e, w1)
    | (inr acc1, w1) => for_fold l2 acc1 body w1
    end.
Proof.
  revert acc w. induction l1 as [|x l1 IH]; intros acc w; [done|].
  cbn [app for_fold]. unfold mbind, M_bind, bind.
  destruct (body acc x w) as [[e|acc'] w1]; [done|]. apply IH.
Qed.

(** ** The crawl of all the URLs *)

Section CrawlPhaseFacts.
Variable browser : list string → exn + string.
Variable order : gset string → list string.
Variable urlparse_path : string → string.
Variable base_dir : string.

Lemma crawl_fold_run (urls : list string)
    (d0 id_map : list (string * (string * gset string * gset string)))
    (w w' : World) :
  for_fold urls d0
    (λ id_map url,
       entry ← crawl_url browser order urlparse_path base_dir url;
       mret (dict_set url entry id_map)) w
  = (inr id_map, w') →
  (∃ visits, nav w' = nav w ++ concat visits
             ∧ Forall2 (λ url v, ∃ fl, v = url :: fl) urls visits)
  ∧ (NoDup d0.*1 → NoDup id_map.*1)
  ∧ (∀ k, k ∈ id_map.*1 ↔ k ∈ urls ∨ k ∈ d0.*1)
  ∧ (∀ k, k ∉ urls → dict_get k id_map = dict_get k d0)
  ∧ fs w' = fs w ∧ reqs w' = reqs w ∧ calls w' = calls w.
Proof.
  set (step := λ id_map url, _).
  revert d0 w. induction urls as [|url urls IH]; intros d0 w.
  - cbn. intros H. cbv [ret] in H. injection H as <- <-.
    split_and!; try done.
    + exists []. cbn. by rewrite app_nil_r.
    + intros k. rewrite elem_of_nil. tauto.
  - cbn [for_fold]. unfold mbind at 1, M_bind at 1, bind at 1.
    destruct (step d0 url w) as [[e|d1] w1] eqn:Hstep; [done|].
    assert (∃ entry fl, d1 = dict_set url entry d0
                        ∧ nav w1 = nav w ++ url :: fl
                        ∧ fs w1 = fs w ∧ reqs w1 = reqs w ∧ calls w1 = calls w)
      as (entry & fl & -> & Hn1 & Hf1 & Hr1 & Hc1).
    { subst step. cbn beta in Hstep. unfold mbind, M_bind, bind in Hstep.
      destruct (crawl_url _ _ _ _ url w) as [[e|[[od fi] dc]] w2] eqn:Hc;
        [done|].
      unfold mret, M_ret, ret in Hstep. injection Hstep as <- <-.
      apply crawl_url_run in Hc as (src & subs & _ & _ & Hnav & _ & _ & _ & ?).
      by eexists _, _. }
    intros Hrest.
    apply IH in Hrest as ((visits & Hnav & Hvis) & Hnd & Hkeys & Hget & Hfs & Hrq & Hc).
    split_and!; try congruence.
    + exists ((url :: fl) :: visits). split.
      * rewrite Hnav, Hn1. cbn. by rewrite <- app_assoc.
      * constructor; [by exists fl|done].
    + intros H0. by apply Hnd, dict_set_NoDup.
    + intros k. rewrite Hkeys, dict_set_elem, elem_of_cons. tauto.
    + intros k [Hne Hk]%not_elem_of_cons. rewrite Hget by done.
      by apply dict_get_set_ne.
Qed.
End CrawlPhaseFacts.

(** The navigations and the results of the crawl, occurrence by
    occurrence. *)
Lemma crawl_fold_blocks (browser : list string → exn + string)
    (order : gset string → list string) (urlparse_path : string → string)
    (base_dir : string) (urls : list string)
    (d0 id_map : list (string * (string * gset string * gset string)))
    (w w' : World) :
  for_fold urls d0
    (λ id_map url,
       entry ← crawl_url browser order urlparse_path base_dir url;
       mret (dict_set url entry id_map)) w
  = (inr id_map, w') →
  ∃ bs,
    crawl_blocks browser order urlparse_path base_dir (nav w) urls bs
    ∧ nav w' = nav w ++ concat bs.*1
    ∧ ∀ pre url post,
        urls = pre ++ url :: post → url ∉ post →
        ∃ v entry, bs !! length pre = Some (v, entry)
                   ∧ dict_get url id_map = Some entry.
Proof.
  set (step := λ id_map url, _).
  revert d0 w. induction urls as [|u urls IH]; intros d0 w.
  - cbn. intros H. cbv [ret] in H. injection H as <- <-.
    exists []. split_and!; [done|by rewrite app_nil_r|].
    intros [|? ?] ? ? [=].
  - cbn [for_fold]. unfold mbind at 1, M_bind at 1, bind at 1.
    destruct (step d0 u w) as [[e|d1] w1] eqn:Hstep; [done|].
    assert (∃ entry, d1 = dict_set u entry d0
                     ∧ crawl_url browser order urlparse_path base_dir u w
                       = (inr entry, w1)) as (entry & -> & Hc).
    { subst step. cbn beta in Hstep. unfold mbind, M_bind, bind in Hstep.
      destruct (crawl_url _ _ _ _ u w) as [[e|en] w2]; [done|].
      unfold mret, M_ret, ret in Hstep. injection Hstep as <- <-.
      by exists en. }
    intros Hrest.
    destruct (IH _ _ Hrest) as (bs & Hblocks & Hnav & Hlast).
    pose proof (crawl_fold_run _ _ _ _ _ _ _ _ _ Hrest) as (_ & _ & _ & Hget & _).
    destruct entry as [[outdir files] docs].
    apply crawl_url_run in Hc
      as (src & subs & Hsrc & Hsubs & Hn1 & Hfiles & Hdocs & Hout & _).
    exists ((u :: order (folder_urls src), (outdir, files, docs)) :: bs).
    split_and!.
    + cbn [crawl_blocks]. split.
      * exists src, subs. split_and!; [done|done|done|by subst].
      * by rewrite <- Hn1.
    + rewrite Hnav, Hn1. cbn [fmap list_fmap concat fst].
      by rewrite <- app_assoc.
    + intros [|p pre] url post.
      * cbn. intros [= <- <-] Hpost. eexists _, _. split; [done|].
        rewrite (Hget u Hpost). apply dict_get_set.
      * cbn. intros [= <- ->] Hpost. by apply (Hlast pre url post).
Qed.

(** C10.  The crawl makes one block of navigations per occurrence of a URL
    on the command line, in order: the URL, then each folder of the page
    shown then, once, and nothing else; and it extracts the ids at each
    occurrence from the pages shown then.  [id_map] has one entry per
    distinct URL, holding what the last occurrence of the URL gave, and the
    download phase runs the attempts of that entry once. *)
Theorem repeated_url_crawled_again_downloaded_once
    (server : list Request → Request → exn + Response)
    (browser : list string → exn + string)
    (order : gset string → list string) (urlparse_path : string → string)
    (base_dir : string) (urls : list string)
    (id_map : list (string * (string * gset string * gset string)))
    (w w' : World) :
  (∀ X, order X ≡ₚ elements X) →
  crawl_phase browser order urlparse_path base_dir urls w = (inr id_map, w') →
  ∃ bs,
    crawl_blocks browser order urlparse_path base_dir (nav w) urls bs
    ∧ nav w' = nav w ++ concat bs.*1
    ∧ NoDup id_map.*1
    ∧ (∀ k, k ∈ id_map.*1 ↔ k ∈ urls)
    ∧ (∀ pre url post,
         urls = pre ++ url :: post → url ∉ post →
         ∃ v entry l1 l2,
           bs !! length pre = Some (v, entry)
           ∧ id_map = l1 ++ (url, entry) :: l2
           ∧ url ∉ l1.*1 ∧ url ∉ l2.*1
           ∧ NoDup (entry_calls order (url, entry))
           ∧ ∀ w0, ∃ w3,
               download_phase server order id_map w0 = (inr tt, w3)
               ∧ calls w3 = calls w0 ++ (l1 ≫= entry_calls order)
                            ++ entry_calls order (url, entry)
                            ++ (l2 ≫= entry_calls order)).
Proof.
  intros Hord Hrun. unfold crawl_phase in *.
  pose proof (crawl_fold_run _ _ _ _ _ _ _ _ _ Hrun)
    as (_ & Hnd & Hkeys & _).
  destruct (crawl_fold_blocks _ _ _ _ _ _ _ _ _ Hrun)
    as (bs & Hblocks & Hnav & Hlast).
  exists bs. split_and!; [done|done|apply Hnd; constructor| |].
  - intros k. rewrite Hkeys. cbn. rewrite elem_of_nil. tauto.
  - intros pre url post Hurls Hpost.
    destruct (Hlast pre url post Hurls Hpost) as (v & entry & Hbs & Hget).
    destruct (dict_get_split url entry id_map) as (l1 & l2 & -> & H1 & H2);
      [apply Hnd; constructor|done|].
    exists v, entry, l1, l2. split_and!; try done.
    + destruct entry as [[od fi] dc]. by apply entry_calls_exact.
    + intros w0.
      destruct (steps_download_phase server order
                  (l1 ++ (url, entry) :: l2) w0) as (w3 & E & Hcalls & _).
      exists w3. split; [done|]. by rewrite Hcalls, bind_app, bind_cons.
Qed.

(** The theorem on the same URL given twice: the page and its folder are
    visited twice, and the attempts of the one entry are made once. *)
Lemma repeated_url_witness :
  let a := "https://sites.google.com/view/a" in
  let fa := "https://drive.google.com/drive/folders/FA" in
  let w := mkWorld ∅ [] [] [] [] in
  let w' := (crawl_phase browser0 elements path_of "/res" [a; a] w).2 in
  nav w' = [a; fa; a; fa]
  ∧ ∃ bs,
      crawl_blocks browser0 elements path_of "/res" (nav w) [a; a] bs
      ∧ nav w' = nav w ++ concat bs.*1
      ∧ ∃ v entry l1 l2,
          bs !! 1 = Some (v, entry)
          ∧ id_map0 = l1 ++ (a, entry) :: l2
          ∧ ∀ w0, ∃ w3,
              download_phase srv_one_404 elements id_map0 w0 = (inr tt, w3)
              ∧ calls w3 = calls w0 ++ (l1 ≫= entry_calls elements)
                           ++ entry_calls elements (a, entry)
                           ++ (l2 ≫= entry_calls elements).
Proof.
  intros a fa w w'. split; [vm_compute; reflexivity|].
  assert (crawl_phase browser0 elements path_of "/res" [a; a] w
          = (inr id_map0, w')) as Hrun by (vm_compute; reflexivity).
  destruct (repeated_url_crawled_again_downloaded_once srv_one_404 browser0
              elements path_of "/res" [a; a] id_map0 w w'
              (λ X, reflexivity _) Hrun)
    as (bs & Hblocks & Hnav & _ & _ & Hlast).
  exists bs. split_and!; [exact Hblocks|exact Hnav|].
  destruct (Hlast [a] a [] eq_refl)
    as (v & entry & l1 & l2 & Hbs & Hmap & _ & _ & _ & Hdown).
  - by intros ?%elem_of_nil.
  - exists v, entry, l1, l2. split_and!; [exact Hbs|exact Hmap|exact Hdown].
Defined.

Example repeated_url_run :
  let r := main srv_one_404 browser0 elements path_of "/res"
             ["https://sites.google.com/view/a";
              "https://sites.google.com/view/a"] (mkWorld ∅ [] [] [] []) in
  nav r.2 = ["https://accounts.google.com/signin";
             "https://sites.google.com/view/a";
             "https://drive.google.com/drive/folders/FA";
             "https://sites.google.com/view/a";
             "https://drive.google.com/drive/folders/FA"]
  ∧ calls r.2 = [CallDrive "F1" "/res/view_a"; CallDrive "F2" "/res/view_a";
                 CallDoc "D1" "/res/view_a" "pdf";
                 CallDoc "D1" "/res/view_a" "docx"]
  ∧ out r.2 = [Processing "https://sites.google.com/view/a" "/res/view_a";
               CrawlingFolder "https://drive.google.com/drive/folders/FA";
               Processing "https://sites.google.com/view/a" "/res/view_a";
               CrawlingFolder "https://drive.google.com/drive/folders/FA";
               Downloading "https://sites.google.com/view/a";
               SavedDrive "F1.pdf"; FailedDrive "F2" (HTTPError 404);
               SavedDoc "D1_export.pdf"; SavedDoc "D1_export.docx";
               AllDone "/res"].
Proof. cbn zeta. split_and!; vm_compute; reflexivity. Qed.

(** ** Replaying writes *)

Lemma fs_store_err (fs fs' : gmap string node) (outdir path body : string)
    (e : exn) :
  fs_store fs outdir path body = (Some e, fs') → ∃ k p, e = OSError k p.
Proof.
  unfold fs_store, fs_makedirs, fs_open_wb.
  destruct (Text.is_empty outdir).
  { intros [= <- <-]. eauto. }
  assert (∀ qs f e0 f', mkdir_chain f qs = (Some e0, f') → ∃ k p, e0 = OSError k p)
    as Hchain.
  { induction qs as [|q qs IH]; intros f e0 f'; cbn; [done|].
    unfold mkdir_exist_ok. destruct (f !! q) as [[|d]|]; eauto.
    intros [= <- <-]. destruct (head qs); eauto. }
  destruct (mkdir_chain fs (ancestors outdir)) as [[e0|] fs1] eqn:E.
  { intros [= <- <-]. by eapply Hchain. }
  repeat case_match; intros [= <- <-]; simplify_eq; eauto.
Qed.

(** The entries that are there stay, up to the bytes of the file written. *)
Lemma fs_store_kinds (fs fs' : gmap string node) (outdir path body : string) :
  fs_store fs outdir path body = (None, fs') →
  (∀ k, fs !! k = Some Dir → fs' !! k = Some Dir)
  ∧ (∀ k c, fs !! k = Some (File c) → ∃ c', fs' !! k = Some (File c'))
  ∧ (∀ k n, k ≠ path → fs !! k = Some n → fs' !! k = Some n)
  ∧ fs' !! path = Some (File body).
Proof.
  intros (fs1 & Hmk & Hp & _ & ->)%fs_store_ok.
  assert (∀ k n, fs !! k = Some n → fs1 !! k = Some n) as Hmono.
  { intros k n Hk. replace fs1 with (fs_makedirs fs outdir).2 by by rewrite Hmk.
    by apply fs_makedirs_mono. }
  split_and!.
  - intros k Hk. apply Hmono in Hk.
    rewrite lookup_insert_ne; [done|]. congruence.
  - intros k c Hk. apply Hmono in Hk.
    destruct (decide (path = k)) as [->|Hne].
    + rewrite lookup_insert_eq. eauto.
    + rewrite lookup_insert_ne by done. eauto.
  - intros k n Hne Hk. rewrite lookup_insert_ne by done. by apply Hmono.
  - apply lookup_insert_eq.
Qed.

Lemma replay_kinds (ps : list write_plan) (fs fs' : gmap string node) :
  replay ps fs = Some fs' →
  (∀ k, fs !! k = Some Dir → fs' !! k = Some Dir)
  ∧ (∀ k c, fs !! k = Some (File c) → ∃ c', fs' !! k = Some (File c'))
  ∧ (∀ k n, k ∉ plan_paths ps → fs !! k = Some n → fs' !! k = Some n).
Proof.
  revert fs. induction ps as [|[[[o p] b]|] ps IH]; intros fs; cbn [replay].
  - intros [= <-]. eauto.
  - destruct (fs_store fs o p b) as [[e|] fs1] eqn:Hst; [done|].
    intros Hrest. apply IH in Hrest as (Hd & Hf & Hfr).
    apply fs_store_kinds in Hst as (Hd1 & Hf1 & Hfr1 & _).
    split_and!.
    + eauto.
    + intros k c Hk. destruct (Hf1 k c Hk) as [c1 Hc1]. eauto.
    + intros k n Hk Hn. cbn in Hk. apply not_elem_of_cons in Hk as [Hne Hk].
      eauto.
  - intros Hrest. apply IH in Hrest as (Hd & Hf & Hfr). split_and!; eauto.
Qed.

Lemma agree_except_refl (P : list string) (s : gmap string node) :
  agree_except P s s.
Proof. intros k. by left. Qed.

Lemma agree_except_kind (P : list string) (t s : gmap string node) (k : string) :
  agree_except P t s →
  (s !! k = Some Dir → t !! k = Some Dir)
  ∧ (∀ c, s !! k = Some (File c) → ∃ c', t !! k = Some (File c')).
Proof.
  intros H. destruct (H k) as [->|(_ & c1 & c2 & -> & ->)]; split; eauto; done.
Qed.

Lemma parent_ok_mono (s t : gmap string node) (p : string) :
  (∀ k, s !! k = Some Dir → t !! k = Some Dir) →
  parent_ok s p = true → parent_ok t p = true.
Proof.
  intros Hd. unfold parent_ok. intros [->|H]%orb_true_iff; [done|].
  apply orb_true_iff. right.
  destruct (s !! dirname p) as [[|d]|] eqn:E; [|done..].
  by rewrite (Hd _ E).
Qed.

(** A write that went through goes through again on a filesystem that has
    the directories and files the write left, without making a directory. *)
Lemma fs_store_again (s s1 t : gmap string node) (o p b : string) :
  fs_store s o p b = (None, s1) →
  (∀ k, s1 !! k = Some Dir → t !! k = Some Dir) →
  (∀ k c, s1 !! k = Some (File c) → ∃ c', t !! k = Some (File c')) →
  fs_store t o p b = (None, <[p := File b]> t).
Proof.
  intros (sm & Hmk & Hp & Hpar & ->)%fs_store_ok Hd Hf.
  assert (∀ k, sm !! k = Some Dir → t !! k = Some Dir) as Hd'.
  { intros k Hk. apply Hd. rewrite lookup_insert_ne; [done|]. congruence. }
  unfold fs_store, fs_makedirs in *.
  destruct (Text.is_empty o); [done|].
  rewrite mkdir_chain_fixed.
  2:{ intros q Hq. apply Hd'. by eapply mkdir_chain_ok. }
  unfold fs_open_wb. destruct (Hf p b) as [c' Hc']; [apply lookup_insert_eq|].
  rewrite Hc'. by rewrite (parent_ok_mono sm t p Hd' Hpar).
Qed.

Lemma replay_on_agreeing (ps : list write_plan) (s s' : gmap string node) :
  replay ps s = Some s' →
  ∀ t, agree_except (plan_paths ps) t s' → replay ps t = Some s'.
Proof.
  revert s. induction ps as [|[[[o p] b]|] ps IH]; intros s; cbn [replay].
  - intros [= <-] t Ht. f_equal. apply map_eq. intros k.
    destruct (Ht k) as [?|(Hk & _)]; [done|]. by apply elem_of_nil in Hk.
  - destruct (fs_store s o p b) as [[e|] s1] eqn:Hst; [done|].
    intros Hrest t Ht.
    pose proof (replay_kinds _ _ _ Hrest) as (Hd & Hf & Hfr).
    erewrite (fs_store_again s s1 t); [|done| |].
    + apply (IH s1 Hrest). intros k. destruct (decide (k = p)) as [->|Hne].
      * rewrite lookup_insert_eq.
        apply fs_store_kinds in Hst as (_ & _ & _ & Hp).
        destruct (decide (p ∈ plan_paths ps)) as [Hin|Hnin].
        -- right. split; [done|]. destruct (Hf p b Hp) as [c' Hc']. eauto.
        -- left. symmetry. by apply Hfr.
      * rewrite lookup_insert_ne by done.
        destruct (Ht k) as [?|(Hk & ?)]; [by left|right].
        split; [|done]. cbn in Hk. by apply elem_of_cons in Hk as [?|?].
    + intros k Hk. by apply (agree_except_kind _ _ _ k Ht), Hd.
    + intros k c Hk. destruct (Hf k c Hk) as [c1 Hc1].
      by apply (agree_except_kind _ _ _ k Ht) in Hc1.
  - intros Hrest t Ht. by apply (IH s).
Qed.

Lemma replay_idempotent (ps : list write_plan) (s s' : gmap string node) :
  replay ps s = Some s' → replay ps s' = Some s'.
Proof. intros H. eapply replay_on_agreeing; [done|apply agree_except_refl]. Qed.

Lemma replay_run_plans (ps : list write_plan) (s s' : gmap string node) :
  replay ps s = Some s' → run_plans ps s = s'.
Proof.
  revert s. induction ps as [|[[[o p] b]|] ps IH]; intros s; cbn.
  - by intros [= <-].
  - destruct (fs_store s o p b) as [[e|] s1]; [done|]. apply IH.
  - apply IH.
Qed.

(** ** The download phase as a list of writes *)

Lemma run_plans_app (ps qs : list write_plan) (s : gmap string node) :
  run_plans (ps ++ qs) s = run_plans qs (run_plans ps s).
Proof.
  revert s. induction ps as [|[[[o p] b]|] ps IH]; intros s; cbn; auto.
Qed.

Lemma replay_app (ps qs : list write_plan) (s : gmap string node) :
  replay (ps ++ qs) s = replay ps s ≫= replay qs.
Proof.
  revert s. induction ps as [|[[[o p] b]|] ps IH]; intros s; cbn; auto.
  by destruct (fs_store s o p b) as [[e|] s1].
Qed.

Section ActsFacts.
Variable server : list Request → Request → exn + Response.
Hypothesis server_stateless : stateless server.

Lemma exchange_stateless (h : list Request) (url : string)
    (params : list (string * string)) :
  exchange server h url params = exchange server [] url params.
Proof.
  unfold exchange. rewrite (server_stateless h [] (mkRequest url params)).
  destruct (server [] (mkRequest url params)) as [e|r1]; [done|].
  destruct (truthy (get_confirm_token r1)); [|done].
  f_equal. apply server_stateless.
Qed.

Lemma acts_print (m : msg) :
  is_os_failure m = false → acts server (print m) [].
Proof.
  intros Hm w. eexists _, [m]. split_and!; [reflexivity|done..].
Qed.

Lemma acts_bind (m1 m2 : M unit) (c1 c2 : list call) :
  acts server m1 c1 → acts server m2 c2 → acts server (m1;; m2) (c1 ++ c2).
Proof.
  intros H1 H2 w. destruct (H1 w) as (w1 & ms1 & E1 & Ho1 & Hf1 & Hr1).
  destruct (H2 w1) as (w2 & ms2 & E2 & Ho2 & Hf2 & Hr2).
  exists w2, (ms1 ++ ms2). unfold mbind, M_bind, bind. rewrite E1, E2.
  rewrite fmap_app, run_plans_app, replay_app.
  split_and!; [done| | |].
  - by rewrite Ho2, Ho1, app_assoc.
  - by rewrite Hf2, Hf1.
  - intros [Ha Hb]%Forall_app. rewrite (Hr1 Ha). cbn. by apply Hr2.
Qed.

Lemma acts_for_each {A} (l : list A) (body : A → M unit) (f : A → list call) :
  (∀ x, acts server (body x) (f x)) →
  acts server (for_each l body) (l ≫= f).
Proof.
  intros Hbody. induction l as [|x l IH].
  - intros w. exists w, []. cbn. rewrite app_nil_r. done.
  - cbn [for_each]. rewrite bind_cons. by apply acts_bind.
Qed.

Lemma acts_try (m : M unit) (c : call) (url : string)
    (params : list (string * string)) (outdir : string)
    (name : Response → string) (saved : string → msg) (failed : exn → msg) :
  routine_shape m server c url params outdir name saved →
  call_request c = (url, params, outdir, name) →
  (∀ s, is_os_failure (saved s) = false) →
  (∀ e, is_os_failure (failed e) = false → ∀ k p, e ≠ OSError k p) →
  acts server (try_except m (λ e, print (failed e))) [c].
Proof.
  intros Hshape Hreq Hsaved Hfailed w. unfold try_except. rewrite Hshape.
  cbn zeta. cbn [fmap list_fmap]. unfold call_plan. rewrite Hreq.
  rewrite exchange_stateless.
  destruct (checked (exchange server [] url params).2) as [e|r].
  - eexists _, [failed e]. split_and!; [reflexivity|done..].
  - cbn [run_plans replay].
    destruct (fs_store (fs w) outdir (path_join outdir (name r)) (content r))
      as [[e|] fs'] eqn:Hst.
    + eexists _, [failed e]. split_and!; [reflexivity|done..|].
      intros Hok%Forall_inv. apply fs_store_err in Hst as (k & p & ->).
      by destruct (Hfailed _ Hok k p).
    + eexists _, [saved (name r)]. split_and!; [reflexivity|done..].
Qed.

Lemma acts_try_drive (fid outdir : string) :
  acts server (try_except (download_drive_file server fid outdir)
                          (λ e, print (FailedDrive fid e)))
       [CallDrive fid outdir].
Proof.
  eapply (acts_try _ _ _ _ _ _ SavedDrive (FailedDrive fid)).
  - apply drive_shape.
  - done.
  - done.
  - intros e He k p ->. done.
Qed.

Lemma acts_try_doc (did outdir fmt : string) :
  acts server (try_except (download_doc_export server did outdir fmt)
                          (λ e, print (FailedDoc did fmt e)))
       [CallDoc did outdir fmt].
Proof.
  eapply (acts_try _ _ _ _ _ _ SavedDoc (FailedDoc did fmt)).
  - apply doc_shape.
  - done.
  - done.
  - intros e He k p ->. done.
Qed.

Lemma acts_download_phase (order : gset string → list string)
    (id_map : list (string * (string * gset string * gset string))) :
  acts server (download_phase server order id_map)
       (id_map ≫= entry_calls order).
Proof.
  apply acts_for_each. intros [url [[outdir files] docs]].
  unfold download_entry, entry_calls.
  apply (acts_bind _ _ []); [by apply acts_print|].
  apply acts_bind.
  - replace ((λ fid, CallDrive fid outdir) <$> order files)
      with (order files ≫= λ fid, [CallDrive fid outdir]).
    + apply acts_for_each. intros fid. apply acts_try_drive.
    + induction (order files) as [|x l IH]; [done|].
      by rewrite bind_cons, fmap_cons, IH.
  - apply acts_for_each. intros did. cbn [for_each].
    apply (acts_bind _ _ [_] [_]); [apply acts_try_doc|].
    intros w. destruct (acts_try_doc did outdir "docx" w)
      as (w' & ms & E & ? & ? & ?).
    exists w', ms. unfold mbind, M_bind, bind. rewrite E. done.
Qed.
End ActsFacts.

(** ** Downloading again *)

Lemma shape_again (m : M unit)
    (server : list Request → Request → exn + Response)
    (c : call) (url : string) (params : list (string * string))
    (outdir : string) (name : Response → string) (saved : string → msg)
    (w w1 w2 : World) (res2 : exn + unit)
    (h1 h2 : list Request) (q1 q2 : Request) (r : Response) :
  routine_shape m server c url params outdir name saved →
  m w = (inr tt, w1) →
  m w1 = (res2, w2) →
  reqs w1 = h1 ++ [q1] → server h1 q1 = inr r →
  reqs w2 = h2 ++ [q2] → server h2 q2 = inr r →
  res2 = inr tt
  ∧ fs w2 = fs w1
  ∧ fs w2 !! path_join outdir (name r) = Some (File (content r)).
Proof.
  intros Hshape Hrun1 Hrun2 Hq1 Hs1 Hq2 Hs2.
  pose proof (shape_reqs _ _ _ _ _ _ _ _ w Hshape) as Hr1.
  pose proof (shape_reqs _ _ _ _ _ _ _ _ w1 Hshape) as Hr2.
  rewrite Hrun1 in Hr1. rewrite Hrun2 in Hr2. cbn [snd] in Hr1, Hr2.
  rewrite Hq1 in Hr1. symmetry in Hr1. apply exchange_final in Hr1.
  rewrite Hq2 in Hr2. symmetry in Hr2. apply exchange_final in Hr2.
  rewrite Hs1 in Hr1. rewrite Hs2 in Hr2.
  rewrite Hshape in Hrun1, Hrun2. cbn zeta in Hrun1, Hrun2.
  rewrite Hr1 in Hrun1. rewrite Hr2 in Hrun2. cbn [checked] in Hrun1, Hrun2.
  destruct (is_http_error r); [done|].
  destruct (fs_store (fs w) _ _ _) as [[e|] fs1] eqn:Hst; [done|].
  injection Hrun1 as <-. cbn [fs log_out with_fs log_reqs log_call] in *.
  pose proof (fs_store_kinds _ _ _ _ _ Hst) as (_ & _ & _ & Hp).
  rewrite (fs_store_again (fs w) fs1 fs1) in Hrun2 by eauto.
  rewrite insert_id in Hrun2 by done.
  injection Hrun2 as <- <-. done.
Qed.

(** ** The crawl run again *)

Section RerunFacts.
Variable browser : list string → exn + string.
Variable order : gset string → list string.
Variable urlparse_path : string → string.
Variable base_dir : string.
Hypothesis browser_same_pages : same_pages browser.

Lemma uniform_respects {A} (m : M A) : uniform browser m → respects browser m.
Proof. intros H w w' _. apply H. Qed.

Lemma respects_ret {A} (a : A) : respects browser (mret a : M A).
Proof. by intros w w' H. Qed.

Lemma respects_bind {A B} (m : M A) (k : A → M B) :
  respects browser m → (∀ a, respects browser (k a)) →
  respects browser (m ≫= k).
Proof.
  intros Hm Hk w w' Hw. unfold mbind, M_bind, bind.
  destruct (Hm w w' Hw) as [Hv Hal].
  destruct (m w) as [[e|a] w1], (m w') as [[e'|a'] w1']; cbn in Hv, Hal;
    simplify_eq; [done|]. by apply Hk.
Qed.

Lemma uniform_bind {A B} (m : M A) (k : A → M B) :
  uniform browser m → (∀ a, respects browser (k a)) →
  uniform browser (m ≫= k).
Proof.
  intros Hm Hk w w'. unfold mbind, M_bind, bind.
  destruct (Hm w w') as [Hv Hal].
  destruct (m w) as [[e|a] w1], (m w') as [[e'|a'] w1']; cbn in Hv, Hal;
    simplify_eq; [done|]. by apply Hk.
Qed.

Lemma uniform_after_print {A} (x : msg) (k : M A) :
  uniform browser k → uniform browser (print x;; k).
Proof. intros Hk w w'. apply Hk. Qed.

Lemma respects_print (x : msg) : respects browser (print x).
Proof. by intros w w' H. Qed.

Lemma uniform_driver_get (url : string) : uniform browser (driver_get browser url).
Proof.
  intros w w'. unfold driver_get, alike.
  rewrite (browser_same_pages (nav w) (nav w') url).
  destruct (browser (nav w' ++ [url])) as [e|src] eqn:E; cbn;
    by rewrite (browser_same_pages (nav w) (nav w') url).
Qed.

Lemma respects_page_source : respects browser (page_source browser).
Proof.
  intros w w' H. unfold page_source. rewrite (H : browser _ = browser _).
  by destruct (browser (nav w')).
Qed.

Lemma respects_for_fold {A S} (l : list A) (acc : S) (body : S → A → M S) :
  (∀ s x, respects browser (body s x)) →
  respects browser (for_fold l acc body).
Proof.
  intros Hb. revert acc. induction l as [|x l IH]; intros acc.
  - apply respects_ret.
  - cbn [for_fold]. by apply respects_bind.
Qed.

Lemma uniform_crawl_url (url : string) :
  uniform browser (crawl_url browser order urlparse_path base_dir url).
Proof.
  unfold crawl_url. apply uniform_after_print.
  apply uniform_bind; [apply uniform_driver_get|]. intros _.
  apply respects_bind; [apply respects_page_source|]. intros src.
  apply respects_bind; [|intros [fl dc]; apply respects_ret].
  apply respects_for_fold. intros [fl dc] fldr.
  apply respects_bind; [apply respects_print|]. intros _.
  apply respects_bind;
    [apply uniform_respects, uniform_driver_get|]. intros _.
  apply respects_bind; [apply respects_page_source|]. intros sub.
  apply respects_ret.
Qed.

(** What the crawl returns does not depend on the world it starts in. *)
Lemma crawl_phase_value (urls : list string) (w w' : World) :
  (crawl_phase browser order urlparse_path base_dir urls w).1
  = (crawl_phase browser order urlparse_path base_dir urls w').1.
Proof.
  unfold crawl_phase. generalize (@nil (string * (string * gset string * gset string))).
  intros d0. destruct urls as [|u urls]; [done|].
  cbn [for_fold].
  refine (proj1 (uniform_bind _ _ _ _ w w')).
  - apply uniform_bind; [apply uniform_crawl_url|].
    intros entry. apply respects_ret.
  - intros d1. apply respects_for_fold. intros d url.
    apply uniform_respects, uniform_bind; [apply uniform_crawl_url|].
    intros entry. apply respects_ret.
Qed.

(** The crawl stage, step by step. *)
Lemma crawl_stage_run (urls : list string) (w : World) :
  crawl_stage browser order urlparse_path base_dir urls w
  = match fs_makedirs (fs w) base_dir with
    | (Some e, fs1) => (inl e, with_fs w fs1)
    | (None, fs1) =>
        let w0 := mkWorld fs1 (nav w ++ ["https://accounts.google.com/signin"])
                    (reqs w) (calls w) (out w) in
        match browser (nav w ++ ["https://accounts.google.com/signin"]) with
        | inl e => (inl e, w0)
        | inr _ => crawl_phase browser order urlparse_path base_dir urls w0
        end
    end.
Proof.
  unfold crawl_stage, mbind, M_bind, bind, makedirs.
  destruct (fs_makedirs (fs w) base_dir) as [[e|] fs1]; [done|].
  unfold driver_get at 1. cbn [nav fs reqs calls out with_fs].
  by destruct (browser _).
Qed.
End RerunFacts.

(** The directories stay through a download phase all of whose writes
    succeed, and a directory that is there is not made again. *)
Lemma fs_makedirs_there (fs fs1 fs2 : gmap string node) (p : string) :
  fs_makedirs fs p = (None, fs1) →
  (∀ k, fs1 !! k = Some Dir → fs2 !! k = Some Dir) →
  fs_makedirs fs2 p = (None, fs2).
Proof.
  unfold fs_makedirs. destruct (Text.is_empty p); [done|].
  intros Hmk Hdirs. apply mkdir_chain_fixed.
  intros q Hq. apply Hdirs. by eapply mkdir_chain_ok.
Qed.

(** The whole pipeline run again. *)
Lemma main_again (server : list Request → Request → exn + Response)
    (browser : list string → exn + string)
    (order : gset string → list string) (urlparse_path : string → string)
    (base_dir : string) (urls : list string) (w w1 : World) :
  stateless server →
  same_pages browser →
  main server browser order urlparse_path base_dir urls w = (inr tt, w1) →
  Forall (λ m, is_os_failure m = false) (out w1) →
  ∃ w2, main server browser order urlparse_path base_dir urls w1 = (inr tt, w2)
        ∧ fs w2 = fs w1.
Proof.
  intros Hst Hpages Hmain Hok.
  rewrite main_split in Hmain.
  destruct (crawl_stage browser order urlparse_path base_dir urls w)
    as [[e|id_map] wc] eqn:Hcrawl; [done|].
  rewrite crawl_stage_run in Hcrawl.
  destruct (fs_makedirs (fs w) base_dir) as [[e|] fs1] eqn:Hmk; [done|].
  cbn zeta in Hcrawl.
  destruct (browser (nav w ++ ["https://accounts.google.com/signin"]))
    as [e|s] eqn:Hsign; [done|].
  pose proof Hcrawl as Hphase. unfold crawl_phase in Hcrawl.
  apply crawl_fold_run in Hcrawl as (_ & _ & _ & _ & Hfsc & _).
  cbn [fs] in Hfsc.
  destruct (acts_download_phase server Hst order id_map wc)
    as (wd & ms & Hdl & Hout & _ & Hreplay).
  unfold mbind, M_bind, bind in Hmain. rewrite Hdl in Hmain.
  injection Hmain as <-. cbn [out fs log_out] in *.
  rewrite Hout in Hok.
  apply Forall_app in Hok as [Hok _]. apply Forall_app in Hok as [_ Hok].
  specialize (Hreplay Hok).
  pose proof (replay_kinds _ _ _ Hreplay) as (Hdirs & _).
  pose proof (replay_run_plans _ _ _ (replay_idempotent _ _ _ Hreplay)) as Hfix.
  rewrite main_split, crawl_stage_run. cbn [fs nav reqs calls out].
  rewrite (fs_makedirs_there (fs w) fs1 (fs wd) base_dir Hmk)
    by (intros k Hk; apply Hdirs; by rewrite Hfsc).
  cbn zeta.
  rewrite (Hpages _ (nav w) "https://accounts.google.com/signin"), Hsign.
  match goal with
  | |- context [crawl_phase _ _ _ _ _ ?w0] =>
      pose proof (crawl_phase_value browser order urlparse_path base_dir
                    Hpages urls w0
                    (mkWorld fs1 (nav w ++ ["https://accounts.google.com/signin"])
                       (reqs w) (calls w) (out w))) as Hval;
      destruct (crawl_phase browser order urlparse_path base_dir urls w0)
        as [res wc2] eqn:Hcrawl2
  end.
  rewrite Hphase in Hval. cbn [fst] in Hval. subst res.
  unfold crawl_phase in Hcrawl2.
  apply crawl_fold_run in Hcrawl2 as (_ & _ & _ & _ & Hfs2 & _).
  cbn [fs] in Hfs2.
  destruct (acts_download_phase server Hst order id_map wc2)
    as (wd2 & ms2 & Hdl2 & _ & Hfsd2 & _).
  unfold mbind, M_bind, bind. rewrite Hdl2.
  eexists. split; [reflexivity|]. cbn [fs]. by rewrite Hfsd2, Hfs2.
Qed.

(** C8, as amended.  A download that succeeded and is made again, the last
    request being answered as it was the first time, succeeds again, writes
    to the same path and leaves the filesystem exactly as the first download
    left it, the file holding the body of the response.  Hence, for a
    server whose answers only depend on the request and a browser that
    shows the same page for the same URL, the whole of [main] run a second
    time on the same URLs, with the sets gone through in the same order,
    after a first run that reported no failure of the operating system,
    completes and leaves the filesystem exactly as the first run left it:
    the same files with the same bytes and no other file.  The same holds
    of the download phase alone. *)
Theorem redownload_overwrites
    (server : list Request → Request → exn + Response) :
  (∀ fid did outdir fmt (m : M unit) (name : Response → string)
     w w1 w2 res2 h1 h2 q1 q2 r,
     (m = download_drive_file server fid outdir
      ∧ name = λ r, extract_filename r fid)
     ∨ (m = download_doc_export server did outdir fmt
        ∧ name = λ _, doc_name did fmt) →
     m w = (inr tt, w1) →
     m w1 = (res2, w2) →
     reqs w1 = h1 ++ [q1] → server h1 q1 = inr r →
     reqs w2 = h2 ++ [q2] → server h2 q2 = inr r →
     res2 = inr tt
     ∧ fs w2 = fs w1
     ∧ fs w2 !! path_join outdir (name r) = Some (File (content r)))
  ∧ (stateless server →
     ∀ order id_map w w1,
       download_phase server order id_map w = (inr tt, w1) →
       Forall (λ m, is_os_failure m = false) (out w1) →
       ∃ w2, download_phase server order id_map w1 = (inr tt, w2)
             ∧ fs w2 = fs w1)
  ∧ (stateless server →
     ∀ browser order urlparse_path base_dir urls w w1,
       same_pages browser →
       main server browser order urlparse_path base_dir urls w = (inr tt, w1) →
       Forall (λ m, is_os_failure m = false) (out w1) →
       ∃ w2, main server browser order urlparse_path base_dir urls w1
               = (inr tt, w2)
             ∧ fs w2 = fs w1).
Proof.
  split_and!.
  - intros fid did outdir fmt m name w w1 w2 res2 h1 h2 q1 q2 r
      [[-> ->]|[-> ->]].
    + apply (shape_again _ _ _ _ _ _ _ _ _ _ _ _ _ _ _ _ _
               (drive_shape server fid outdir)).
    + apply (shape_again _ _ _ _ _ _ _ _ _ _ _ _ _ _ _ _ _
               (doc_shape server did outdir fmt)).
  - intros Hst order id_map w w1 Hrun Hok.
    destruct (acts_download_phase server Hst order id_map w)
      as (w1' & ms & E & Hout & _ & Hreplay).
    rewrite Hrun in E. injection E as <-.
    rewrite Hout in Hok. apply Forall_app in Hok as [_ Hok].
    specialize (Hreplay Hok). apply replay_idempotent in Hreplay.
    destruct (acts_download_phase server Hst order id_map w1)
      as (w2 & ms2 & E2 & _ & Hfs2 & _).
    exists w2. split; [done|]. rewrite Hfs2.
    by apply replay_run_plans.
  - intros Hst browser order urlparse_path base_dir urls w w1 Hpages Hrun Hok.
    by eapply main_again.
Qed.

(** The theorem on one file downloaded twice, on a download phase run
    twice and on the whole script run twice on the sample page. *)
Lemma redownload_overwrites_witness :
  (let m := download_drive_file srv_pdf "F1" "/res/a" in
   let w1 := (m world0).2 in
   (m w1).1 = inr tt
   ∧ fs (m w1).2 = fs w1
   ∧ fs (m w1).2 !! "/res/a/F1.pdf" = Some (File "%PDF-1"))
  ∧ (let w1 := (download_phase srv_one_404 elements id_map0 world0).2 in
     ∃ w2, download_phase srv_one_404 elements id_map0 w1 = (inr tt, w2)
           ∧ fs w2 = fs w1)
  ∧ (let run := main srv_one_404 browser0 elements path_of "/res"
                  ["https://sites.google.com/view/a"] in
     let w1 := (run (mkWorld ∅ [] [] [] [])).2 in
     fs w1 !! "/res/view_a/F1.pdf" = Some (File "%PDF-1")
     ∧ ∃ w2, run w1 = (inr tt, w2) ∧ fs w2 = fs w1).
Proof.
  split_and!.
  - intros m w1.
    destruct (redownload_overwrites srv_pdf) as [Hone _].
    assert (m world0 = (inr tt, w1)) as H1 by (vm_compute; reflexivity).
    assert (m w1 = ((m w1).1, (m w1).2)) as H2 by (by destruct (m w1)).
    exact (Hone "F1" "D1" "/res/a" "pdf" m (λ r, extract_filename r "F1")
             world0 w1 (m w1).2 (m w1).1
             [] [mkRequest drive_url [("id", "F1")]]
             (mkRequest drive_url [("id", "F1")])
             (mkRequest drive_url [("id", "F1")])
             (mkResponse 200 {[ "content-type" := "application/pdf" ]} []
                "%PDF-1")
             (or_introl (conj eq_refl eq_refl)) H1 H2
             eq_refl eq_refl eq_refl eq_refl).
  - intros w1.
    destruct (redownload_overwrites srv_one_404) as (_ & Hphase & _).
    apply (Hphase (λ _ _ _, eq_refl) elements id_map0 world0 w1).
    + vm_compute. reflexivity.
    + vm_compute. repeat constructor.
  - intros run w1. split; [vm_compute; reflexivity|].
    destruct (redownload_overwrites srv_one_404) as (_ & _ & Hmain).
    apply (Hmain (λ _ _ _, eq_refl) browser0 elements path_of "/res"
             ["https://sites.google.com/view/a"] (mkWorld ∅ [] [] [] []) w1).
    + intros h h' url. unfold browser0. by rewrite !last_snoc.
    + vm_compute. reflexivity.
    + vm_compute. repeat constructor.
Defined.

(** C8, as stated, fails in two ways.  When two file ids of a page are
    served under the same file name, the file kept is the one written last,
    and a second run that goes through the set in another order keeps the
    other one.  And when a file is served under a name that is a path into
    the output directory of a later URL, the first run fails to open it,
    the directory not being there yet, while the second run writes it. *)
Lemma rerun_can_differ :
  (let run order w := (download_phase srv_same_name order id_map_two w).2 in
   let w1 := run elements world0 in
   let w2 := run (λ X, reverse (elements X)) w1 in
   (∀ X : gset string, reverse (elements X) ≡ₚ elements X)
   ∧ stateless srv_same_name
   ∧ fs w1 !! "/res/a/same.pdf" = Some (File "F2")
   ∧ fs w2 !! "/res/a/same.pdf" = Some (File "F1"))
  ∧ (let run w := (download_phase srv_path_name elements id_map_ab w).2 in
     let w1 := run world0 in
     let w2 := run w1 in
     stateless srv_path_name
     ∧ out w1 = [Downloading "https://sites.google.com/view/a";
                 FailedDrive "F1" (OSError ENOENT "/res/b/x");
                 Downloading "https://sites.google.com/view/b";
                 SavedDrive "F2.pdf"]
     ∧ fs w1 !! "/res/b/x" = None
     ∧ fs w2 !! "/res/b/x" = Some (File "ONE")).
Proof.
  split; cbn zeta.
  - split_and!.
    + intros X. apply reverse_Permutation.
    + done.
    + vm_compute. reflexivity.
    + vm_compute. reflexivity.
  - split_and!; [done|vm_compute; reflexivity..].
Qed.

(** * Properties beyond the specification *)

(** ** Slashes in names and paths *)

Section SlashFacts.
Import Text.

Lemma word_char_not_slash (c : ascii) :
  word_char c = true → Ascii.eqb c slash = false.
Proof. destruct c as [[] [] [] [] [] [] [] []]; by vm_compute. Qed.

Lemma idchar_not_slash (c : ascii) :
  is_idchar c = true → Ascii.eqb c slash = false.
Proof. destruct c as [[] [] [] [] [] [] [] []]; by vm_compute. Qed.

Lemma contains_slash_cons (c : ascii) (s : string) :
  contains "/" (String c s) = Ascii.eqb c slash || contains "/" s.
Proof.
  cbn [contains]. f_equal. unfold startswith. cbn [strip_prefix].
  rewrite Ascii.eqb_sym. fold slash. by destruct (Ascii.eqb c slash).
Qed.

Lemma no_slash_forallb (p : ascii → bool) (s : string) :
  (∀ c, p c = true → Ascii.eqb c slash = false) →
  forallb_str p s = true → contains "/" s = false.
Proof.
  intros Hp. induction s as [|c s IH]; [done|]. cbn [forallb_str].
  intros [Hc Hs]%andb_true_iff. rewrite contains_slash_cons.
  by rewrite (Hp c Hc), IH.
Qed.

Lemma no_slash_app (s t : string) :
  contains "/" (s +:+ t) = contains "/" s || contains "/" t.
Proof.
  induction s as [|c s IH]; [done|].
  by rewrite app_cons, !contains_slash_cons, IH, orb_assoc.
Qed.

Lemma no_slash_startswith (s : string) :
  contains "/" s = false → startswith s "/" = false.
Proof.
  destruct s as [|c s]; [done|]. rewrite contains_slash_cons.
  intros [Hc _]%orb_false_iff. unfold startswith. cbn [strip_prefix].
  rewrite Ascii.eqb_sym. fold slash. by rewrite Hc.
Qed.

Lemma lstrip_no_slash (s : string) :
  contains "/" s = false → lstrip slash s = s.
Proof.
  destruct s as [|c s]; [done|]. rewrite contains_slash_cons.
  intros [Hc _]%orb_false_iff. cbn. by rewrite Hc.
Qed.

Lemma rstrip_no_slash (s : string) :
  contains "/" s = false → rstrip slash s = s.
Proof.
  induction s as [|c s IH]; [done|]. rewrite contains_slash_cons.
  intros [Hc Hs]%orb_false_iff. cbn. by rewrite Hc, IH.
Qed.

Lemma strip_no_slash (s : string) :
  contains "/" s = false → strip slash s = s.
Proof.
  intros H. unfold strip. by rewrite lstrip_no_slash, rstrip_no_slash.
Qed.

Lemma upto_last_slash_app (a n : string) :
  contains "/" n = false → upto_last_slash (a +:+ "/" +:+ n) = a +:+ "/".
Proof.
  intros Hn. induction a as [|c a IH].
  - rewrite !app_nil_l. change ("/" +:+ n) with (String slash n).
    cbn [upto_last_slash]. by rewrite Hn, Ascii.eqb_refl.
  - rewrite (app_cons c a ("/" +:+ n)), (app_cons c a "/").
    cbn [upto_last_slash]. rewrite IH.
    replace (contains "/" (a +:+ "/" +:+ n)) with true; [done|].
    symmetry. rewrite no_slash_app. apply orb_true_iff. right.
    change ("/" +:+ n) with (String slash n).
    by rewrite contains_slash_cons, Ascii.eqb_refl.
Qed.

Lemma rstrip_added_slash (a : string) :
  ends_with_slash a = false → rstrip slash (a +:+ "/") = a.
Proof.
  induction a as [|c a IH]; [done|]. intros Hc. rewrite app_cons.
  cbn [rstrip]. destruct a as [|d a].
  - cbn in Hc. rewrite app_nil_l. cbn. by rewrite Hc.
  - rewrite IH by done. cbn [is_empty]. by rewrite andb_false_r.
Qed.

Lemma not_all_slashes (a : string) :
  a ≠ EmptyString → ends_with_slash a = false →
  forallb_str (Ascii.eqb slash) (a +:+ "/") = false.
Proof.
  induction a as [|c a IH]; [done|]. intros _ Hc. rewrite app_cons.
  cbn [forallb_str]. destruct a as [|d a].
  - cbn in Hc. rewrite Ascii.eqb_sym. by rewrite Hc.
  - rewrite IH by done. apply andb_false_r.
Qed.

(** The directory of a name joined to a directory is that directory. *)
Lemma dirname_join (a n : string) :
  a ≠ EmptyString → ends_with_slash a = false → contains "/" n = false →
  path_join a n = a +:+ "/" +:+ n ∧ dirname (path_join a n) = a.
Proof.
  intros Ha Hend Hn.
  assert (path_join a n = a +:+ "/" +:+ n) as ->.
  { unfold path_join. rewrite (no_slash_startswith n Hn), Hend.
    by apply is_empty_false in Ha as ->. }
  split; [done|]. unfold dirname. rewrite upto_last_slash_app by done.
  by rewrite not_all_slashes, rstrip_added_slash.
Qed.
End SlashFacts.

(** ** More on [slugify] *)

Lemma sub_nonalnum_go_idem (b : bool) (p : string) :
  Re.sub_nonalnum_go b (Re.sub_nonalnum_go b p) = Re.sub_nonalnum_go b p.
Proof.
  revert b. induction p as [|c p IH]; intros b; [done|]. cbn.
  destruct (Text.is_alnum c) eqn:E.
  - cbn. by rewrite E, IH.
  - destruct b; [apply IH|]. cbn. by rewrite IH.
Qed.

Lemma slugify_no_slash (urlparse_path : string → string) (url : string) :
  slugify urlparse_path url ≠ EmptyString
  ∧ Text.contains "/" (slugify urlparse_path url) = false.
Proof.
  unfold slugify.
  destruct (Text.is_empty (Re.sub_nonalnum _)) eqn:E; [done|].
  split; [by apply is_empty_false|].
  eapply no_slash_forallb; [apply word_char_not_slash|].
  apply sub_nonalnum_go_word.
Qed.

(** X1.  [slugify] is idempotent: the slug of a URL, read as a path, is its
    own slug. *)
Theorem slugify_idempotent (urlparse_path : string → string) (url : string) :
  slugify (λ p, p) (slugify urlparse_path url) = slugify urlparse_path url.
Proof.
  destruct (slugify_no_slash urlparse_path url) as [Hne Hslash].
  unfold slugify at 1. rewrite strip_no_slash by done.
  unfold slugify in *.
  destruct (Text.is_empty (Re.sub_nonalnum _)) eqn:E; [done|].
  unfold Re.sub_nonalnum in *. by rewrite sub_nonalnum_go_idem, E.
Qed.

(** X2.  Whatever the URL, its slug is not empty and has no slash, so the
    output directory is the base directory, a slash and the slug: a direct
    child of the base directory.  This is the directory a crawl returns. *)
Theorem output_dir_is_child_of_base
    (urlparse_path : string → string) (base_dir url : string) :
  base_dir ≠ EmptyString →
  ends_with_slash base_dir = false →
  let slug := slugify urlparse_path url in
  slug ≠ EmptyString
  ∧ Text.contains "/" slug = false
  ∧ path_join base_dir slug = base_dir +:+ "/" +:+ slug
  ∧ dirname (path_join base_dir slug) = base_dir
  ∧ (∀ browser order w w' outdir files docs,
       crawl_url browser order urlparse_path base_dir url w
         = (inr (outdir, files, docs), w') →
       outdir = base_dir +:+ "/" +:+ slug ∧ dirname outdir = base_dir).
Proof.
  intros Hbase Hend slug.
  destruct (slugify_no_slash urlparse_path url) as [Hne Hslash].
  destruct (dirname_join base_dir slug Hbase Hend Hslash) as [Hjoin Hdir].
  split_and!; try done.
  intros browser order w w' outdir files docs Hrun.
  apply crawl_url_run in Hrun as (_ & _ & _ & _ & _ & _ & _ & -> & _).
  fold slug. by rewrite <- Hjoin.
Qed.

(** The theorem for a page of a site, under [/res]. *)
Lemma output_dir_is_child_of_base_witness :
  path_join "/res" (slugify path_of "https://sites.google.com/view/a b/")
  = "/res/view_a_b"
  ∧ dirname (path_join "/res"
               (slugify path_of "https://sites.google.com/view/a b/"))
    = "/res".
Proof.
  destruct (output_dir_is_child_of_base path_of "/res"
              "https://sites.google.com/view/a b/")
    as (_ & _ & Hjoin & Hdir & _); [done..|].
  split; [exact Hjoin|exact Hdir].
Defined.

(** ** Where a download is written *)

Lemma infer_extension_values (ct : string) :
  infer_extension ct ∈ [".pdf"; ".docx"; ".pptx"; ".xlsx"; EmptyString].
Proof. unfold infer_extension. repeat case_match; set_solver. Qed.

Lemma infer_extension_no_slash (ct : string) :
  Text.contains "/" (infer_extension ct) = false.
Proof.
  pose proof (infer_extension_values ct) as H.
  repeat (apply elem_of_cons in H as [->|H]; [done|]).
  by apply elem_of_nil in H.
Qed.

Lemma extracted_id_no_slash (lit src id : string) :
  id ∈ Re.findall_id lit src →
  id ≠ EmptyString ∧ Text.contains "/" id = false.
Proof.
  intros (pre & post & _ & Hne & Hid & _)%findall_go_sound. split; [done|].
  eapply no_slash_forallb; [apply idchar_not_slash|done].
Qed.

(** X3.  A file id found by the extractor, downloaded from a response whose
    Content-Disposition gives no file name, is stored under the id followed
    by the extension, directly in the output directory. *)
Theorem unnamed_file_lands_in_outdir
    (src fid outdir : string) (resp : Response) :
  fid ∈ file_ids src →
  Re.search_filename (headers_get resp "Content-Disposition" EmptyString) = None →
  outdir ≠ EmptyString →
  ends_with_slash outdir = false →
  let name := extract_filename resp fid in
  name = fid +:+ infer_extension (headers_get resp "Content-Type" EmptyString)
  ∧ name ≠ EmptyString
  ∧ Text.contains "/" name = false
  ∧ path_join outdir name = outdir +:+ "/" +:+ name
  ∧ dirname (path_join outdir name) = outdir.
Proof.
  intros Hfid Hcd Hout Hend name.
  assert (fid ≠ EmptyString ∧ Text.contains "/" fid = false) as [Hne Hslash].
  { unfold file_ids in Hfid.
    apply elem_of_union in Hfid as [H|H]; apply elem_of_list_to_set in H;
      by eapply extracted_id_no_slash. }
  assert (name = fid +:+ infer_extension
                           (headers_get resp "Content-Type" EmptyString)) as Hname.
  { unfold name, extract_filename. by rewrite Hcd. }
  assert (Text.contains "/" name = false) as Hn.
  { by rewrite Hname, no_slash_app, Hslash, infer_extension_no_slash. }
  split_and!; [done| |done|by apply dirname_join..].
  rewrite Hname. destruct fid; [done|]. by rewrite app_cons.
Qed.

(** The theorem for the file [F1] of the sample page, served as a PDF
    without Content-Disposition. *)
Lemma unnamed_file_lands_in_outdir_witness :
  let resp := mkResponse 200 {[ "content-type" := "application/pdf" ]} [] "%PDF-1" in
  path_join "/res/view_a" (extract_filename resp "F1") = "/res/view_a/F1.pdf"
  ∧ dirname (path_join "/res/view_a" (extract_filename resp "F1")) = "/res/view_a".
Proof.
  intros resp.
  destruct (unnamed_file_lands_in_outdir page_a "F1" "/res/view_a" resp)
    as (_ & _ & _ & Hjoin & Hdir).
  - unfold file_ids. apply elem_of_union. left. apply elem_of_list_to_set.
    vm_compute. apply elem_of_cons. by left.
  - reflexivity.
  - done.
  - reflexivity.
  - split; [exact Hjoin|exact Hdir].
Defined.

Lemma shape_saved_at (m : M unit)
    (server : list Request → Request → exn + Response)
    (c : call) (url : string) (params : list (string * string))
    (outdir : string) (name : Response → string) (saved : string → msg)
    (w w' : World) (h : list Request) (q : Request) (r : Response) :
  routine_shape m server c url params outdir name saved →
  m w = (inr tt, w') →
  reqs w' = h ++ [q] → server h q = inr r →
  fs w' !! path_join outdir (name r) = Some (File (content r)).
Proof.
  intros Hshape Hrun Hq Hs.
  pose proof (shape_reqs _ _ _ _ _ _ _ _ w Hshape) as Hr.
  rewrite Hrun in Hr. cbn [snd] in Hr. rewrite Hq in Hr.
  symmetry in Hr. apply exchange_final in Hr. rewrite Hs in Hr.
  pose proof (shape_saved _ _ _ _ _ _ _ _ w r Hshape Hr) as Hsaved.
  rewrite Hrun in Hsaved. by apply Hsaved.
Qed.

(** X4.  A file name taken from Content-Disposition that starts with a
    slash is used as the whole path: the file is written there, whatever the
    output directory is. *)
Theorem absolute_name_leaves_outdir
    (server : list Request → Request → exn + Response)
    (fid outdir : string) (w w' : World)
    (h : list Request) (q : Request) (r : Response) :
  download_drive_file server fid outdir w = (inr tt, w') →
  reqs w' = h ++ [q] →
  server h q = inr r →
  Text.startswith (extract_filename r fid) "/" = true →
  path_join outdir (extract_filename r fid) = extract_filename r fid
  ∧ fs w' !! extract_filename r fid = Some (File (content r)).
Proof.
  intros Hrun Hq Hs Habs.
  assert (path_join outdir (extract_filename r fid) = extract_filename r fid)
    as Hjoin by (unfold path_join; by rewrite Habs).
  split; [done|]. rewrite <- Hjoin.
  by eapply (shape_saved_at _ _ _ _ _ _ _ _ _ _ _ _ _ (drive_shape server fid outdir)).
Qed.

(** The theorem for a file served as [/res/x] and downloaded for the output
    directory [/res/a]. *)
Lemma absolute_name_leaves_outdir_witness :
  let run := download_drive_file srv_abs_name "F1" "/res/a" world0 in
  path_join "/res/a" "/res/x" = "/res/x"
  ∧ fs run.2 !! "/res/x" = Some (File "ONE").
Proof.
  intros run.
  assert (run = (inr tt, run.2)) as Hrun by (vm_compute; reflexivity).
  exact (absolute_name_leaves_outdir srv_abs_name "F1" "/res/a" world0 run.2
           [] (mkRequest drive_url [("id", "F1")])
           (mkResponse 200
              {[ "content-disposition" :=
                   "attachment; filename=" +:+ quote +:+ "/res/x" +:+ quote ]}
              [] "ONE")
           Hrun eq_refl eq_refl eq_refl).
Defined.

(** ** The requests and the outcomes of a download *)

Section ShapeFacts.
Variable server : list Request → Request → exn + Response.
Variable m : M unit.
Variable c : call.
Variable url : string.
Variable params : list (string * string).
Variable outdir : string.
Variable name : Response → string.
Variable saved : string → msg.
Hypothesis shape : routine_shape m server c url params outdir name saved.

Lemma exchange_requests (h : list Request) :
  let qs := (exchange server h url params).1 in
  (length qs = 1 ∨ length qs = 2)
  ∧ head qs = Some (mkRequest url params)
  ∧ Forall (λ q, req_url q = url ∧ params ⊆ req_params q) qs
  ∧ (∀ q2, qs !! 1 = Some q2 →
       ∃ r1 tok, server h (mkRequest url params) = inr r1
                 ∧ get_confirm_token r1 = Some tok ∧ tok ≠ EmptyString
                 ∧ q2 = mkRequest url (params ++ [("confirm", tok)])).
Proof.
  unfold exchange.
  destruct (server h (mkRequest url params)) as [e|r1] eqn:E1; cbn.
  { split_and!; [by left|done| |done].
    constructor; [|constructor]. split; [done|set_solver]. }
  destruct (truthy (get_confirm_token r1)) eqn:Ht; cbn.
  - split_and!; [by right|done| |].
    + constructor; [split; [done|set_solver]|].
      constructor; [|constructor]. split; [done|]. cbn.
      intros x Hx. apply elem_of_app. by left.
    + intros q2 [= <-]. unfold truthy in Ht.
      destruct (get_confirm_token r1) as [tok|] eqn:Etok; [|done].
      exists r1, tok. split_and!; [done..| |done].
      apply negb_true_iff in Ht. by apply is_empty_false.
  - split_and!; [by left|done| |done].
    constructor; [|constructor]. split; [done|set_solver].
Qed.

End ShapeFacts.

(** X5.  A download makes one request or two, never more: the first carries
    the parameters of the routine and nothing else, the second the same
    parameters followed by the token, and both go to the endpoint of the
    routine.  A warning cookie on the second response is not followed up. *)
Theorem at_most_two_requests
    (server : list Request → Request → exn + Response)
    (fid did outdir fmt : string) (m : M unit)
    (url : string) (params : list (string * string)) (w : World) :
  (m = download_drive_file server fid outdir
   ∧ url = drive_url ∧ params = [("id", fid)])
  ∨ (m = download_doc_export server did outdir fmt
     ∧ url = doc_url did ∧ params = [("format", fmt)]) →
  ∃ qs,
    reqs (m w).2 = reqs w ++ qs
    ∧ (length qs = 1 ∨ length qs = 2)
    ∧ head qs = Some (mkRequest url params)
    ∧ Forall (λ q, req_url q = url ∧ params ⊆ req_params q) qs
    ∧ (∀ q2, qs !! 1 = Some q2 →
         ∃ r1 tok, server (reqs w) (mkRequest url params) = inr r1
                   ∧ get_confirm_token r1 = Some tok ∧ tok ≠ EmptyString
                   ∧ q2 = mkRequest url (params ++ [("confirm", tok)])).
Proof.
  intros Hm. exists (exchange server (reqs w) url params).1.
  split; [|apply exchange_requests].
  destruct Hm as [(-> & -> & ->)|(-> & -> & ->)].
  - apply (shape_reqs _ _ _ _ _ _ _ _ w (drive_shape server fid outdir)).
  - apply (shape_reqs _ _ _ _ _ _ _ _ w (doc_shape server did outdir fmt)).
Qed.

(** The theorem for a server that sends the warning cookie again with the
    confirmed response: two requests, and the second body is stored. *)
Lemma at_most_two_requests_witness :
  let run := download_drive_file srv_always_warning "F1" "/res/a" world0 in
  (∃ qs, reqs run.2 = reqs world0 ++ qs ∧ (length qs = 1 ∨ length qs = 2))
  ∧ length (reqs run.2) = 2
  ∧ run.1 = inr tt.
Proof.
  intros run.
  destruct (at_most_two_requests srv_always_warning "F1" "D1" "/res/a" "pdf"
              (download_drive_file srv_always_warning "F1" "/res/a")
              drive_url [("id", "F1")] world0) as (qs & Hq & Hlen & _).
  - left. done.
  - split_and!; [by exists qs|reflexivity..].
Defined.



(** ** What a download changes on the disk *)

Lemma mkdir_chain_only_dirs (fs : gmap string node) (qs : list string)
    (k : string) (n : node) :
  (mkdir_chain fs qs).2 !! k = Some n →
  fs !! k = Some n ∨ (n = Dir ∧ k ∈ qs ∧ fs !! k = None).
Proof.
  revert fs. induction qs as [|q qs IH]; intros fs; cbn; [by left|].
  unfold mkdir_exist_ok. destruct (fs !! q) as [[|d]|] eqn:E; cbn.
  - intros [?|(-> & Hk & ?)]%IH; [by left|right].
    split_and!; [done| |done]. apply elem_of_cons. by right.
  - by left.
  - intros [Hk|(-> & Hk & Hnone)]%IH.
    + destruct (decide (q = k)) as [->|Hne].
      * rewrite lookup_insert_eq in Hk. injection Hk as <-. right.
        split_and!; [done| |done]. apply elem_of_cons. by left.
      * rewrite lookup_insert_ne in Hk by done. by left.
    + right. destruct (decide (q = k)) as [->|Hne].
      * by rewrite lookup_insert_eq in Hnone.
      * rewrite lookup_insert_ne in Hnone by done.
        split_and!; [done| |done]. apply elem_of_cons. by right.
Qed.

Lemma fs_makedirs_only_dirs (fs : gmap string node) (p k : string) (n : node) :
  (fs_makedirs fs p).2 !! k = Some n →
  fs !! k = Some n ∨ (n = Dir ∧ k ∈ ancestors p ∧ fs !! k = None).
Proof.
  unfold fs_makedirs. destruct (Text.is_empty p); [by left|].
  apply mkdir_chain_only_dirs.
Qed.

Lemma fs_store_failed (fs fs' : gmap string node) (outdir path body : string)
    (e : exn) :
  fs_store fs outdir path body = (Some e, fs') → fs' = (fs_makedirs fs outdir).2.
Proof.
  unfold fs_store. destruct (fs_makedirs fs outdir) as [[e0|] fs1].
  - by intros [= _ <-].
  - destruct (fs_open_wb fs1 path); [by intros [= _ <-]|done].
Qed.

Lemma shape_failed (m : M unit)
    (server : list Request → Request → exn + Response)
    (c : call) (url : string) (params : list (string * string))
    (outdir : string) (name : Response → string) (saved : string → msg)
    (w w' : World) (e : exn) :
  routine_shape m server c url params outdir name saved →
  m w = (inl e, w') →
  (fs w' = fs w ∨ fs w' = (fs_makedirs (fs w) outdir).2) ∧ out w' = out w.
Proof.
  intros Hshape Hrun. rewrite Hshape in Hrun. cbn zeta in Hrun.
  destruct (checked _) as [e0|r].
  { injection Hrun as <- <-. split; [by left|done]. }
  destruct (fs_store _ _ _ _) as [[e0|] fs'] eqn:Hst; [|done].
  injection Hrun as <- <-. split; [right|done].
  by apply fs_store_failed in Hst.
Qed.

(** X7.  A download that raises, because the request failed, the status is
    an error, the output directory cannot be made or the file cannot be
    opened, creates no regular file and changes none: the regular files are
    the same, with the same bytes, before and after.  At most, directories
    on the way to the output directory have been made.  The routine has
    printed nothing.  These are the failures of the model, in which a
    response comes with its whole body; a connection that breaks while the
    body is read is not among them. *)
Theorem failed_download_keeps_files
    (server : list Request → Request → exn + Response)
    (fid did outdir fmt : string) (m : M unit)
    (w w' : World) (e : exn) :
  m = download_drive_file server fid outdir
  ∨ m = download_doc_export server did outdir fmt →
  m w = (inl e, w') →
  (∀ p d, fs w' !! p = Some (File d) ↔ fs w !! p = Some (File d))
  ∧ (∀ p, fs w !! p = Some Dir → fs w' !! p = Some Dir)
  ∧ (∀ p, fs w' !! p ≠ fs w !! p →
          p ∈ ancestors outdir ∧ fs w !! p = None ∧ fs w' !! p = Some Dir)
  ∧ out w' = out w.
Proof.
  intros Hm Hrun.
  assert ((fs w' = fs w ∨ fs w' = (fs_makedirs (fs w) outdir).2)
          ∧ out w' = out w) as [Hfs Hout].
  { destruct Hm as [-> | ->].
    - by eapply shape_failed; [apply drive_shape|].
    - by eapply shape_failed; [apply doc_shape|]. }
  split_and!; [| | |done].
  - intros p d. destruct Hfs as [-> | ->]; [done|]. split.
    + by intros [?|(? & _)]%fs_makedirs_only_dirs.
    + apply fs_makedirs_mono.
  - intros p Hp. destruct Hfs as [-> | ->]; [done|]. by apply fs_makedirs_mono.
  - intros p Hp. destruct Hfs as [Hfs | Hfs]; rewrite Hfs in Hp; [done|].
    rewrite Hfs.
    destruct ((fs_makedirs (fs w) outdir).2 !! p) as [n|] eqn:E.
    + apply fs_makedirs_only_dirs in E as [E|(-> & Hin & Hnone)]; [|done].
      by rewrite E in Hp.
    + destruct (fs w !! p) as [n|] eqn:E'; [|done].
      apply (fs_makedirs_mono _ outdir) in E'. congruence.
Qed.

(** The theorem for a file that cannot be opened because its name points
    into a directory that does not exist: the output directory has been
    made, and no file. *)
Lemma failed_download_keeps_files_witness :
  let run := download_drive_file srv_path_name "F1" "/res/a" world0 in
  run.1 = inl (OSError ENOENT "/res/b/x")
  ∧ fs run.2 !! "/res/a" = Some Dir
  ∧ (∀ p d, fs run.2 !! p = Some (File d) ↔ fs world0 !! p = Some (File d))
  ∧ out run.2 = out world0.
Proof.
  intros run.
  destruct (failed_download_keeps_files srv_path_name "F1" "D1" "/res/a" "pdf"
              (download_drive_file srv_path_name "F1" "/res/a")
              world0 run.2 (OSError ENOENT "/res/b/x"))
    as (Hfiles & _ & _ & Hout).
  - by left.
  - vm_compute. reflexivity.
  - split_and!; [reflexivity|reflexivity|exact Hfiles|exact Hout].
Defined.

(** Paths in normal form. *)

Lemma components_cons (p : string) : ∃ x xs, components p = x :: xs.
Proof.
  induction p as [|c p (x & xs & IH)]; cbn [components]; [by eexists _, _|].
  destruct (Ascii.eqb c Text.slash); [by eexists _, _|].
  rewrite IH. by eexists _, _.
Qed.

Lemma components_app_slash (a n : string) :
  components (a +:+ "/" +:+ n) = components a ++ components n.
Proof.
  induction a as [|c a IH].
  - by rewrite app_nil_l.
  - rewrite app_cons. cbn [components]. rewrite IH.
    destruct (Ascii.eqb c Text.slash); [done|].
    by destruct (components_cons a) as (x & xs & ->).
Qed.

Lemma components_plain (n : string) :
  Text.contains "/" n = false → components n = [n].
Proof.
  induction n as [|c n IH]; [done|]. rewrite contains_slash_cons.
  intros [Hc Hn]%orb_false_iff. cbn [components].
  fold Text.slash in Hc. by rewrite Hc, IH.
Qed.

Lemma ends_with_slash_app (p : string) :
  ends_with_slash p = true → ∃ a, p = a +:+ "/".
Proof.
  induction p as [|c p IH]; [done|]. cbn [ends_with_slash].
  destruct p as [|d p].
  - intros ->%Ascii.eqb_eq. by exists EmptyString.
  - intros [a Ha]%IH. exists (String c a). by rewrite app_cons, <- Ha.
Qed.

Lemma canonical_shape (p : string) :
  canonical p = true → p ≠ EmptyString ∧ ends_with_slash p = false.
Proof.
  intros Hp. split; [by intros ->|].
  destruct (ends_with_slash p) eqn:E; [|done].
  apply ends_with_slash_app in E as [a ->].
  unfold canonical in Hp.
  replace (a +:+ "/") with (a +:+ "/" +:+ EmptyString) in Hp
    by by rewrite app_empty_r.
  rewrite components_app_slash in Hp. cbn [components] in Hp.
  destruct (components_cons a) as (x & xs & Hx). rewrite Hx in Hp.
  cbn [app] in Hp. destruct x; [|done].
  destruct xs as [|y ys]; cbn [app] in Hp; [done|].
  change (y :: ys ++ [EmptyString]) with ((y :: ys) ++ [EmptyString]) in Hp.
  rewrite forallb_app in Hp. cbn in Hp. by rewrite andb_false_r in Hp.
Qed.

Lemma plain_name_no_slash (n : string) :
  plain_name n = true → Text.contains "/" n = false.
Proof.
  unfold plain_name. rewrite !andb_true_iff, !negb_true_iff. tauto.
Qed.

Lemma canonical_child (a n : string) :
  canonical a = true → plain_name n = true →
  canonical (a +:+ "/" +:+ n) = true.
Proof.
  intros Ha Hn. unfold canonical in *.
  rewrite components_app_slash, (components_plain n)
    by by apply plain_name_no_slash.
  destruct (components a) as [|x [|c cs]]; [done| |].
  - by destruct x.
  - destruct x; [|done]. cbn [app].
    change (c :: cs ++ [n]) with ((c :: cs) ++ [n]).
    rewrite forallb_app, Ha. cbn. by rewrite Hn.
Qed.

(** X8.  A successful [download_drive_file] into an output directory in
    normal form, the file name being a plain name (no slash, neither [.]
    nor [..]), writes the file directly in the output directory: the
    destination then holds the body of the last response whatever was there
    before, the directories on the way to the output directory are there,
    and every other entry of the filesystem is as it was.  It prints one
    line. *)
Theorem drive_download_frame
    (server : list Request → Request → exn + Response)
    (fid outdir : string) (w w' : World)
    (h : list Request) (q : Request) (r : Response) :
  download_drive_file server fid outdir w = (inr tt, w') →
  reqs w' = h ++ [q] →
  server h q = inr r →
  canonical outdir = true →
  plain_name (extract_filename r fid) = true →
  let path := path_join outdir (extract_filename r fid) in
  path = outdir +:+ "/" +:+ extract_filename r fid
  ∧ canonical path = true
  ∧ dirname path = outdir
  ∧ fs w' !! path = Some (File (content r))
  ∧ path ∉ ancestors outdir
  ∧ (∀ p, p ∈ ancestors outdir → fs w' !! p = Some Dir)
  ∧ (∀ p, canonical p = true → p ≠ path → p ∉ ancestors outdir →
          fs w' !! p = fs w !! p)
  ∧ (∀ p n, canonical p = true → p ≠ path →
            fs w !! p = Some n → fs w' !! p = Some n)
  ∧ out w' = out w ++ [SavedDrive (extract_filename r fid)].
Proof.
  intros Hrun Hq Hs Hcan Hname path.
  destruct (canonical_shape outdir Hcan) as [Hne Hend].
  destruct (dirname_join outdir (extract_filename r fid) Hne Hend
              (plain_name_no_slash _ Hname)) as [Hjoin Hdir].
  fold path in Hjoin, Hdir.
  pose proof (drive_reqs server fid outdir w) as Hr.
  rewrite Hrun in Hr. cbn [snd] in Hr. rewrite Hq in Hr.
  symmetry in Hr. apply exchange_final in Hr. rewrite Hs in Hr.
  rewrite drive_run in Hrun. cbn zeta in Hrun. rewrite Hr in Hrun.
  cbn [checked] in Hrun. destruct (is_http_error r); [done|].
  fold path in Hrun.
  destruct (fs_store (fs w) outdir path (content r)) as [[e|] fs'] eqn:Hst;
    [done|].
  injection Hrun as <-. cbn [fs out log_out with_fs].
  pose proof (fs_store_kinds _ _ _ _ _ Hst) as (_ & _ & Hframe & Hp).
  apply fs_store_ok in Hst as (fs1 & Hmk & Hnd & _ & ->).
  assert (∀ p, p ∈ ancestors outdir → fs1 !! p = Some Dir) as Hanc.
  { intros p Hp'. unfold fs_makedirs in Hmk.
    destruct (Text.is_empty outdir); [done|]. by eapply mkdir_chain_ok. }
  assert (path ∉ ancestors outdir) as Hnot.
  { intros Hin. by apply Hanc in Hin. }
  split_and!; [done| |done|done|done| | | |done].
  - rewrite Hjoin. by apply canonical_child.
  - intros p Hp'. rewrite lookup_insert_ne; [by apply Hanc|]. by intros ->.
  - intros p _ Hne' Hp'. rewrite lookup_insert_ne by done.
    replace fs1 with (fs_makedirs (fs w) outdir).2 by by rewrite Hmk.
    by apply fs_makedirs_other.
  - intros p n _. apply Hframe.
Qed.

(** The theorem for a PDF downloaded into a new directory beside a file
    that is already there. *)
Lemma drive_download_frame_witness :
  let w := mkWorld {[ "/res" := Dir; "/res/keep.txt" := File "kept" ]} [] [] [] [] in
  let run := download_drive_file srv_pdf "F1" "/res/a" w in
  fs run.2 !! "/res/a/F1.pdf" = Some (File "%PDF-1")
  ∧ fs run.2 !! "/res/a" = Some Dir
  ∧ fs run.2 !! "/res/keep.txt" = Some (File "kept").
Proof.
  intros w run.
  assert (run = (inr tt, run.2)) as Hrun by (vm_compute; reflexivity).
  destruct (drive_download_frame srv_pdf "F1" "/res/a" w run.2 []
              (mkRequest drive_url [("id", "F1")])
              (mkResponse 200 {[ "content-type" := "application/pdf" ]} []
                 "%PDF-1") Hrun eq_refl eq_refl eq_refl eq_refl)
    as (_ & _ & _ & Hfile & _ & Hdirs & _ & Hkeep & _).
  split_and!.
  - exact Hfile.
  - apply Hdirs. vm_compute. apply elem_of_cons. right. apply elem_of_cons.
    by left.
  - apply Hkeep; [reflexivity|done|reflexivity].
Defined.

(** ** The two phases of [main] *)

Lemma keeps_ret {A B} (f : World → B) (a : A) : keeps f (mret a : M A).
Proof. by intros w. Qed.

Lemma keeps_bind {A B C} (f : World → C) (m : M A) (k : A → M B) :
  keeps f m → (∀ a, keeps f (k a)) → keeps f (m ≫= k).
Proof.
  intros Hm Hk w. unfold mbind, M_bind, bind. specialize (Hm w).
  destruct (m w) as [[e|a] w1]; [done|]. cbn in Hm. rewrite <- Hm. apply Hk.
Qed.

Lemma keeps_for_each {A C} (f : World → C) (l : list A) (body : A → M unit) :
  (∀ x, keeps f (body x)) → keeps f (for_each l body).
Proof.
  intros Hb. induction l as [|x l IH]; [by intros w|].
  cbn [for_each]. by apply keeps_bind.
Qed.

Lemma keeps_for_fold {A S C} (f : World → C) (l : list A) (acc : S)
    (body : S → A → M S) :
  (∀ s x, keeps f (body s x)) → keeps f (for_fold l acc body).
Proof.
  intros Hb. revert acc. induction l as [|x l IH]; intros acc; [by intros w|].
  cbn [for_fold]. by apply keeps_bind.
Qed.

Lemma keeps_try_except {A C} (f : World → C) (m : M A) (h : exn → M A) :
  keeps f m → (∀ e, keeps f (h e)) → keeps f (try_except m h).
Proof.
  intros Hm Hh w. unfold try_except. specialize (Hm w).
  destruct (m w) as [[e|a] w1]; [|done]. cbn in Hm. rewrite <- Hm. apply Hh.
Qed.

Section PhaseFacts.
Variable server : list Request → Request → exn + Response.
Variable browser : list string → exn + string.
Variable order : gset string → list string.
Variable urlparse_path : string → string.
Variable base_dir : string.

(** The crawl does not touch the disk, the session or the routines. *)
Lemma crawl_url_quiet (url : string) :
  keeps fs (crawl_url browser order urlparse_path base_dir url)
  ∧ keeps reqs (crawl_url browser order urlparse_path base_dir url)
  ∧ keeps calls (crawl_url browser order urlparse_path base_dir url).
Proof.
  assert (∀ C (f : World → C),
            (∀ w m, f (print m w).2 = f w) →
            (∀ w u, f (driver_get browser u w).2 = f w) →
            keeps f (crawl_url browser order urlparse_path base_dir url)) as H.
  { intros C f Hprint Hget. unfold crawl_url.
    assert (keeps f (page_source browser)) as Hsrc.
    { intros w. unfold page_source. by destruct (browser (nav w)). }
    apply keeps_bind; [intros w; apply Hprint|]. intros _.
    apply keeps_bind; [intros w; apply Hget|]. intros _.
    apply keeps_bind; [done|]. intros src.
    apply keeps_bind; [|intros [fl dc]; apply keeps_ret].
    apply keeps_for_fold. intros [fl dc] fldr.
    apply keeps_bind; [intros w; apply Hprint|]. intros _.
    apply keeps_bind; [intros w; apply Hget|]. intros _.
    apply keeps_bind; [done|]. intros sub. apply keeps_ret. }
  split_and!; apply H; try done;
    intros w u; unfold driver_get; by destruct (browser _).
Qed.

Lemma crawl_phase_quiet (urls : list string) :
  keeps fs (crawl_phase browser order urlparse_path base_dir urls)
  ∧ keeps reqs (crawl_phase browser order urlparse_path base_dir urls)
  ∧ keeps calls (crawl_phase browser order urlparse_path base_dir urls).
Proof.
  unfold crawl_phase.
  split_and!; apply keeps_for_fold; intros d url;
    (apply keeps_bind; [apply crawl_url_quiet|intros entry; apply keeps_ret]).
Qed.

(** The downloads do not drive the browser. *)
Lemma download_phase_no_nav
    (id_map : list (string * (string * gset string * gset string))) :
  keeps nav (download_phase server order id_map).
Proof.
  assert (∀ m c url params outdir name saved,
            routine_shape m server c url params outdir name saved →
            keeps nav m) as Hshape.
  { intros m c url params outdir name saved H w. rewrite H. cbn zeta.
    destruct (checked _) as [e|r]; [done|].
    by destruct (fs_store _ _ _ _) as [[e|] fs']. }
  apply keeps_for_each. intros [url [[outdir files] docs]].
  unfold download_entry.
  apply keeps_bind; [by intros w|]. intros _.
  apply keeps_bind; [|intros _].
  - apply keeps_for_each. intros fid.
    apply keeps_try_except; [|by intros e w].
    eapply Hshape, drive_shape.
  - apply keeps_for_each. intros did. apply keeps_for_each. intros fmt.
    apply keeps_try_except; [|by intros e w].
    eapply Hshape, doc_shape.
Qed.

End PhaseFacts.

(** X9.  A run whose crawl raises stops there with that exception, even
    when earlier pages were crawled well: no request is sent, no download
    routine is entered and no regular file is written; on the disk there is
    at most the base directory more. *)
Theorem crawl_failure_is_fatal
    (server : list Request → Request → exn + Response)
    (browser : list string → exn + string)
    (order : gset string → list string) (urlparse_path : string → string)
    (base_dir : string) (urls : list string) (w w1 : World) (e : exn) :
  crawl_stage browser order urlparse_path base_dir urls w = (inl e, w1) →
  main server browser order urlparse_path base_dir urls w = (inl e, w1)
  ∧ reqs w1 = reqs w
  ∧ calls w1 = calls w
  ∧ fs w1 = (fs_makedirs (fs w) base_dir).2
  ∧ (∀ p d, fs w1 !! p = Some (File d) ↔ fs w !! p = Some (File d)).
Proof.
  intros Hcrawl. split; [by rewrite main_split, Hcrawl|].
  unfold crawl_stage, mbind, M_bind, bind, makedirs in Hcrawl.
  assert (∀ p d, (fs_makedirs (fs w) base_dir).2 !! p = Some (File d)
                 ↔ fs w !! p = Some (File d)) as Hfiles.
  { intros p d. split.
    - by intros [?|(? & _)]%fs_makedirs_only_dirs.
    - apply fs_makedirs_mono. }
  destruct (fs_makedirs (fs w) base_dir) as [[e0|] fs1] eqn:Hmk.
  { injection Hcrawl as <- <-. cbn. by split_and!. }
  unfold driver_get at 1 in Hcrawl. cbn [nav fs reqs calls out with_fs] in Hcrawl.
  destruct (browser (nav w ++ ["https://accounts.google.com/signin"]))
    as [e0|s] eqn:Hb.
  { injection Hcrawl as <- <-. cbn. by split_and!. }
  match type of Hcrawl with
  | crawl_phase _ _ _ _ _ ?w0 = _ =>
      pose proof (crawl_phase_quiet browser order urlparse_path base_dir urls)
        as (Hf & Hr & Hc);
      specialize (Hf w0); specialize (Hr w0); specialize (Hc w0)
  end.
  rewrite Hcrawl in Hf, Hr, Hc. cbn in Hf, Hr, Hc.
  split_and!; [done|done|done|].
  intros p d. rewrite Hf. apply Hfiles.
Qed.

(** The theorem for two URLs, the second of which holds a folder that
    cannot be loaded: nothing of the first is downloaded. *)
Lemma crawl_failure_is_fatal_witness :
  let urls := ["https://sites.google.com/view/b";
               "https://sites.google.com/view/a"] in
  let run := main srv_pdf browser_folder_down elements path_of "/res" urls
               (mkWorld ∅ [] [] [] []) in
  run.1 = inl WebDriverException
  ∧ reqs run.2 = []
  ∧ calls run.2 = []
  ∧ nav run.2 = ["https://accounts.google.com/signin";
                 "https://sites.google.com/view/b";
                 "https://sites.google.com/view/a";
                 "https://drive.google.com/drive/folders/FA"].
Proof.
  intros urls run.
  destruct (crawl_failure_is_fatal srv_pdf browser_folder_down elements path_of
              "/res" urls (mkWorld ∅ [] [] [] []) run.2 WebDriverException)
    as (Hmain & Hreqs & Hcalls & _).
  - vm_compute. reflexivity.
  - split_and!; [exact (f_equal fst Hmain)|exact Hreqs|exact Hcalls|].
    vm_compute. reflexivity.
Defined.

(** X10.  The two phases do not mix.  The crawl, whether it completes or
    raises, leaves the disk, the requests of the session and the record of
    the routines as they were; the download phase never sends the browser
    anywhere.  So in a run of [main] every navigation is made before the
    first request. *)
Theorem phases_are_separate
    (server : list Request → Request → exn + Response)
    (browser : list string → exn + string)
    (order : gset string → list string) (urlparse_path : string → string)
    (base_dir : string) :
  (∀ urls w,
     let w' := (crawl_phase browser order urlparse_path base_dir urls w).2 in
     fs w' = fs w ∧ reqs w' = reqs w ∧ calls w' = calls w)
  ∧ (∀ id_map w, nav (download_phase server order id_map w).2 = nav w)
  ∧ (∀ urls w id_map w1,
       crawl_stage browser order urlparse_path base_dir urls w
         = (inr id_map, w1) →
       reqs w1 = reqs w
       ∧ nav (main server browser order urlparse_path base_dir urls w).2
         = nav w1).
Proof.
  split_and!.
  - intros urls w.
    destruct (crawl_phase_quiet browser order urlparse_path base_dir urls)
      as (Hf & Hr & Hc).
    split_and!; [apply Hf|apply Hr|apply Hc].
  - intros id_map w. apply download_phase_no_nav.
  - intros urls w id_map w1 Hcrawl. split.
    + unfold crawl_stage, mbind, M_bind, bind, makedirs in Hcrawl.
      destruct (fs_makedirs (fs w) base_dir) as [[e0|] fs1]; [done|].
      unfold driver_get at 1 in Hcrawl.
      cbn [nav fs reqs calls out with_fs] in Hcrawl.
      destruct (browser _) as [e0|s]; [done|].
      match type of Hcrawl with
      | crawl_phase _ _ _ _ _ ?w0 = _ =>
          pose proof (crawl_phase_quiet browser order urlparse_path base_dir
                        urls) as (_ & Hr & _); specialize (Hr w0)
      end.
      by rewrite Hcrawl in Hr.
    + rewrite main_split, Hcrawl. unfold mbind, M_bind, bind.
      pose proof (download_phase_no_nav server order id_map w1) as Hn.
      by destruct (download_phase server order id_map w1) as [[e|[]] w2].
Qed.

(** The theorem on the sample run with one missing file. *)
Lemma phases_are_separate_witness :
  let urls := ["https://sites.google.com/view/a"] in
  let w := mkWorld ∅ [] [] [] [] in
  reqs (crawl_phase browser0 elements path_of "/res" urls w).2 = []
  ∧ nav (download_phase srv_one_404 elements id_map0 world0).2 = nav world0.
Proof.
  intros urls w.
  destruct (phases_are_separate srv_one_404 browser0 elements path_of "/res")
    as (Hcrawl & Hdown & _).
  split.
  - exact (proj1 (proj2 (Hcrawl urls w))).
  - exact (Hdown id_map0 world0).
Defined.

(** ** The order of [id_map] *)

Lemma first_occurrences_snoc (l : list string) (x : string) :
  first_occurrences (l ++ [x])
  = if decide (x ∈ l) then first_occurrences l else first_occurrences l ++ [x].
Proof.
  unfold first_occurrences. rewrite reverse_snoc. cbn [remove_dups].
  destruct (decide_rel elem_of x (reverse l)) as [Hin|Hnin].
  - rewrite decide_True; [done|]. by apply elem_of_reverse.
  - rewrite decide_False; [by rewrite reverse_cons|].
    intros Hin. by apply Hnin, elem_of_reverse.
Qed.

Lemma elem_of_first_occurrences (l : list string) (x : string) :
  x ∈ first_occurrences l ↔ x ∈ l.
Proof.
  unfold first_occurrences.
  by rewrite elem_of_reverse, elem_of_remove_dups, elem_of_reverse.
Qed.

Lemma NoDup_first_occurrences (l : list string) : NoDup (first_occurrences l).
Proof.
  unfold first_occurrences. rewrite reverse_Permutation.
  apply NoDup_remove_dups.
Qed.

Lemma first_occurrences_prefix (l1 l2 : list string) :
  ∃ rest, first_occurrences (l1 ++ l2) = first_occurrences l1 ++ rest.
Proof.
  induction l2 as [|x l2 [rest IH]] using rev_ind.
  - exists []. by rewrite !app_nil_r.
  - rewrite app_assoc, first_occurrences_snoc, IH.
    destruct (decide _); [by exists rest|].
    exists (rest ++ [x]). by rewrite app_assoc.
Qed.

(** The keys of a dictionary filled by assignments, one per element of a
    list. *)
Lemma assigned_keys (l : list string) :
  foldl (λ ks k, if decide (k ∈ ks) then ks else ks ++ [k]) [] l
  = first_occurrences l.
Proof.
  induction l as [|x l IH] using rev_ind; [done|].
  rewrite foldl_app. cbn [foldl]. rewrite IH, first_occurrences_snoc.
  destruct (decide (x ∈ l)) as [Hin|Hnin].
  - rewrite decide_True; [done|]. by apply elem_of_first_occurrences.
  - rewrite decide_False; [done|]. by rewrite elem_of_first_occurrences.
Qed.

Lemma crawl_fold_keys (browser : list string → exn + string)
    (order : gset string → list string) (urlparse_path : string → string)
    (base_dir : string) (urls : list string)
    (d0 id_map : list (string * (string * gset string * gset string)))
    (w w' : World) :
  for_fold urls d0
    (λ id_map url,
       entry ← crawl_url browser order urlparse_path base_dir url;
       mret (dict_set url entry id_map)) w
  = (inr id_map, w') →
  id_map.*1
  = foldl (λ ks k, if decide (k ∈ ks) then ks else ks ++ [k]) d0.*1 urls.
Proof.
  set (step := λ id_map url, _).
  revert d0 w. induction urls as [|url urls IH]; intros d0 w.
  - cbn. intros H. cbv [ret] in H. by injection H as <- <-.
  - cbn [for_fold foldl]. unfold mbind at 1, M_bind at 1, bind at 1.
    destruct (step d0 url w) as [[e|d1] w1] eqn:Hstep; [done|].
    assert (∃ entry, d1 = dict_set url entry d0) as [entry ->].
    { subst step. cbn beta in Hstep. unfold mbind, M_bind, bind in Hstep.
      destruct (crawl_url _ _ _ _ url w) as [[e|entry] w2]; [done|].
      unfold mret, M_ret, ret in Hstep. injection Hstep as <- <-.
      by exists entry. }
    intros Hrest. apply IH in Hrest. by rewrite Hrest, dict_set_keys.
Qed.

(** X11.  The entries of [id_map] stand in the order in which the URLs
    first occur on the command line: a URL given again takes the new entry
    at the place of the old one.  The download phase goes through the
    entries in that order: the headings it prints are those of the distinct
    URLs in the order of their first occurrence, and the attempts are those
    of the entries in that order. *)
Theorem id_map_in_order_of_first_occurrence
    (server : list Request → Request → exn + Response)
    (browser : list string → exn + string)
    (order : gset string → list string) (urlparse_path : string → string)
    (base_dir : string) (urls : list string)
    (id_map : list (string * (string * gset string * gset string)))
    (w w' : World) :
  crawl_phase browser order urlparse_path base_dir urls w = (inr id_map, w') →
  id_map.*1 = first_occurrences urls
  ∧ (∀ pre url post,
       urls = pre ++ url :: post → url ∉ pre →
       ∃ l1 entry l2,
         id_map = l1 ++ (url, entry) :: l2
         ∧ l1.*1 = first_occurrences pre)
  ∧ (∀ w0, ∃ w3,
       download_phase server order id_map w0 = (inr tt, w3)
       ∧ downloading_urls (out w3)
         = downloading_urls (out w0) ++ first_occurrences urls
       ∧ calls w3 = calls w0 ++ (id_map ≫= entry_calls order)).
Proof.
  intros Hrun. unfold crawl_phase in Hrun.
  apply crawl_fold_keys in Hrun. cbn [fmap list_fmap] in Hrun.
  rewrite assigned_keys in Hrun. split_and!; [done| |].
  - intros pre url post -> Hpre.
    assert (∃ rest, first_occurrences (pre ++ url :: post)
                    = first_occurrences pre ++ url :: rest) as [rest Hsplit].
    { replace (pre ++ url :: post) with ((pre ++ [url]) ++ post)
        by by rewrite <- app_assoc.
      destruct (first_occurrences_prefix (pre ++ [url]) post) as [rest ->].
      exists rest. rewrite first_occurrences_snoc, decide_False by done.
      by rewrite <- app_assoc. }
    rewrite Hsplit in Hrun.
    apply fmap_app_inv in Hrun as (l1 & l2' & H1 & H2 & ->).
    symmetry in H2. apply fmap_cons_inv in H2 as ([k entry] & l2 & Hk & _ & H2).
    cbn in Hk. subst k l2'. exists l1, entry, l2. by split.
  - intros w0. exists (run_entries server order id_map w0).
    destruct (run_entries_step server order id_map w0) as (Hc & _ & _ & Hd).
    split_and!; [apply download_phase_run|by rewrite Hd, Hrun|done].
Qed.

(** The theorem for a command line that names the second page twice. *)
Lemma id_map_in_order_of_first_occurrence_witness :
  let a := "https://sites.google.com/view/a" in
  let b := "https://sites.google.com/view/b" in
  ∃ id_map w',
    crawl_phase browser0 elements path_of "/res" [a; b; a]
      (mkWorld ∅ [] [] [] []) = (inr id_map, w')
    ∧ id_map.*1 = [a; b]
    ∧ downloading_urls (out (download_phase srv_pdf elements id_map w').2)
      = [a; b].
Proof.
  intros a b.
  set (run := crawl_phase browser0 elements path_of "/res" [a; b; a]
                (mkWorld ∅ [] [] [] [])).
  assert (run = (inr (match run.1 with inr d => d | inl _ => [] end), run.2))
    as Hrun by (vm_compute; reflexivity).
  destruct (id_map_in_order_of_first_occurrence srv_pdf browser0 elements
              path_of "/res" [a; b; a] _ _ _ Hrun) as (Hkeys & _ & Hdown).
  eexists _, _. split_and!; [exact Hrun|exact Hkeys|].
  destruct (Hdown run.2) as (w3 & Hrun3 & Hout & _).
  rewrite Hrun3. cbn [snd]. rewrite Hout. vm_compute. reflexivity.
Defined.

(** ** The files of the exports *)

Lemma str_app_inv_l (s a b : string) : s +:+ a = s +:+ b → a = b.
Proof.
  induction s as [|c s IH]; [by rewrite !app_nil_l|].
  rewrite !app_cons. intros [= H]. by apply IH.
Qed.

Lemma str_app_inv_r (a b t : string) : a +:+ t = b +:+ t → a = b.
Proof.
  revert b. induction a as [|c a IH]; intros [|d b].
  - done.
  - rewrite app_nil_l. intros H. apply (f_equal String.length) in H.
    rewrite length_app_str in H. cbn in H. lia.
  - rewrite app_nil_l. intros H. apply (f_equal String.length) in H.
    rewrite length_app_str in H. cbn in H. lia.
  - rewrite !app_cons. intros [= -> H]. f_equal. by apply IH.
Qed.

Lemma last_char_app (s t : string) :
  t ≠ EmptyString → Text.last_char (s +:+ t) = Text.last_char t.
Proof.
  intros Ht. induction s as [|c s IH]; [by rewrite app_nil_l|].
  rewrite app_cons. cbn [Text.last_char]. rewrite IH.
  destruct (s +:+ t) eqn:E; [|done].
  apply (f_equal String.length) in E. rewrite length_app_str in E.
  destruct t; [done|]. cbn in E. lia.
Qed.

(** The names of the exports tell the document and the format. *)
Lemma doc_name_inj (did1 did2 fmt1 fmt2 : string) :
  fmt1 ∈ ["pdf"; "docx"] → fmt2 ∈ ["pdf"; "docx"] →
  doc_name did1 fmt1 = doc_name did2 fmt2 → did1 = did2 ∧ fmt1 = fmt2.
Proof.
  intros H1 H2. unfold doc_name.
  assert (∀ f, f ∈ ["pdf"; "docx"] → f = "pdf" ∨ f = "docx") as Hf.
  { intros f. rewrite !elem_of_cons, elem_of_nil. tauto. }
  apply Hf in H1 as [-> | ->]; apply Hf in H2 as [-> | ->]; cbn [decide];
    repeat (rewrite decide_True by done) || (rewrite decide_False by done);
    intros H.
  - by apply str_app_inv_r in H.
  - apply (f_equal Text.last_char) in H. by rewrite !last_char_app in H.
  - apply (f_equal Text.last_char) in H. by rewrite !last_char_app in H.
  - by apply str_app_inv_r in H.
Qed.

Lemma path_join_inj (a n1 n2 : string) :
  Text.startswith n1 "/" = false → Text.startswith n2 "/" = false →
  path_join a n1 = path_join a n2 → n1 = n2.
Proof.
  intros H1 H2. unfold path_join. rewrite H1, H2.
  destruct (_ || _).
  - apply str_app_inv_l.
  - intros H. by apply str_app_inv_l, str_app_inv_l in H.
Qed.

Lemma doc_name_relative (did fmt : string) :
  Text.contains "/" did = false →
  Text.startswith (doc_name did fmt) "/" = false.
Proof.
  intros H. apply no_slash_startswith. unfold doc_name.
  rewrite no_slash_app, H. by destruct (decide _).
Qed.

(** A routine leaves alone every entry of the filesystem that is not its
    destination, whatever comes of it. *)
Lemma shape_spares (m : M unit)
    (server : list Request → Request → exn + Response)
    (c : call) (url : string) (params : list (string * string))
    (outdir : string) (name : Response → string) (saved : string → msg)
    (w w' : World) (o : exn + unit) (p : string) (n : node) :
  routine_shape m server c url params outdir name saved →
  (∀ r, p ≠ path_join outdir (name r)) →
  m w = (o, w') →
  fs w !! p = Some n → fs w' !! p = Some n.
Proof.
  intros Hshape Hp Hrun Hn. rewrite Hshape in Hrun. cbn zeta in Hrun.
  destruct (checked _) as [e|r].
  { by injection Hrun as <- <-. }
  destruct (fs_store _ _ _ _) as [[e|] fs'] eqn:Hst.
  - injection Hrun as <- <-. cbn. apply fs_store_failed in Hst as ->.
    by apply fs_makedirs_mono.
  - injection Hrun as <- <-. cbn.
    apply fs_store_kinds in Hst as (_ & _ & Hframe & _). by apply Hframe.
Qed.

(** X12.  The exports of the documents, as PDF and as DOCX, have pairwise
    distinct files in an output directory, and an export, successful or
    not, leaves the file of every other export as it is. *)
Theorem exports_do_not_collide
    (server : list Request → Request → exn + Response)
    (src1 src2 did1 did2 outdir fmt1 fmt2 : string)
    (w w' : World) (o : exn + unit) (n : node) :
  did1 ∈ doc_ids src1 → did2 ∈ doc_ids src2 →
  fmt1 ∈ ["pdf"; "docx"] → fmt2 ∈ ["pdf"; "docx"] →
  (did1, fmt1) ≠ (did2, fmt2) →
  fs w !! path_join outdir (doc_name did1 fmt1) = Some n →
  download_doc_export server did2 outdir fmt2 w = (o, w') →
  path_join outdir (doc_name did1 fmt1) ≠ path_join outdir (doc_name did2 fmt2)
  ∧ fs w' !! path_join outdir (doc_name did1 fmt1) = Some n.
Proof.
  intros Hd1 Hd2 Hf1 Hf2 Hne Hn Hrun.
  assert (∀ src did, did ∈ doc_ids src → Text.contains "/" did = false) as Hid.
  { intros src did H. unfold doc_ids in H. apply elem_of_list_to_set in H.
    by eapply extracted_id_no_slash. }
  assert (path_join outdir (doc_name did1 fmt1)
          ≠ path_join outdir (doc_name did2 fmt2)) as Hpath.
  { intros H. apply path_join_inj in H;
      [|eapply doc_name_relative, Hid; eassumption..].
    apply doc_name_inj in H as [-> ->]; done. }
  split; [done|].
  eapply shape_spares; [apply doc_shape| |exact Hrun|exact Hn].
  intros r. exact Hpath.
Qed.

(** The theorem for the two exports of the document [D1] of the sample
    page: after the second the first is still there. *)
Lemma exports_do_not_collide_witness :
  let w1 := (download_doc_export srv_pdf "D1" "/res/view_a" "pdf" world0).2 in
  let w2 := (download_doc_export srv_pdf "D1" "/res/view_a" "docx" w1).2 in
  fs w2 !! "/res/view_a/D1_export.pdf" = Some (File "%PDF-1")
  ∧ fs w2 !! "/res/view_a/D1_export.docx" = Some (File "%PDF-1").
Proof.
  intros w1 w2.
  assert ("D1" ∈ doc_ids page_a) as Hd.
  { unfold doc_ids. apply elem_of_list_to_set. vm_compute.
    apply elem_of_cons. by left. }
  assert (∀ f : string, f ∈ [f]) as Hin by (intros f; apply elem_of_cons; by left).
  destruct (exports_do_not_collide srv_pdf page_a page_a "D1" "D1" "/res/view_a"
              "pdf" "docx" w1 w2
              (download_doc_export srv_pdf "D1" "/res/view_a" "docx" w1).1
              (File "%PDF-1") Hd Hd) as [_ Hkept].
  - apply elem_of_cons. by left.
  - apply elem_of_cons. right. apply Hin.
  - done.
  - vm_compute. reflexivity.
  - by destruct (download_doc_export srv_pdf "D1" "/res/view_a" "docx" w1).
  - split; [exact Hkept|]. vm_compute. reflexivity.
Defined.

(** ** The cookies handed to the session *)

Lemma last_value_snoc (n : string) (cs : list cookie) (c : cookie) :
  last_value n (cs ++ [c])
  = if decide (cookie_name c = n) then Some (cookie_value c)
    else last_value n cs.
Proof.
  induction cs as [|c0 cs IH]; cbn [app last_value].
  - by destruct (decide _).
  - rewrite IH. destruct (decide (cookie_name c = n)); [done|].
    by destruct (last_value n cs).
Qed.

Lemma cookie_dict_snoc (cs : list cookie) (c : cookie) :
  cookie_dict (cs ++ [c])
  = dict_set (cookie_name c) (cookie_value c) (cookie_dict cs).
Proof. unfold cookie_dict. by rewrite foldl_app. Qed.

Lemma cookie_dict_keys (cs : list cookie) :
  (cookie_dict cs).*1 = first_occurrences (cookie_name <$> cs).
Proof.
  induction cs as [|c cs IH] using rev_ind; [done|].
  rewrite cookie_dict_snoc, dict_set_keys, IH, fmap_app. cbn [fmap list_fmap].
  rewrite first_occurrences_snoc.
  destruct (decide (cookie_name c ∈ cookie_name <$> cs)) as [Hin|Hnin].
  - rewrite decide_True; [done|]. by apply elem_of_first_occurrences.
  - rewrite decide_False; [done|]. by rewrite elem_of_first_occurrences.
Qed.

Lemma cookie_dict_get (cs : list cookie) (n : string) :
  dict_get n (cookie_dict cs) = last_value n cs.
Proof.
  induction cs as [|c cs IH] using rev_ind; [done|].
  rewrite cookie_dict_snoc, last_value_snoc.
  destruct (decide (cookie_name c = n)) as [<-|Hne].
  - apply dict_get_set.
  - rewrite dict_get_set_ne by done. apply IH.
Qed.

(** Assignments in the order of a dictionary rebuild the dictionary. *)
Lemma session_cookies_copy (jar d : list (string * string)) :
  NoDup (jar ++ d).*1 →
  foldl (λ jar kv, dict_set kv.1 kv.2 jar) jar d = jar ++ d.
Proof.
  revert jar. induction d as [|[k v] d IH]; intros jar Hnd; cbn [foldl fst snd].
  - by rewrite app_nil_r.
  - assert (dict_set k v jar = jar ++ [(k, v)]) as ->.
    { rewrite fmap_app in Hnd. apply NoDup_app in Hnd as (_ & Hk & _).
      clear IH. induction jar as [|[k0 v0] jar IHj]; [done|].
      cbn [dict_set]. rewrite decide_False.
      - cbn [app]. f_equal. apply IHj. intros x Hx. apply Hk.
        cbn. apply elem_of_cons. by right.
      - intros ->. eapply (Hk k0); cbn; apply elem_of_cons; by left. }
    rewrite IH; [by rewrite <- app_assoc|]. by rewrite <- app_assoc.
Qed.

(** X13.  The session gets one cookie per distinct name the browser holds,
    in the order of first occurrence, each with the value of the last
    browser cookie of that name: what else a cookie carries, its domain
    among it, is dropped, and of two cookies with one name the earlier is
    lost. *)
Theorem session_gets_last_cookie_of_each_name (cs : list cookie) :
  (session_bridge cs).*1 = first_occurrences (cookie_name <$> cs)
  ∧ NoDup (session_bridge cs).*1
  ∧ (∀ n, dict_get n (session_bridge cs) = last_value n cs)
  ∧ (∀ n, n ∈ (session_bridge cs).*1 ↔ ∃ c, c ∈ cs ∧ cookie_name c = n)
  ∧ session_bridge cs = cookie_dict cs.
Proof.
  assert (session_bridge cs = cookie_dict cs) as Heq.
  { unfold session_bridge, session_cookies.
    rewrite session_cookies_copy; [done|]. cbn [app].
    rewrite cookie_dict_keys. apply NoDup_first_occurrences. }
  rewrite Heq, cookie_dict_keys. split_and!; try done.
  - apply NoDup_first_occurrences.
  - apply cookie_dict_get.
  - intros n. rewrite elem_of_first_occurrences, list_elem_of_fmap.
    split; intros (c & H1 & H2); exists c; by split.
Qed.

(** ** The alphabet of a slug *)

(** X14.  A slug is made of ASCII letters, digits and underscores only.  In
    particular it has no dot: it is neither [.] nor [..], which as
    directory names would denote the base directory or its parent. *)
Theorem slug_alphabet (urlparse_path : string → string) (url : string) :
  Text.forallb_str word_char (slugify urlparse_path url) = true
  ∧ Text.contains "." (slugify urlparse_path url) = false.
Proof.
  assert (Text.forallb_str word_char (slugify urlparse_path url) = true) as Hw.
  { unfold slugify. destruct (Text.is_empty (Re.sub_nonalnum _));
      [reflexivity|apply sub_nonalnum_go_word]. }
  split; [done|].
  revert Hw. generalize (slugify urlparse_path url). intros s.
  induction s as [|c s IH]; [done|]. cbn [Text.forallb_str].
  intros [Hc Hs]%andb_true_iff. cbn [Text.contains].
  rewrite (IH Hs), orb_false_r. unfold Text.startswith.
  cbn [Text.strip_prefix].
  destruct (Ascii.eqb "." c) eqn:E; [|done].
  apply Ascii.eqb_eq in E. by subst c.
Qed.

(** ** From the command line to the downloads *)

Lemma dict_set_entries {V} (k : string) (v : V) (d : list (string * V))
    (x : string * V) :
  x ∈ dict_set k v d → x = (k, v) ∨ x ∈ d.
Proof.
  induction d as [|[k' v'] d IH]; cbn [dict_set].
  - intros ->%list_elem_of_singleton. by left.
  - destruct (decide (k = k')) as [->|Hne].
    + intros [->|H]%elem_of_cons; [by left|]. right. apply elem_of_cons.
      by right.
    + intros [->|H]%elem_of_cons.
      * right. apply elem_of_cons. by left.
      * apply IH in H as [->|H]; [by left|]. right. apply elem_of_cons.
        by right.
Qed.

(** Every entry of [id_map] is what the crawl of its URL returned at some
    point. *)
Lemma crawl_fold_entries (browser : list string → exn + string)
    (order : gset string → list string) (urlparse_path : string → string)
    (base_dir : string) (urls : list string)
    (d0 id_map : list (string * (string * gset string * gset string)))
    (w w' : World) :
  for_fold urls d0
    (λ id_map url,
       entry ← crawl_url browser order urlparse_path base_dir url;
       mret (dict_set url entry id_map)) w
  = (inr id_map, w') →
  ∀ url entry, (url, entry) ∈ id_map →
    (url, entry) ∈ d0
    ∨ (url ∈ urls
       ∧ ∃ w1 w2, crawl_url browser order urlparse_path base_dir url w1
                  = (inr entry, w2)).
Proof.
  set (step := λ id_map url, _).
  revert d0 w. induction urls as [|u urls IH]; intros d0 w.
  - cbn. intros H. cbv [ret] in H. injection H as <- <-. by left.
  - cbn [for_fold]. unfold mbind at 1, M_bind at 1, bind at 1.
    destruct (step d0 u w) as [[e|d1] w1] eqn:Hstep; [done|].
    assert (∃ en w2, d1 = dict_set u en d0
                     ∧ crawl_url browser order urlparse_path base_dir u w
                       = (inr en, w2)) as (en & w2 & -> & Hc).
    { subst step. cbn beta in Hstep. unfold mbind, M_bind, bind in Hstep.
      destruct (crawl_url _ _ _ _ u w) as [[e|en] w2]; [done|].
      unfold mret, M_ret, ret in Hstep. injection Hstep as <- <-.
      by exists en, w2. }
    intros Hrest url entry Hin.
    destruct (IH _ _ Hrest url entry Hin) as [H0|[Hu Hrun]].
    + apply dict_set_entries in H0 as [[= -> ->]|H0]; [|by left].
      right. split; [apply elem_of_cons; by left|]. by exists w, w2.
    + right. split; [apply elem_of_cons; by right|done].
Qed.

Lemma extracted_id_chars (lit src id : string) :
  id ∈ Re.findall_id lit src →
  id ≠ EmptyString ∧ Text.forallb_str Text.is_idchar id = true.
Proof. by intros (pre & post & _ & Hne & Hid & _)%findall_go_sound. Qed.

(** What a crawl returns: the slug directory of the URL, and identifiers. *)
Lemma crawl_url_entry (browser : list string → exn + string)
    (order : gset string → list string) (urlparse_path : string → string)
    (base_dir url : string) (w w' : World)
    (outdir : string) (files docs : gset string) :
  crawl_url browser order urlparse_path base_dir url w
    = (inr (outdir, files, docs), w') →
  outdir = path_join base_dir (slugify urlparse_path url)
  ∧ ∀ id, id ∈ files ∪ docs →
      id ≠ EmptyString ∧ Text.forallb_str Text.is_idchar id = true.
Proof.
  intros (src & subs & _ & _ & _ & -> & -> & -> & _)%crawl_url_run.
  split; [done|].
  assert (∀ s id, id ∈ file_ids s →
            id ≠ EmptyString ∧ Text.forallb_str Text.is_idchar id = true) as Hf.
  { intros s id [H|H]%elem_of_union; apply elem_of_list_to_set in H;
      by eapply extracted_id_chars. }
  assert (∀ s id, id ∈ doc_ids s →
            id ≠ EmptyString ∧ Text.forallb_str Text.is_idchar id = true) as Hd.
  { intros s id H. apply elem_of_list_to_set in H. by eapply extracted_id_chars. }
  intros id [[H|H]%elem_of_union|[H|H]%elem_of_union]%elem_of_union.
  - by eapply Hf.
  - apply elem_of_union_list in H as (X & HX & Hid).
    apply list_elem_of_fmap in HX as (s & -> & _). by eapply Hf.
  - by eapply Hd.
  - apply elem_of_union_list in H as (X & HX & Hid).
    apply list_elem_of_fmap in HX as (s & -> & _). by eapply Hd.
Qed.

(** X15.  In a run of [main] that completes, every download attempted is
    for the slug directory of one of the URLs of the command line, with an
    identifier that is not empty and made of letters, digits, underscores
    and hyphens; an export is asked as [pdf] or as [docx]. *)
Theorem downloads_target_slug_directories
    (server : list Request → Request → exn + Response)
    (browser : list string → exn + string)
    (order : gset string → list string) (urlparse_path : string → string)
    (base_dir : string) (urls : list string) (w w' : World) :
  (∀ X, order X ≡ₚ elements X) →
  main server browser order urlparse_path base_dir urls w = (inr tt, w') →
  ∃ cs,
    calls w' = calls w ++ cs
    ∧ ∀ c, c ∈ cs →
        ∃ url, url ∈ urls ∧
          match c with
          | CallDrive fid outdir =>
              outdir = path_join base_dir (slugify urlparse_path url)
              ∧ fid ≠ EmptyString
              ∧ Text.forallb_str Text.is_idchar fid = true
          | CallDoc did outdir fmt =>
              outdir = path_join base_dir (slugify urlparse_path url)
              ∧ did ≠ EmptyString
              ∧ Text.forallb_str Text.is_idchar did = true
              ∧ (fmt = "pdf" ∨ fmt = "docx")
          end.
Proof.
  intros Hord Hmain. rewrite main_split in Hmain.
  destruct (crawl_stage browser order urlparse_path base_dir urls w)
    as [[e|id_map] w1] eqn:Hcrawl; [done|].
  assert (calls w1 = calls w
          ∧ ∃ w0, crawl_phase browser order urlparse_path base_dir urls w0
                  = (inr id_map, w1)) as [Hc1 [w0 Hphase]].
  { unfold crawl_stage, mbind, M_bind, bind, makedirs in Hcrawl.
    destruct (fs_makedirs (fs w) base_dir) as [[e0|] fs1]; [done|].
    unfold driver_get at 1 in Hcrawl.
    cbn [nav fs reqs calls out with_fs] in Hcrawl.
    destruct (browser _) as [e0|s]; [done|].
    match type of Hcrawl with
    | crawl_phase _ _ _ _ _ ?w0 = _ =>
        pose proof (crawl_phase_quiet browser order urlparse_path base_dir
                      urls) as (_ & _ & Hc); specialize (Hc w0);
        rewrite Hcrawl in Hc; split; [exact Hc|by exists w0]
    end. }
  destruct (steps_download_phase server order id_map w1) as (w2 & Hdl & Hc2 & _).
  unfold mbind, M_bind, bind in Hmain. rewrite Hdl in Hmain.
  injection Hmain as <-. cbn [calls log_out].
  exists (id_map ≫= entry_calls order). split; [by rewrite Hc2, Hc1|].
  intros c (item & Hc & Hitem)%list_elem_of_bind.
  destruct item as [url [[outdir files] docs]].
  unfold crawl_phase in Hphase.
  destruct (crawl_fold_entries _ _ _ _ _ _ _ _ _ Hphase _ _ Hitem)
    as [?%elem_of_nil|[Hurl (wa & wb & Hrun)]]; [done|].
  apply crawl_url_entry in Hrun as [-> Hids].
  exists url. split; [done|].
  destruct (entry_calls_exact order url
              (path_join base_dir (slugify urlparse_path url)) files docs Hord)
    as (_ & Hdrive & Hdoc & Hkinds).
  destruct (Hkinds c Hc) as [[fid ->]|(did & fmt & ->)].
  - apply Hdrive in Hc. split; [done|]. apply Hids, elem_of_union. by left.
  - apply Hdoc in Hc as [Hin Hfmt]. split; [done|].
    destruct (Hids did) as [? ?]; [apply elem_of_union; by right|done].
Qed.

(** The theorem on the run for the sample page. *)
Lemma downloads_target_slug_directories_witness :
  let urls := ["https://sites.google.com/view/a"] in
  let run := main srv_pdf browser0 elements path_of "/res" urls
               (mkWorld ∅ [] [] [] []) in
  run.1 = inr tt
  ∧ ∃ cs, calls run.2 = cs
          ∧ ∀ c, c ∈ cs →
              match c with
              | CallDrive _ outdir | CallDoc _ outdir _ => outdir = "/res/view_a"
              end.
Proof.
  intros urls run.
  assert (run = (inr tt, run.2)) as Hrun by (vm_compute; reflexivity).
  split; [exact (f_equal fst Hrun)|].
  destruct (downloads_target_slug_directories srv_pdf browser0 elements path_of
              "/res" urls (mkWorld ∅ [] [] [] []) run.2 (λ X, reflexivity _) Hrun)
    as (cs & Hcs & Hall).
  exists cs. split; [exact Hcs|].
  intros c Hc. destruct (Hall c Hc) as (url & Hurl & H).
  apply list_elem_of_singleton in Hurl. subst url.
  destruct c; destruct H as [-> _]; vm_compute; reflexivity.
Defined.
